(** * PITS-MFA data pipeline: src/data_utils.py

    A shallow embedding of the three classes of [data_utils.py]
    ([TextAudioLoader], [TextAudioCollate], [DistributedBucketSampler])
    and of [create_spec], and the properties of the length-aware batching
    subsystem.

    Python integers are [Z]; list lengths, list positions and the counts
    [batch_size], [num_replicas] and [rank] are [nat].  Python exceptions
    are the constructors of [PyError]; a function that can raise returns a
    [result]; an exception stands for its class. *)

From stdpp Require Import list sorting strings.
From Stdlib Require Import ZArith Lia.
From Equations Require Import Equations.

Open Scope Z_scope.

(** ** Exceptions and the error monad *)

Inductive PyError : Type :=
| IndexError
| ZeroDivisionError
| ValueError
| RuntimeError
| OSError
| AssertionError.

Inductive result (A : Type) : Type :=
| Ok (a : A)
| Raise (e : PyError).
Arguments Ok {A} a.
Arguments Raise {A} e.

Definition bind {A B : Type} (m : result A) (k : A -> result B) : result B :=
  match m with
  | Ok a => k a
  | Raise e => Raise e
  end.

Notation "'let*' p ':=' e 'in' k" := (bind e (fun p => k))
  (at level 10, p pattern, e at level 200, k at level 200).

(** [[f(x) for x in l]], left to right, stopping at the first exception. *)
Fixpoint mapM {A B : Type} (f : A -> result B) (l : list A) : result (list B) :=
  match l with
  | [] => Ok []
  | x :: l' => let* y := f x in let* ys := mapM f l' in Ok (y :: ys)
  end.

(** ** Python list and integer primitives *)

Module Py.

(** Position denoted by a Python subscript [i] in a sequence of length
    [n]: negative subscripts count from the end, anything outside
    [-n .. n-1] raises [IndexError]. *)
Definition norm_index (n : nat) (i : Z) : result nat :=
  let j := if i <? 0 then i + Z.of_nat n else i in
  if (0 <=? j) && (j <? Z.of_nat n) then Ok (Z.to_nat j) else Raise IndexError.

(** [l[i]] for an [int] subscript. *)
Definition index {A : Type} (l : list A) (i : Z) : result A :=
  let* pos := norm_index (length l) i in
  match l !! pos with
  | Some x => Ok x
  | None => Raise IndexError
  end.

(** [l[i]] for a subscript known to be non-negative. *)
Definition index_nat {A : Type} (l : list A) (i : nat) : result A :=
  match l !! i with
  | Some x => Ok x
  | None => Raise IndexError
  end.

(** [l.pop(i)] for a non-negative [i]: the list without position [i]. *)
Definition pop {A : Type} (l : list A) (i : nat) : result (list A) :=
  match l !! i with
  | Some _ => Ok (delete i l)
  | None => Raise IndexError
  end.

(** [a // b] and [a % b] on non-negative operands. *)
Definition floordiv (a b : nat) : result nat :=
  if (b =? 0)%nat then Raise ZeroDivisionError else Ok (a / b)%nat.

Definition mod_ (a b : nat) : result nat :=
  if (b =? 0)%nat then Raise ZeroDivisionError else Ok (a mod b)%nat.

(** [a // b] and [a % b] on integers: floor division, the remainder has
    the sign of the divisor, as [Z.div] and [Z.modulo]. *)
Definition floordivZ (a b : Z) : result Z :=
  if b =? 0 then Raise ZeroDivisionError else Ok (a / b).

Definition modZ (a b : Z) : result Z :=
  if b =? 0 then Raise ZeroDivisionError else Ok (a mod b).

(** [l * k]: [k] copies of [l], none when [k <= 0]. *)
Fixpoint repeat_list {A : Type} (l : list A) (k : nat) : list A :=
  match k with
  | O => []
  | S k' => l ++ repeat_list l k'
  end.

(** Number of elements kept by [l[:n]] in a sequence of length [len]. *)
Definition stop (len : nat) (n : Z) : nat :=
  if n <? 0 then Z.to_nat (Z.of_nat len + n) else Nat.min len (Z.to_nat n).

(** [l[:n]] *)
Definition slice_to {A : Type} (l : list A) (n : Z) : list A :=
  take (stop (length l) n) l.

(** [l[a:b]] for non-negative [a], [b]. *)
Definition slice {A : Type} (l : list A) (a b : nat) : list A :=
  take (b - a)%nat (drop a l).

(** The elements of [l] at positions [skip], [skip + step], ...
    ([step >= 1]). *)
Fixpoint stride {A : Type} (step skip : nat) (l : list A) : list A :=
  match l with
  | [] => []
  | x :: l' =>
      match skip with
      | O => x :: stride step (step - 1)%nat l'
      | S k => stride step k l'
      end
  end.

(** [l[start::step]] for non-negative [start]; a zero step raises
    [ValueError]. *)
Definition slice_step {A : Type} (l : list A) (start step : nat)
  : result (list A) :=
  if (step =? 0)%nat then Raise ValueError else Ok (stride step start l).

(** [max(l)] of a list of lengths; [ValueError] on the empty list. *)
Definition max_ (l : list nat) : result nat :=
  match l with
  | [] => Raise ValueError
  | x :: l' => Ok (foldl Nat.max x l')
  end.

(** The value an [int64] operation leaves when its result is [z]: the
    representative of [z] modulo [2^64] in [[-2^63, 2^63)]. *)
Definition wrap64 (z : Z) : Z := (z + 2 ^ 63) mod 2 ^ 64 - 2 ^ 63.

(** [sum(t)] of a one-dimensional [LongTensor]: the elements are added
    as [int64] values, and an addition that overflows wraps around. *)
Definition sum (l : list Z) : Z := foldl (fun a x => wrap64 (a + x)) 0 l.

Definition sum_nat (l : list nat) : nat := foldl Nat.add 0%nat l.

(** [s.split(sep)] for a one-character separator: the pieces between
    consecutive separators; the empty string gives one empty piece. *)
Fixpoint split_aux (sep : Ascii.ascii) (acc : String.string)
    (s : String.string) : list String.string :=
  match s with
  | String.EmptyString => [acc]
  | String.String c s' =>
      if Ascii.eqb c sep then acc :: split_aux sep String.EmptyString s'
      else split_aux sep (String.append acc (String.String c String.EmptyString)) s'
  end.

Definition split (s : String.string) (sep : Ascii.ascii) : list String.string :=
  split_aux sep String.EmptyString s.

(** The separator [" "]. *)
Definition space : Ascii.ascii := Ascii.ascii_of_nat 32.

(** [s.replace(old, new)] for a non-empty [old]: the occurrences of
    [old], taken from the left and not overlapping, become [new].
    [skip] counts the characters of an occurrence still to pass. *)
Fixpoint replace_aux (old new : String.string) (skip : nat)
    (s : String.string) : String.string :=
  match s with
  | String.EmptyString => String.EmptyString
  | String.String c s' =>
      match skip with
      | S k => replace_aux old new k s'
      | O =>
          if String.prefix old s
          then String.append new
                 (replace_aux old new (String.length old - 1) s')
          else String.String c (replace_aux old new 0 s')
      end
  end.

Definition replace (s old new : String.string) : String.string :=
  replace_aux old new 0 s.

(** [s.count(sub)] for a non-empty [sub]: the number of these
    occurrences. *)
Fixpoint count_aux (sub : String.string) (skip : nat) (s : String.string)
  : nat :=
  match s with
  | String.EmptyString => 0%nat
  | String.String c s' =>
      match skip with
      | S k => count_aux sub k s'
      | O =>
          if String.prefix sub s
          then S (count_aux sub (String.length sub - 1) s')
          else count_aux sub 0 s'
      end
  end.

Definition count (s sub : String.string) : nat := count_aux sub 0 s.

End Py.

(** ** DistributedBucketSampler *)

Module DistributedBucketSampler.

(** The attributes the class reads and writes.  [lengths] is
    [dataset.lengths]; [epoch] is the attribute of the base class that
    [set_epoch] assigns. *)
Record Sampler : Type := mkSampler {
  lengths : list Z;
  batch_size : nat;
  boundaries : list Z;
  num_replicas : nat;
  rank : nat;
  shuffle : bool;
  epoch : Z;
  buckets : list (list nat);
  num_samples_per_bucket : list nat;
  total_size : nat;
  num_samples : nat;
  batches : list (list nat)
}.

Definition set_boundaries (self : Sampler) (b : list Z) : Sampler :=
  mkSampler (lengths self) (batch_size self) b (num_replicas self)
    (rank self) (shuffle self) (epoch self) (buckets self)
    (num_samples_per_bucket self) (total_size self) (num_samples self)
    (batches self).

Definition set_batches (self : Sampler) (b : list (list nat)) : Sampler :=
  mkSampler (lengths self) (batch_size self) (boundaries self)
    (num_replicas self) (rank self) (shuffle self) (epoch self)
    (buckets self) (num_samples_per_bucket self) (total_size self)
    (num_samples self) b.

Definition set_epoch (self : Sampler) (e : Z) : Sampler :=
  mkSampler (lengths self) (batch_size self) (boundaries self)
    (num_replicas self) (rank self) (shuffle self) e
    (buckets self) (num_samples_per_bucket self) (total_size self)
    (num_samples self) (batches self).


(** [_bisect(self, x, lo, hi)], lines 315-328, on [self.boundaries].
    The conjunction on line 321 reads [boundaries[mid + 1]] only when
    [boundaries[mid] < x]. *)
Equations? _bisect (boundaries : list Z) (x : Z) (lo hi : Z) : result Z
  by wf (Z.to_nat (hi - lo)) lt :=
  _bisect boundaries x lo hi with Z_lt_dec lo hi => {
    | right _ := Ok (-1);
    | left Hlt with Py.index boundaries ((hi + lo) / 2) => {
        | Raise e := Raise e;
        | Ok bm with Z.ltb bm x => {
            | true with Py.index boundaries ((hi + lo) / 2 + 1) => {
                | Raise e := Raise e;
                | Ok bm1 with Z.leb x bm1 => {
                    | true := Ok ((hi + lo) / 2);
                    | false with Z.leb x bm => {
                        | true := _bisect boundaries x lo ((hi + lo) / 2);
                        | false :=
                            _bisect boundaries x ((hi + lo) / 2 + 1) hi } } };
            | false with Z.leb x bm => {
                | true := _bisect boundaries x lo ((hi + lo) / 2);
                | false :=
                    _bisect boundaries x ((hi + lo) / 2 + 1) hi } } } }.
Proof.
  all: pose proof (Z.div_mod (hi + lo) 2 ltac:(lia));
    pose proof (Z.mod_pos_bound (hi + lo) 2 ltac:(lia)); lia.
Qed.

(** [self._bisect(x)] with the defaults [lo=0], [hi=None]. *)
Definition bisect (boundaries : list Z) (x : Z) : result Z :=
  _bisect boundaries x 0 (Z.of_nat (length boundaries) - 1).

(** [buckets[idx_bucket].append(i)] *)
Definition bucket_append (buckets : list (list nat)) (idx_bucket : Z) (i : nat)
  : result (list (list nat)) :=
  let* pos := Py.norm_index (length buckets) idx_bucket in
  Ok (alter (fun b => b ++ [i]) pos buckets).

(** Lines 249-253: the loop over the example indices, [i] being the
    index of the head of [ls]. *)
Fixpoint fill_buckets (boundaries : list Z) (i : nat) (ls : list Z)
    (buckets : list (list nat)) : result (list (list nat)) :=
  match ls with
  | [] => Ok buckets
  | length_ :: ls' =>
      let* idx_bucket := bisect boundaries length_ in
      let* buckets' := (if idx_bucket =? -1 then Ok buckets
                   else bucket_append buckets idx_bucket i) in
      fill_buckets boundaries (S i) ls' buckets'
  end.

(** Lines 255-258: [for i in range(len(buckets) - 1, -1, -1)], with [n]
    the number of positions still to visit ([i = n - 1]). *)
Fixpoint prune (n : nat) (buckets : list (list nat)) (boundaries : list Z)
  : result (list (list nat) * list Z) :=
  match n with
  | O => Ok (buckets, boundaries)
  | S i =>
      let* b := Py.index_nat buckets i in
      if (length b =? 0)%nat then
        let* buckets' := Py.pop buckets i in
        let* boundaries' := Py.pop boundaries (i + 1)%nat in
        prune i buckets' boundaries'
      else prune i buckets boundaries
  end.

(** Lines 262-266: the padded size of one bucket. *)
Definition padded_size (num_replicas batch_size : nat) (len_bucket : nat)
  : result nat :=
  let total_batch_size := (num_replicas * batch_size)%nat in
  let* m := Py.mod_ len_bucket total_batch_size in
  let* rem := Py.mod_ (total_batch_size - m)%nat total_batch_size in
  Ok (len_bucket + rem)%nat.

(** [_create_buckets(self)], lines 247-267.  It pops from
    [self.boundaries], so the sampler is returned with the result. *)
Definition _create_buckets (self : Sampler)
  : result (Sampler * (list (list nat) * list nat)) :=
  let buckets := replicate (Z.to_nat (Z.of_nat (length (boundaries self)) - 1)) [] in
  let* buckets := fill_buckets (boundaries self) 0 (lengths self) buckets in
  let* (buckets, boundaries') := prune (length buckets) buckets (boundaries self) in
  let* num_samples_per_bucket :=
    mapM (fun b => padded_size (num_replicas self) (batch_size self) (length b))
         buckets in
  Ok (set_boundaries self boundaries', (buckets, num_samples_per_bucket)).

(** [__init__], lines 228-245.  The constructor of the base class,
    called first (line 235), raises [ValueError] unless
    [0 <= rank < num_replicas]; then it stores [num_replicas], [rank],
    [shuffle] and sets [epoch = 0].  ([num_replicas] and [rank] are
    counts here: a negative one is refused by the same check.) *)
Definition __init__ (dataset_lengths : list Z) (batch_size : nat)
    (boundaries : list Z) (num_replicas rank : nat) (shuffle : bool)
  : result Sampler :=
  if (num_replicas <=? rank)%nat then Raise ValueError
  else
  let self := mkSampler dataset_lengths batch_size boundaries num_replicas
                rank shuffle 0 [] [] 0 0 [] in
  let* (self, (buckets, num_samples_per_bucket)) := _create_buckets self in
  let total_size := Py.sum_nat num_samples_per_bucket in
  let* num_samples := Py.floordiv total_size num_replicas in
  Ok (mkSampler (lengths self) batch_size (DistributedBucketSampler.boundaries self)
        num_replicas rank shuffle 0 buckets num_samples_per_bucket
        total_size num_samples []).

(** Line 292-293: the permuted local indices of a bucket extended by
    cyclic repetition. *)
Definition extend_ids (ids_bucket : list nat) (len_bucket : nat) (rem : Z)
  : result (list nat) :=
  let* q := Py.floordivZ rem (Z.of_nat len_bucket) in
  let* r := Py.modZ rem (Z.of_nat len_bucket) in
  Ok (ids_bucket ++ Py.repeat_list ids_bucket (Z.to_nat q)
        ++ Py.slice_to ids_bucket r).

(** Lines 299-305: the batches of one bucket. *)
Definition make_batches (batch_size : nat) (bucket ids_bucket : list nat)
  : result (list (list nat)) :=
  let* n := Py.floordiv (length ids_bucket) batch_size in
  mapM (fun j =>
          mapM (Py.index_nat bucket)
            (Py.slice ids_bucket (j * batch_size)%nat ((j + 1) * batch_size)%nat))
       (seq 0 n).

(** Lines 288-296: the share of rank [rank] in one bucket. *)
Definition rank_share (num_replicas rank : nat) (len_bucket : nat)
    (ids_bucket : list nat) (num_samples_bucket : nat) : result (list nat) :=
  let rem := Z.of_nat num_samples_bucket - Z.of_nat len_bucket in
  let* ids_bucket := extend_ids ids_bucket len_bucket rem in
  Py.slice_step ids_bucket rank num_replicas.

(** The body of the loop of lines 284-305 for bucket [i]. *)
Definition bucket_batches (self : Sampler) (indices : list (list nat)) (i : nat)
  : result (list (list nat)) :=
  let* bucket := Py.index_nat (buckets self) i in
  let* ids_bucket := Py.index_nat indices i in
  let* num_samples_bucket := Py.index_nat (num_samples_per_bucket self) i in
  let* ids_bucket := rank_share (num_replicas self) (rank self) (length bucket)
                  ids_bucket num_samples_bucket in
  make_batches (batch_size self) bucket ids_bucket.

Section Generator.
(** [torch.Generator]: the states, [manual_seed], which raises for
    an integer it does not take as a seed, and [randperm], which
    returns the permutation together with the advanced state. *)
Variable G : Type.
Variable manual_seed : Z -> result G.
Variable randperm : nat -> G -> list nat * G.

(** Lines 276-278. *)
Fixpoint shuffled_indices (bs : list (list nat)) (g : G)
  : list (list nat) * G :=
  match bs with
  | [] => ([], g)
  | bucket :: bs' =>
      let '(p, g1) := randperm (length bucket) g in
      let '(ps, g2) := shuffled_indices bs' g1 in
      (p :: ps, g2)
  end.

(** [__iter__], lines 269-313.  The iterator returned is the list of
    batches; the sampler comes back with [self.batches] assigned. *)
Definition __iter__ (self : Sampler) : result (Sampler * list (list nat)) :=
  let* g := manual_seed (epoch self) in
  let '(indices, g) :=
    if shuffle self then shuffled_indices (buckets self) g
    else (map (fun bucket => seq 0 (length bucket)) (buckets self), g) in
  let* per_bucket := mapM (bucket_batches self indices)
                  (seq 0 (length (buckets self))) in
  let batches := concat per_bucket in
  let* batches := (if shuffle self then
                let '(batch_ids, _) := randperm (length batches) g in
                mapM (Py.index_nat batches) batch_ids
              else Ok batches) in
  let self := set_batches self batches in
  if (length (DistributedBucketSampler.batches self) * batch_size self
      =? num_samples self)%nat
  then Ok (self, DistributedBucketSampler.batches self)
  else Raise AssertionError.

End Generator.

(** [__len__], lines 330-331. *)
Definition __len__ (self : Sampler) : result nat :=
  Py.floordiv (num_samples self) (batch_size self).

End DistributedBucketSampler.


(** ** Tensors *)

(** A two-dimensional tensor of shape [[size0, size1]]: its rows, each of
    [size1] elements.  [size1] is kept beside the rows so that a tensor
    without rows still has a last dimension. *)
Record Tensor2 (A : Type) : Type := mkTensor2 {
  rows : list (list A);
  size1 : nat
}.
Arguments mkTensor2 {A} rows size1.
Arguments rows {A} t.
Arguments size1 {A} t.

Definition size0 {A : Type} (t : Tensor2 A) : nat := length (rows t).

(** Every row has [size1] elements. *)
Definition tensor_wf {A : Type} (t : Tensor2 A) : Prop :=
  Forall (fun r => length r = size1 t) (rows t).

Module Torch.
Section Elements.
Context {A : Type}.
Variable zero : A.

(** [torch.zeros([r, c])] for non-negative sizes. *)
Definition zeros_nat (r c : nat) : Tensor2 A :=
  mkTensor2 (replicate r (replicate c zero)) c.

(** [torch.zeros([r, c])]; a negative size raises [RuntimeError]. *)
Definition zeros (r : nat) (c : Z) : result (Tensor2 A) :=
  if c <? 0 then Raise RuntimeError else Ok (zeros_nat r (Z.to_nat c)).

(** [t[:, :n]] *)
Definition slice_cols (t : Tensor2 A) (n : Z) : Tensor2 A :=
  let k := Py.stop (size1 t) n in
  mkTensor2 (map (take k) (rows t)) k.

(** [dst[:, :src.shape[-1]] = src].  The target is the first
    [m = min(dst.shape[-1], src.shape[-1])] columns of [dst]; [src] is
    broadcast to it, which needs [src.shape[0]] to be [dst.shape[0]]
    or 1 and [src.shape[-1]] to be [m] or 1, and raises
    [RuntimeError] otherwise.  (When [src.shape[-1]] is 1 and not [m],
    [m] is 0 and nothing is copied.) *)
Definition assign_prefix (dst src : Tensor2 A) : result (Tensor2 A) :=
  let m := Nat.min (size1 dst) (size1 src) in
  if ((size0 src =? size0 dst)%nat || (size0 src =? 1)%nat)
     && ((size1 src =? m)%nat || (size1 src =? 1)%nat)
  then
    let srows := if (size0 src =? size0 dst)%nat then rows src
                 else replicate (size0 dst) (hd [] (rows src)) in
    Ok (mkTensor2
          (zip_with (fun d s => take m s ++ drop m d) (rows dst) srows)
          (size1 dst))
  else Raise RuntimeError.
End Elements.

(** [dst[:len(src)] = src] on one row of a two-dimensional tensor. *)
Definition assign_prefix1 {A : Type} (dst src : list A) : result (list A) :=
  let m := Nat.min (length dst) (length src) in
  if (length src =? m)%nat || (length src =? 1)%nat
  then Ok (take m src ++ drop m dst)
  else Raise RuntimeError.

(** [torch.LongTensor(l)] of a list of integers: an element outside
    [int64] raises [RuntimeError] (overflow when unpacking). *)
Definition LongTensor (l : list Z) : result (list Z) :=
  if forallb (fun x => (- 2 ^ 63 <=? x) && (x <? 2 ^ 63)) l then Ok l
  else Raise RuntimeError.

(** [t[i] = v] on a one-dimensional tensor. *)
Definition set_item {A : Type} (t : list A) (i : nat) (v : A) : result (list A) :=
  if (i <? length t)%nat then Ok (<[i:=v]> t) else Raise IndexError.
End Torch.

(** ** TextAudioLoader *)

Module TextAudioLoader.

(** A manifest row [(id_, phonemes, durations)]; after [_filter] the
    first field is the path of the wav file. *)
Definition Row : Type := String.string * String.string * String.string.

(** The attributes [_filter] and [get_audio_text_pair] use. *)
Record Loader : Type := mkLoader {
  audiopaths_sid_text : list Row;
  lengths : list Z;
  hop_length : Z;
  min_text_len : Z;
  max_text_len : Z;
  data_path : String.string
}.

(** [len(s)] of a [str]. *)
Definition len (s : String.string) : Z := Z.of_nat (String.length s).

Section FileSystem.
(** [os.path.join] and [os.path.getsize] ([OSError] on a missing
    file). *)
Variable os_path_join : String.string -> String.string -> String.string.
Variable os_path_getsize : String.string -> result Z.

(** The loop of lines 58-64, [new] and [ls] being
    [audiopaths_sid_text_new] and [lengths]. *)
Fixpoint filter_loop (self : Loader) (rows : list Row)
    (new : list Row) (ls : list Z) : result (list Row * list Z) :=
  match rows with
  | [] => Ok (new, ls)
  | (id_, phonemes, durations) :: rest =>
      if (min_text_len self <=? len phonemes)
         && (len phonemes <=? max_text_len self)
      then
        let wav_path :=
          String.append (os_path_join (data_path self) id_) ".wav"%string in
        let* size := os_path_getsize wav_path in
        let* l := Py.floordivZ size (2 * hop_length self) in
        filter_loop self rest (new ++ [(wav_path, phonemes, durations)])
          (ls ++ [l])
      else filter_loop self rest new ls
  end.

(** [_filter(self)], lines 50-67. *)
Definition _filter (self : Loader) : result Loader :=
  let* (new, ls) := filter_loop self (audiopaths_sid_text self) [] [] in
  Ok (mkLoader new ls (hop_length self) (min_text_len self)
        (max_text_len self) (data_path self)).
End FileSystem.


Section Features.
Context {A : Type}.
Variable zero : A.

(** What [get_audio_text_pair] returns:
    [(phonemes, spec, ying, wav, phn_dur)]. *)
Record Item : Type := mkItem {
  phonemes : list Z;
  spec : Tensor2 A;
  ying : Tensor2 A;
  wav : Tensor2 A;
  phn_dur : list Z
}.

(** Lines 79-88: truncate the features to [sumdur] frames, or pad them
    with zeros up to [sumdur] frames. *)
Definition truncate_or_pad (hop_length sumdur : Z) (spec wav : Tensor2 A)
  : result (Tensor2 A * Tensor2 A) :=
  if sumdur <? Z.of_nat (size1 spec) then
    Ok (Torch.slice_cols spec sumdur,
        Torch.slice_cols wav (sumdur * hop_length))
  else if Z.of_nat (size1 spec) <? sumdur then
    let* spec_pad := Torch.zeros zero (size0 spec) sumdur in
    let* wav_pad := Torch.zeros zero 1 (sumdur * hop_length) in
    let* spec_pad := Torch.assign_prefix spec_pad spec in
    let* wav_pad := Torch.assign_prefix wav_pad wav in
    Ok (spec_pad, wav_pad)
  else Ok (spec, wav).

(** Lines 76-93 of [get_audio_text_pair]: the reconciliation of the
    fetched features with the duration annotation.  [sumdur] is the
    [int64] sum of line 76.  The difference of line 77 and the products
    [sumdur * hop_length] are written in [Z]: they are the values of
    the code on operands on which these [int64] operations do not
    overflow.  The three [assert] statements raise the same
    [AssertionError]. *)
Definition reconcile (hop_length : Z) (phonemes phn_dur : list Z)
    (spec ying wav : Tensor2 A) : result Item :=
  let sumdur := Py.sum phn_dur in
  if negb (Z.abs (Z.of_nat (size1 spec) - sumdur) <? 2)
  then Raise AssertionError
  else
    let* (spec, wav) := truncate_or_pad hop_length sumdur spec wav in
    if negb (length phonemes =? length phn_dur)%nat
    then Raise AssertionError
    else
      let* q := Py.floordivZ (Z.of_nat (size1 wav)) hop_length in
      if negb (sumdur =? q) then Raise AssertionError
      else Ok (mkItem phonemes spec ying wav phn_dur).

(** The collaborators of [get_audio_text_pair]: the text encoder,
    Python's [int], and [get_audio], which decodes the file and reads
    or writes the feature caches and returns [(spec, ying, wav)]. *)
Variable cleaned_text_to_sequence : list String.string -> result (list Z).
Variable int_ : String.string -> result Z.
Variable get_audio :
  String.string -> bool -> result (Tensor2 A * Tensor2 A * Tensor2 A).

(** Lines 127-130. *)
Definition get_phonemes (phonemes : String.string) : result (list Z) :=
  let* text_norm := cleaned_text_to_sequence (Py.split phonemes Py.space) in
  Torch.LongTensor text_norm.

(** Lines 132-135. *)
Definition get_duration_flag (phn_dur : String.string) : result (list Z) :=
  let* phn_dur := mapM int_ (Py.split phn_dur Py.space) in
  Torch.LongTensor phn_dur.

(** [get_audio_text_pair], lines 69-93. *)
Definition get_audio_text_pair (self : Loader) (audiopath_and_text : Row)
    (pt_run : bool) : result Item :=
  let '(wav_path, phonemes, durations) := audiopath_and_text in
  let* phonemes := get_phonemes phonemes in
  let* phn_dur := get_duration_flag durations in
  let* (spec_ying, wav) := get_audio wav_path pt_run in
  let '(spec, ying) := spec_ying in
  reconcile (hop_length self) phonemes phn_dur spec ying wav.

(** [__getitem__], lines 137-139. *)
Definition __getitem__ (self : Loader) (index : Z) : result Item :=
  let* row := Py.index (audiopaths_sid_text self) index in
  get_audio_text_pair self row false.
End Features.

(** The fields of [hparams] the attributes above are read from;
    [min_text_len] and [max_text_len] may be absent
    ([getattr(hparams, ..., default)]). *)
Record HParams : Type := mkHParams {
  hp_sampling_rate : Z;
  hp_filter_length : Z;
  hp_hop_length : Z;
  hp_win_length : Z;
  hp_min_text_len : option Z;
  hp_max_text_len : option Z;
  hp_data_path : String.string
}.

(** [__len__], lines 141-142. *)
Definition __len__ (self : Loader) : nat := length (audiopaths_sid_text self).

(** Lines 117-121 of [get_audio]: the left and right amounts handed to
    [torch.nn.functional.pad] for a signal of [n = audio_norm.shape[1]]
    samples. *)
Definition ying_pad (filter_length hop_length n : Z) : result (Z * Z) :=
  let left := filter_length - hop_length in
  let* m := Py.modZ (- n) hop_length in
  let* m0 := Py.modZ n hop_length in
  Ok (left,
      filter_length - hop_length + m
      + hop_length * (if m0 =? 0 then 1 else 0)).

(** The names of the two feature caches of a wav file, lines 101-102. *)
Definition spec_filename (filename : String.string) : String.string :=
  Py.replace filename ".wav" ".spec.pt".

Definition ying_filename (filename : String.string) : String.string :=
  Py.replace filename ".wav" ".ying.pt".

Section Audio.
(** Tensors and the file system are those of the collaborators:
    [T] is the type of tensors, [FS] the state of the file system,
    which [torch.save] changes. *)
Variables T FS : Type.
Variable load_wav_to_torch : FS -> String.string -> result (T * Z).
Variable os_path_exists : FS -> String.string -> bool.
Variable torch_load : FS -> String.string -> result T.
Variable torch_save : FS -> String.string -> T -> result FS.
(** [spectrogram_torch(y, n_fft, sampling_rate, hop_size, win_size,
    center=False)] *)
Variable spectrogram_torch : T -> Z -> Z -> Z -> Z -> result T.
(** [t.unsqueeze(0)], [t.squeeze(0)], [t.shape[1]] *)
Variable unsqueeze0 : T -> T.
Variable squeeze0 : T -> T.
Variable shape1 : T -> Z.
(** [torch.nn.functional.pad(t, (left, right), mode='constant')] *)
Variable pad : T -> Z -> Z -> result T.
(** [self.pitch.yingram(wav)[0]] *)
Variable yingram : T -> result T.

(** The attributes of [self] that only [get_audio] reads. *)
Variables sampling_rate filter_length win_length : Z.

(** [get_audio], lines 95-125: the features and the file system it
    leaves. *)
Definition get_audio (self : Loader) (fs : FS) (filename : String.string)
    (pt_run : bool) : result (T * T * T * FS) :=
  let* (audio, sr) := load_wav_to_torch fs filename in
  if negb (sr =? sampling_rate) then Raise ValueError
  else
    let audio_norm := unsqueeze0 audio in
    let* (spec, fs) :=
      if os_path_exists fs (spec_filename filename) && negb pt_run
      then
        let* spec := torch_load fs (spec_filename filename) in
        Ok (spec, fs)
      else
        let* spec := spectrogram_torch audio_norm filter_length
                       sampling_rate (hop_length self) win_length in
        let spec := squeeze0 spec in
        let* fs := torch_save fs (spec_filename filename) spec in
        Ok (spec, fs) in
    let* (ying, fs) :=
      if os_path_exists fs (ying_filename filename) && negb pt_run
      then
        let* ying := torch_load fs (ying_filename filename) in
        Ok (ying, fs)
      else
        let* (pad_left, pad_right) :=
          ying_pad filter_length (hop_length self) (shape1 audio_norm) in
        let* wav := pad (unsqueeze0 audio_norm) pad_left pad_right in
        let wav := squeeze0 wav in
        let* ying := yingram wav in
        let* fs := torch_save fs (ying_filename filename) ying in
        Ok (ying, fs) in
    Ok (spec, ying, audio_norm, fs).
End Audio.

Section Construction.
Context {A : Type}.
Variable zero : A.
Variable os_path_join : String.string -> String.string -> String.string.
Variable os_path_getsize : String.string -> result Z.
Variable cleaned_text_to_sequence : list String.string -> result (list Z).
Variable int_ : String.string -> result Z.
Variable get_audio :
  String.string -> bool -> result (Tensor2 A * Tensor2 A * Tensor2 A).

(** [random.seed(1234); random.shuffle(l)]: the list in the order the
    seeded generator gives it. *)
Variable random_shuffle : list Row -> list Row.

(** [__init__], lines 22-48, on the rows [load_filepaths_and_text]
    returned.  The attributes that only [get_audio] reads
    ([sampling_rate], [filter_length], [win_length], [pitch]) are
    with that collaborator; [lengths] does not exist before
    [_filter] sets it. *)
Definition __init__ (loaded : list Row) (hparams : HParams) (pt_run : bool)
  : result Loader :=
  let self :=
    mkLoader (random_shuffle loaded) [] (hp_hop_length hparams)
      (default 1 (hp_min_text_len hparams))
      (default 190 (hp_max_text_len hparams))
      (hp_data_path hparams) in
  let* self := _filter os_path_join os_path_getsize self in
  if pt_run then
    let* _ := mapM (fun row =>
                      get_audio_text_pair zero cleaned_text_to_sequence int_
                        get_audio self row true)
                (audiopaths_sid_text self) in
    Ok self
  else Ok self.
End Construction.

End TextAudioLoader.

(** ** create_spec *)

Section CreateSpec.
Import TextAudioLoader.
Variables T FS : Type.
Variable os_path_join : String.string -> String.string -> String.string.
Variable load_wav_to_torch : FS -> String.string -> result (T * Z).
Variable os_path_exists : FS -> String.string -> bool.
Variable torch_save : FS -> String.string -> T -> result FS.
Variable spectrogram_torch : T -> Z -> Z -> Z -> Z -> result T.
Variable unsqueeze0 : T -> T.
Variable squeeze0 : T -> T.

(** The loop of lines 336-353 over the rows still to visit. *)
Fixpoint create_spec_loop (hparams : HParams) (fs : FS) (rows : list Row)
  : result FS :=
  match rows with
  | [] => Ok fs
  | (audiopath, _, _) :: rest =>
      let audiopath :=
        String.append (os_path_join (hp_data_path hparams) audiopath)
          ".wav"%string in
      let* (audio, sr) := load_wav_to_torch fs audiopath in
      if negb (sr =? hp_sampling_rate hparams) then Raise ValueError
      else
        let audio_norm := unsqueeze0 audio in
        let specpath := Py.replace audiopath ".wav" ".spec.pt" in
        let* fs :=
          if negb (os_path_exists fs specpath)
          then
            let* spec := spectrogram_torch audio_norm
                           (hp_filter_length hparams)
                           (hp_sampling_rate hparams)
                           (hp_hop_length hparams)
                           (hp_win_length hparams) in
            let spec := squeeze0 spec in
            torch_save fs specpath spec
          else Ok fs in
        create_spec_loop hparams fs rest
  end.

(** [create_spec], lines 334-353, on the rows
    [load_filepaths_and_text] returned. *)
Definition create_spec (fs : FS) (loaded : list Row) (hparams : HParams)
  : result FS :=
  create_spec_loop hparams fs loaded.
End CreateSpec.

(** ** TextAudioCollate *)

Module TextAudioCollate.
Import TextAudioLoader.

Section Collate.
Context {A : Type}.
Variable zero : A.

(** [torch.sort(keys, dim=0, descending=True)]: the sorted values and
    the positions they came from. *)
Variable torch_sort_descending : list Z -> list Z * list nat.

(** The nine tensors [__call__] returns, in the order of the [return]
    statement. *)
Record BatchTensors : Type := mkBatchTensors {
  phonemes_padded : list (list Z);
  phonemes_lengths : list Z;
  spec_padded : list (Tensor2 A);
  spec_lengths : list Z;
  ying_padded : list (Tensor2 A);
  ying_lengths : list Z;
  wav_padded : list (Tensor2 A);
  wav_lengths : list Z;
  phndur_padded : list (list Z)
}.

(** [t[i, :len(src)] = src] *)
Definition assign_row1 (t : list (list Z)) (i : nat) (src : list Z)
  : result (list (list Z)) :=
  let* d := Py.index_nat t i in
  let* d' := Torch.assign_prefix1 d src in
  Ok (<[i:=d']> t).

(** [t[i, :, :src.size(1)] = src] *)
Definition assign_row2 (t : list (Tensor2 A)) (i : nat) (src : Tensor2 A)
  : result (list (Tensor2 A)) :=
  let* d := Py.index_nat t i in
  let* d' := Torch.assign_prefix d src in
  Ok (<[i:=d']> t).

(** The body of the loop of lines 189-209. *)
Definition copy_row (batch : list (@Item A)) (ids_sorted_decreasing : list nat)
    (t : BatchTensors) (i : nat) : result BatchTensors :=
  let* id := Py.index_nat ids_sorted_decreasing i in
  let* row := Py.index_nat batch id in
  let* pp := assign_row1 (phonemes_padded t) i (phonemes row) in
  let* pl := Torch.set_item (phonemes_lengths t) i
               (Z.of_nat (length (phonemes row))) in
  let* sp := assign_row2 (spec_padded t) i (spec row) in
  let* sl := Torch.set_item (spec_lengths t) i (Z.of_nat (size1 (spec row))) in
  let* yp := assign_row2 (ying_padded t) i (ying row) in
  let* yl := Torch.set_item (ying_lengths t) i (Z.of_nat (size1 (ying row))) in
  let* wp := assign_row2 (wav_padded t) i (wav row) in
  let* wl := Torch.set_item (wav_lengths t) i (Z.of_nat (size1 (wav row))) in
  let* dp := assign_row1 (phndur_padded t) i (phn_dur row) in
  Ok (mkBatchTensors pp pl sp sl yp yl wp wl dp).

Fixpoint copy_rows (batch : list (@Item A)) (ids : list nat)
    (t : BatchTensors) (is_ : list nat) : result BatchTensors :=
  match is_ with
  | [] => Ok t
  | i :: rest =>
      let* t' := copy_row batch ids t i in
      copy_rows batch ids t' rest
  end.

(** [__call__], lines 151-215.  The four length vectors are allocated
    uninitialised; they stand as zeros here until the loop writes
    them. *)
Definition __call__ (batch : list (@Item A)) : result BatchTensors :=
  let '(_, ids_sorted_decreasing) :=
    torch_sort_descending (map (fun x => Z.of_nat (size1 (spec x))) batch) in
  let* max_phonemes_len := Py.max_ (map (fun x => length (phonemes x)) batch) in
  let* max_spec_len := Py.max_ (map (fun x => size1 (spec x)) batch) in
  let* max_ying_len := Py.max_ (map (fun x => size1 (ying x)) batch) in
  let* max_wav_len := Py.max_ (map (fun x => size1 (wav x)) batch) in
  let* max_phndur_len := Py.max_ (map (fun x => length (phn_dur x)) batch) in
  let n := length batch in
  let phonemes_lengths := replicate n 0 in
  let spec_lengths := replicate n 0 in
  let ying_lengths := replicate n 0 in
  let wav_lengths := replicate n 0 in
  let phonemes_padded := replicate n (replicate max_phonemes_len 0) in
  let* b0 := Py.index batch 0 in
  let spec_padded :=
    replicate n (Torch.zeros_nat zero (size0 (spec b0)) max_spec_len) in
  let ying_padded :=
    replicate n (Torch.zeros_nat zero (size0 (ying b0)) max_ying_len) in
  let wav_padded := replicate n (Torch.zeros_nat zero 1 max_wav_len) in
  let phndur_padded := replicate n (replicate max_phndur_len 0) in
  copy_rows batch ids_sorted_decreasing
    (mkBatchTensors phonemes_padded phonemes_lengths spec_padded spec_lengths
       ying_padded ying_lengths wav_padded wav_lengths phndur_padded)
    (seq 0 (length ids_sorted_decreasing)).

(** The members of the returned tuple, by tensor type and rank. *)
Inductive TensorValue : Type :=
| LongTensor1 (v : list Z)
| LongTensor2 (v : list (list Z))
| FloatTensor3 (v : list (Tensor2 A)).

(** The tuple of the [return] statement, lines 211-215. *)
Definition return_tuple (t : BatchTensors) : list TensorValue :=
  [ LongTensor2 (phonemes_padded t); LongTensor1 (phonemes_lengths t);
    FloatTensor3 (spec_padded t); LongTensor1 (spec_lengths t);
    FloatTensor3 (ying_padded t); LongTensor1 (ying_lengths t);
    FloatTensor3 (wav_padded t); LongTensor1 (wav_lengths t);
    LongTensor2 (phndur_padded t) ].

(** The length vectors among the members of the tuple. *)
Definition length_vectors (l : list TensorValue) : list (list Z) :=
  omap (fun v => match v with LongTensor1 x => Some x | _ => None end) l.
End Collate.

End TextAudioCollate.

(** ** Specification vocabulary *)

(** Bucket [k] of [boundaries] holds length [x]:
    [boundaries[k] < x <= boundaries[k+1]]. *)
Definition in_bucket (boundaries : list Z) (x : Z) (k : Z) : Prop :=
  0 <= k /\
  exists bl bh,
    boundaries !! Z.to_nat k = Some bl /\
    boundaries !! S (Z.to_nat k) = Some bh /\
    bl < x <= bh.


(** The lookup sends length [x] to bucket [k]. *)
Definition goes_to (boundaries : list Z) (x : Z) (k : nat) : bool :=
  match DistributedBucketSampler.bisect boundaries x with
  | Ok r => r =? Z.of_nat k
  | Raise _ => false
  end.

(** The examples of [ls] that the lookup sends to bucket [k], by index,
    [i] being the index of the head of [ls]. *)
Fixpoint members (boundaries : list Z) (i : nat) (ls : list Z) (k : nat)
  : list nat :=
  match ls with
  | [] => []
  | x :: ls' =>
      (if goes_to boundaries x k then [i] else [])
      ++ members boundaries (S i) ls' k
  end.


(** A result that is an exception. *)
Definition raises {A : Type} (r : result A) : Prop := exists e, r = Raise e.

(** [torch.randperm(n)] returns a permutation of [0 .. n-1]. *)
Definition randperm_ok {G : Type} (randperm : nat -> G -> list nat * G) : Prop :=
  forall (n : nat) (g : G), (randperm n g).1 ≡ₚ seq 0 n.






(** A small generator to run the sampler on: the state counts the calls,
    and every other call returns the reversed range. *)
Module GeneratorFixture.
Definition manual_seed (e : Z) : result nat :=
  if (- 2 ^ 63 <=? e) && (e <? 2 ^ 64) then Ok (Z.to_nat (Z.abs e))
  else Raise RuntimeError.
Definition randperm (n : nat) (g : nat) : list nat * nat :=
  (if Nat.even g then seq 0 n else reverse (seq 0 n), S g).
End GeneratorFixture.

(** The scenario of the testable properties: five examples, three
    buckets, two workers, seen from rank 1. *)
Module Scenario.
Definition lengths : list Z := [5; 15; 15; 25; 25].
Definition boundaries : list Z := [0; 10; 20; 30].
Definition sampler : DistributedBucketSampler.Sampler :=
  DistributedBucketSampler.mkSampler lengths 2 boundaries 2 1 true 0
    [[0%nat]; [1%nat; 2%nat]; [3%nat; 4%nat]] [4%nat; 4%nat; 4%nat] 12 6 [].
End Scenario.

(** The test of line 61 on a manifest row, and the row [_filter] stores
    for a row it keeps. *)
Definition keeps (self : TextAudioLoader.Loader) (row : TextAudioLoader.Row)
  : bool :=
  (TextAudioLoader.min_text_len self <=? TextAudioLoader.len row.1.2)
  && (TextAudioLoader.len row.1.2 <=? TextAudioLoader.max_text_len self).

Definition stored (os_path_join : String.string -> String.string -> String.string)
    (self : TextAudioLoader.Loader) (row : TextAudioLoader.Row)
  : TextAudioLoader.Row :=
  (String.append (os_path_join (TextAudioLoader.data_path self) row.1.1)
     ".wav"%string, row.1.2, row.2).

(** The [int64] operations that lines 77-84 perform on the duration sum
    do not overflow: the difference [spec.shape[-1] - sumdur] and its
    absolute value, and the product [sumdur * hop_length]. *)
Definition no_overflow (hop_length : Z) (frames : nat) (phn_dur : list Z)
  : Prop :=
  - 2 ^ 63 < Z.of_nat frames - Py.sum phn_dur < 2 ^ 63 /\
  - 2 ^ 63 <= hop_length < 2 ^ 63 /\
  - 2 ^ 63 <= Py.sum phn_dur * hop_length < 2 ^ 63.

(** [t] with every row cut to its [size1 t] elements and extended with
    zeros to [n] columns. *)
Definition pad_cols {A : Type} (zero : A) (t : Tensor2 A) (n : nat) : Tensor2 A :=
  mkTensor2
    (map (fun r => take (size1 t) r ++ replicate (n - size1 t) zero) (rows t))
    n.

(** A file system and feature collaborators to run the loader on: every
    file has 20480 bytes; a text unit is encoded by its length; [int]
    reads unsigned decimal digits; the features of every file are two
    rows of five frames, one row of five pitch frames and [5 * 4]
    samples. *)
Module LoaderFixture.
Definition os_path_join (a b : String.string) : String.string :=
  String.append a (String.append "/" b).
Definition os_path_getsize (p : String.string) : result Z := Ok 20480.

Definition cleaned_text_to_sequence (l : list String.string)
  : result (list Z) :=
  Ok (map TextAudioLoader.len l).

Fixpoint digits (acc : Z) (s : String.string) : result Z :=
  match s with
  | String.EmptyString => Ok acc
  | String.String c s' =>
      let d := Z.of_nat (Ascii.nat_of_ascii c) - 48 in
      if (0 <=? d) && (d <=? 9) then digits (10 * acc + d) s'
      else Raise ValueError
  end.

Definition int_ (s : String.string) : result Z :=
  match s with
  | String.EmptyString => Raise ValueError
  | _ => digits 0 s
  end.

Definition get_audio (path : String.string) (pt_run : bool)
  : result (Tensor2 Z * Tensor2 Z * Tensor2 Z) :=
  Ok (mkTensor2 [[1; 2; 3; 4; 5]; [6; 7; 8; 9; 10]] 5,
      mkTensor2 [[1; 1; 1; 1; 1]] 5,
      mkTensor2 [map Z.of_nat (seq 0 20)] 20).

Definition loader : TextAudioLoader.Loader :=
  TextAudioLoader.mkLoader
    [ ("a"%string, "AA BB"%string, "2 3"%string);
      ("b"%string, "K"%string, "4"%string);
      ("c"%string, "X Y"%string, "1 1"%string) ]
    [] 4 1 3 "data"%string.
End LoaderFixture.

(** The contract of [torch.sort(keys, descending=True)]: the indices are
    a permutation of the positions of [keys], the values are the keys at
    these indices, and the values do not increase.  (The order of equal
    keys is not part of it: the call does not ask for a stable sort.) *)
Definition sort_ok (torch_sort_descending : list Z -> list Z * list nat) : Prop :=
  forall keys : list Z,
    (torch_sort_descending keys).2 ≡ₚ seq 0 (length keys) /\
    Forall2 (fun (i : nat) (v : Z) => keys !! i = Some v)
      (torch_sort_descending keys).2 (torch_sort_descending keys).1 /\
    Sorted Z.ge (torch_sort_descending keys).1.

(** A sort to run the collator on: a merge sort of the positions by
    descending key. *)
Module SortFixture.
Definition key (keys : list Z) (i : nat) : Z := default 0 (keys !! i).
Definition key_ge (keys : list Z) : relation nat :=
  fun i j => key keys j <= key keys i.
#[global] Instance key_ge_dec (keys : list Z) : RelDecision (key_ge keys) :=
  fun i j => Z_le_dec (key keys j) (key keys i).
Definition torch_sort_descending (keys : list Z) : list Z * list nat :=
  let ids := merge_sort (key_ge keys) (seq 0 (length keys)) in
  (map (key keys) ids, ids).
End SortFixture.

(** A one-dimensional tensor extended with zeros to [n] elements. *)
Definition pad1 (l : list Z) (n : nat) : list Z := l ++ replicate (n - length l) 0.

(** The examples of a batch agree on the number of feature channels, and
    their waveforms have one channel. *)
Definition same_channels {A : Type} (batch : list (@TextAudioLoader.Item A))
  : Prop :=
  forall b0, head batch = Some b0 ->
    Forall (fun x =>
              size0 (TextAudioLoader.spec x) = size0 (TextAudioLoader.spec b0) /\
              size0 (TextAudioLoader.ying x) = size0 (TextAudioLoader.ying b0) /\
              size0 (TextAudioLoader.wav x) = 1%nat) batch.

(** The tensors that hold the examples [xs], row by row, padded to the
    given sizes, with the length vectors of the four fields that have
    one. *)
Definition collated {A : Type} (zero : A) (xs : list (@TextAudioLoader.Item A))
    (mp ms my mw md : nat) : @TextAudioCollate.BatchTensors A :=
  TextAudioCollate.mkBatchTensors
    (map (fun x => pad1 (TextAudioLoader.phonemes x) mp) xs)
    (map (fun x => Z.of_nat (length (TextAudioLoader.phonemes x))) xs)
    (map (fun x => pad_cols zero (TextAudioLoader.spec x) ms) xs)
    (map (fun x => Z.of_nat (size1 (TextAudioLoader.spec x))) xs)
    (map (fun x => pad_cols zero (TextAudioLoader.ying x) my) xs)
    (map (fun x => Z.of_nat (size1 (TextAudioLoader.ying x))) xs)
    (map (fun x => pad_cols zero (TextAudioLoader.wav x) mw) xs)
    (map (fun x => Z.of_nat (size1 (TextAudioLoader.wav x))) xs)
    (map (fun x => pad1 (TextAudioLoader.phn_dur x) md) xs).

(** The tensors of the collator after the examples [xs] have been copied,
    [m] rows being still zero; [r_spec] and [r_ying] are the channel
    counts of the feature containers. *)
Definition partial {A : Type} (zero : A) (mp ms my mw md r_spec r_ying : nat)
    (xs : list (@TextAudioLoader.Item A)) (m : nat)
  : @TextAudioCollate.BatchTensors A :=
  let t := collated zero xs mp ms my mw md in
  TextAudioCollate.mkBatchTensors
    (TextAudioCollate.phonemes_padded t ++ replicate m (replicate mp 0))
    (TextAudioCollate.phonemes_lengths t ++ replicate m 0)
    (TextAudioCollate.spec_padded t ++ replicate m (Torch.zeros_nat zero r_spec ms))
    (TextAudioCollate.spec_lengths t ++ replicate m 0)
    (TextAudioCollate.ying_padded t ++ replicate m (Torch.zeros_nat zero r_ying my))
    (TextAudioCollate.ying_lengths t ++ replicate m 0)
    (TextAudioCollate.wav_padded t ++ replicate m (Torch.zeros_nat zero 1 mw))
    (TextAudioCollate.wav_lengths t ++ replicate m 0)
    (TextAudioCollate.phndur_padded t ++ replicate m (replicate md 0)).

(** An example that fits containers of the given sizes. *)
Definition fits {A : Type} (mp ms my mw md r_spec r_ying : nat)
    (x : @TextAudioLoader.Item A) : Prop :=
  (length (TextAudioLoader.phonemes x) <= mp)%nat /\
  (size1 (TextAudioLoader.spec x) <= ms)%nat /\
  (size1 (TextAudioLoader.ying x) <= my)%nat /\
  (size1 (TextAudioLoader.wav x) <= mw)%nat /\
  (length (TextAudioLoader.phn_dur x) <= md)%nat /\
  size0 (TextAudioLoader.spec x) = r_spec /\
  size0 (TextAudioLoader.ying x) = r_ying /\
  size0 (TextAudioLoader.wav x) = 1%nat.

(** A batch of two examples: the first has five text units and three
    frames, the second three text units and six frames (hop length 4). *)
Module CollateFixture.
Definition first : @TextAudioLoader.Item Z :=
  TextAudioLoader.mkItem [1; 2; 3; 4; 5]
    (mkTensor2 [[1; 2; 3]; [4; 5; 6]] 3)
    (mkTensor2 [[7; 7; 7]] 3)
    (mkTensor2 [map Z.of_nat (seq 0 12)] 12)
    [1; 0; 1; 0; 1].
Definition second : @TextAudioLoader.Item Z :=
  TextAudioLoader.mkItem [7; 8; 9]
    (mkTensor2 [[1; 2; 3; 4; 5; 6]; [6; 5; 4; 3; 2; 1]] 6)
    (mkTensor2 [[8; 8; 8; 8; 8; 8]] 6)
    (mkTensor2 [map Z.of_nat (seq 0 24)] 24)
    [2; 2; 2].
Definition batch : list (@TextAudioLoader.Item Z) := [first; second].
End CollateFixture.

(** ** Vocabulary of the further properties *)

(** The test of line 256, negated: the bucket survives the pruning. *)
Definition survives (b : list nat) : bool := negb (length b =? 0)%nat.

(** The boundaries that are left when the upper boundary of every empty
    bucket is removed: the first boundary and the upper boundaries of the
    surviving buckets. *)
Definition pruned_boundaries (buckets : list (list nat)) (boundaries : list Z)
  : list Z :=
  match boundaries with
  | [] => []
  | b0 :: uppers =>
      b0 :: map snd (List.filter (fun p => survives p.1) (zip buckets uppers))
  end.

(** The local index lists of lines 274-281, drawn from the seeded
    generator [g]: one permutation per bucket, or the identity orders
    without shuffling.  The rank plays no part in them. *)
Definition epoch_indices {G : Type} (randperm : nat -> G -> list nat * G)
    (s : DistributedBucketSampler.Sampler) (g : G) : list (list nat) :=
  (if DistributedBucketSampler.shuffle s
   then DistributedBucketSampler.shuffled_indices G randperm
          (DistributedBucketSampler.buckets s) g
   else (map (fun bucket => seq 0 (length bucket))
           (DistributedBucketSampler.buckets s), g)).1.

(** The loader as [__init__] has it when it calls [_filter], over the
    rows [rows]. *)
Definition initial_loader (rows : list TextAudioLoader.Row)
    (hparams : TextAudioLoader.HParams) : TextAudioLoader.Loader :=
  TextAudioLoader.mkLoader rows [] (TextAudioLoader.hp_hop_length hparams)
    (default 1 (TextAudioLoader.hp_min_text_len hparams))
    (default 190 (TextAudioLoader.hp_max_text_len hparams))
    (TextAudioLoader.hp_data_path hparams).

(** A file system in which the file of the first row of the manifest of
    [LoaderFixture] is missing. *)
Definition getsize_without_a (p : String.string) : result Z :=
  if String.eqb p "data/a.wav" then Raise OSError else Ok 20480.

(** The length [_filter] stores for a stored row: the size of its file,
    floor-divided by [2 * hop_length]. *)
Definition sized (os_path_getsize : String.string -> result Z)
    (self : TextAudioLoader.Loader) (row : TextAudioLoader.Row) (l : Z) : Prop :=
  exists size, os_path_getsize row.1.1 = Ok size /\
               TextAudioLoader.hop_length self <> 0 /\
               l = size / (2 * TextAudioLoader.hop_length self).

(** What a slice assignment copies from a tensor into a target of [r]
    rows: the tensor itself when it has [r] rows, its first row [r] times
    otherwise (broadcasting of a tensor of one row). *)
Definition broadcast_channels {A : Type} (r : nat) (t : Tensor2 A) : Tensor2 A :=
  if (size0 t =? r)%nat then t
  else mkTensor2 (replicate r (hd [] (rows t))) (size1 t).

Definition broadcast_item {A : Type} (r_spec r_ying : nat)
    (x : @TextAudioLoader.Item A) : @TextAudioLoader.Item A :=
  TextAudioLoader.mkItem (TextAudioLoader.phonemes x)
    (broadcast_channels r_spec (TextAudioLoader.spec x))
    (broadcast_channels r_ying (TextAudioLoader.ying x))
    (TextAudioLoader.wav x) (TextAudioLoader.phn_dur x).

(** The features of an example can be assigned to containers of [r_spec]
    and [r_ying] channels and to a waveform container of one channel. *)
Definition channels_fit {A : Type} (r_spec r_ying : nat)
    (x : @TextAudioLoader.Item A) : bool :=
  ((size0 (TextAudioLoader.spec x) =? r_spec)%nat
   || (size0 (TextAudioLoader.spec x) =? 1)%nat)
  && ((size0 (TextAudioLoader.ying x) =? r_ying)%nat
      || (size0 (TextAudioLoader.ying x) =? 1)%nat)
  && (size0 (TextAudioLoader.wav x) =? 1)%nat.

(** An example as [get_audio_text_pair] returns it: rectangular tensors
    and as many duration annotations as text units (line 90). *)
Definition item_wf {A : Type} (x : @TextAudioLoader.Item A) : Prop :=
  tensor_wf (TextAudioLoader.spec x) /\ tensor_wf (TextAudioLoader.ying x) /\
  tensor_wf (TextAudioLoader.wav x) /\
  length (TextAudioLoader.phonemes x) = length (TextAudioLoader.phn_dur x).

(** Row [j] of the output of the collator cut back to the recorded
    lengths; the duration annotations, which have no length vector, are
    cut to the length of the text units. *)
Definition unpadded {A : Type} (out : @TextAudioCollate.BatchTensors A) (j : nat)
  : option (@TextAudioLoader.Item A) :=
  match TextAudioCollate.phonemes_padded out !! j,
        TextAudioCollate.phonemes_lengths out !! j,
        TextAudioCollate.spec_padded out !! j,
        TextAudioCollate.spec_lengths out !! j,
        TextAudioCollate.ying_padded out !! j,
        TextAudioCollate.ying_lengths out !! j,
        TextAudioCollate.wav_padded out !! j,
        TextAudioCollate.wav_lengths out !! j,
        TextAudioCollate.phndur_padded out !! j with
  | Some pp, Some pl, Some sp, Some sl, Some yp, Some yl, Some wp, Some wl,
    Some dp =>
      Some (TextAudioLoader.mkItem (Py.slice_to pp pl) (Torch.slice_cols sp sl)
              (Torch.slice_cols yp yl) (Torch.slice_cols wp wl)
              (Py.slice_to dp pl))
  | _, _, _, _, _, _, _, _, _ => None
  end.

(** An example with one feature channel, to put in a batch beside
    [CollateFixture.second], which has two. *)
Definition mono_example : @TextAudioLoader.Item Z :=
  TextAudioLoader.mkItem [4; 5]
    (mkTensor2 [[9; 9; 9]] 3)
    (mkTensor2 [[7; 7; 7]] 3)
    (mkTensor2 [map Z.of_nat (seq 0 12)] 12)
    [1; 2].

(** An example with three feature channels. *)
Definition three_channel_example : @TextAudioLoader.Item Z :=
  TextAudioLoader.mkItem [4; 5]
    (mkTensor2 [[1; 1; 1]; [2; 2; 2]; [3; 3; 3]] 3)
    (mkTensor2 [[7; 7; 7]] 3)
    (mkTensor2 [map Z.of_nat (seq 0 12)] 12)
    [1; 2].

(** The contract of the file system: a tensor that was saved exists and
    loads back, and saving it leaves every other file as it was. *)
Definition fs_ok {T FS : Type}
    (load_wav_to_torch : FS -> String.string -> result (T * Z))
    (os_path_exists : FS -> String.string -> bool)
    (torch_load : FS -> String.string -> result T)
    (torch_save : FS -> String.string -> T -> result FS) : Prop :=
  forall fs name t fs',
    torch_save fs name t = Ok fs' ->
    os_path_exists fs' name = true /\
    torch_load fs' name = Ok t /\
    forall name', name' <> name ->
      os_path_exists fs' name' = os_path_exists fs name' /\
      torch_load fs' name' = torch_load fs name' /\
      load_wav_to_torch fs' name' = load_wav_to_torch fs name'.

(** The three names [get_audio] works with are different files. *)
Definition own_caches (filename : String.string) : Prop :=
  TextAudioLoader.spec_filename filename <> filename /\
  TextAudioLoader.ying_filename filename <> filename /\
  TextAudioLoader.spec_filename filename <> TextAudioLoader.ying_filename filename.

(** A file system to run [get_audio] and [create_spec] on: the saved
    tensors by name, the last one saved first; every wav file holds the
    same eight samples at 22050 Hz, except one that is missing.  A tensor
    is the list of its elements. *)
Module AudioFixture.
Definition T : Type := list Z.
Definition FS : Type := list (String.string * T).

Fixpoint find (fs : FS) (name : String.string) : option T :=
  match fs with
  | [] => None
  | (n, t) :: rest => if String.eqb n name then Some t else find rest name
  end.

Definition load_wav_to_torch (fs : FS) (name : String.string)
  : result (T * Z) :=
  if String.eqb name "data/missing.wav" then Raise OSError
  else Ok ([1; 2; 3; 4; 5; 6; 7; 8], 22050).

Definition os_path_exists (fs : FS) (name : String.string) : bool :=
  match find fs name with Some _ => true | None => false end.

Definition torch_load (fs : FS) (name : String.string) : result T :=
  match find fs name with Some t => Ok t | None => Raise OSError end.

Definition torch_save (fs : FS) (name : String.string) (t : T) : result FS :=
  Ok ((name, t) :: fs).

Definition spectrogram_torch (y : T) (n_fft sampling_rate hop_size win_size : Z)
  : result T :=
  Ok (map (Z.mul 2) y).

Definition unsqueeze0 (t : T) : T := t.
Definition squeeze0 (t : T) : T := t.
Definition shape1 (t : T) : Z := Z.of_nat (length t).

Definition pad (t : T) (pad_left pad_right : Z) : result T :=
  Ok (replicate (Z.to_nat pad_left) 0 ++ t ++ replicate (Z.to_nat pad_right) 0).

Definition yingram (t : T) : result T := Ok [Z.of_nat (length t)].

Definition hparams : TextAudioLoader.HParams :=
  TextAudioLoader.mkHParams 22050 16 4 16 (Some 1) (Some 3) "data".
End AudioFixture.
(** * Proofs *)

(** ** The error monad *)

Lemma bind_Ok_inv {A B : Type} (m : result A) (k : A -> result B) (b : B) :
  bind m k = Ok b -> exists a, m = Ok a /\ k a = Ok b.
Proof. destruct m as [a|e]; simpl; [eauto | discriminate]. Qed.

Ltac inv_bind H :=
  let a := fresh "a" in
  let Ha := fresh "Ha" in
  apply bind_Ok_inv in H; destruct H as (a & Ha & H).

(** ** Bucket lookup *)

Section Bisect.
Import DistributedBucketSampler.

Lemma Sorted_lookup_le (b : list Z) (i j : nat) (bi bj : Z) :
  Sorted Z.le b -> (i <= j)%nat ->
  b !! i = Some bi -> b !! j = Some bj -> bi <= bj.
Proof.
  intros Hs. apply Sorted_StronglySorted in Hs; [|intros ???; lia].
  revert i j. induction Hs as [|a l Hs IH Hall]; intros i j Hij Hi Hj.
  - rewrite lookup_nil in Hi. discriminate.
  - destruct i as [|i], j as [|j]; simplify_eq/=; try lia.
    + rewrite Forall_forall in Hall.
      apply Hall. eapply list_elem_of_lookup_2; eauto.
    + apply (IH i j); auto with lia.
Qed.

Lemma index_in_range {A : Type} (l : list A) (i : Z) :
  0 <= i < Z.of_nat (length l) ->
  exists a, Py.index l i = Ok a /\ l !! Z.to_nat i = Some a.
Proof.
  intros H. unfold Py.index, Py.norm_index.
  destruct (Z.ltb_spec i 0); [lia|].
  destruct (Z.leb_spec 0 i); [|lia].
  destruct (Z.ltb_spec i (Z.of_nat (length l))); [|lia]. simpl.
  destruct (l !! Z.to_nat i) eqn:E; eauto.
  apply lookup_ge_None in E. lia.
Qed.

Lemma in_bucket_unique (b : list Z) (x k k' : Z) :
  Sorted Z.le b -> in_bucket b x k -> in_bucket b x k' -> k = k'.
Proof.
  intros Hs (Hk & bl & bh & Hl & Hh & Hx) (Hk' & bl' & bh' & Hl' & Hh' & Hx').
  destruct (Z.lt_trichotomy k k') as [Hlt|[->|Hlt]]; [|reflexivity|].
  - pose proof (Sorted_lookup_le b (S (Z.to_nat k)) (Z.to_nat k') bh bl' Hs
                  ltac:(lia) Hh Hl'). lia.
  - pose proof (Sorted_lookup_le b (S (Z.to_nat k')) (Z.to_nat k) bh' bl Hs
                  ltac:(lia) Hh' Hl). lia.
Qed.

(** The search on [lo, hi) returns the bucket of [x] in that range, or
    [-1] when the range holds none; it reads no position outside the
    list. *)
Lemma _bisect_spec (b : list Z) (x lo hi : Z) :
  Sorted Z.le b -> 0 <= lo -> hi <= Z.of_nat (length b) - 1 ->
  exists r, _bisect b x lo hi = Ok r /\
    ((r = -1 /\ forall k, lo <= k < hi -> ~ in_bucket b x k) \/
     (lo <= r < hi /\ in_bucket b x r)).
Proof.
  intros Hs. funelim (_bisect b x lo hi); intros Hlo Hhi.
  all: match type of Hs with Sorted _ ?l => rename l into bs end.
  all: try (pose proof (Z.div_mod (hi + lo) 2 ltac:(lia)) as Hdm;
            pose proof (Z.mod_pos_bound (hi + lo) 2 ltac:(lia)) as Hmb).
  all: repeat match goal with
         | E : (_ <? _) = true |- _ => apply Z.ltb_lt in E
         | E : (_ <? _) = false |- _ => apply Z.ltb_ge in E
         | E : (_ <=? _) = true |- _ => apply Z.leb_le in E
         | E : (_ <=? _) = false |- _ => apply Z.leb_gt in E
         end.
  all: set (mid := (hi + lo) / 2) in *.
  all: try (destruct (index_in_range bs mid ltac:(lia)) as (vm & Evm & Lvm)).
  all: try (destruct (index_in_range bs (mid + 1) ltac:(lia))
             as (vm1 & Evm1 & Lvm1);
            replace (Z.to_nat (mid + 1)) with (S (Z.to_nat mid)) in Lvm1 by lia).
  - exists (-1). split; [reflexivity|]. left. split; [reflexivity|]. intros; lia.
  - congruence.
  - congruence.
  - (* found *)
    exists mid. split; [reflexivity|]. right. split; [lia|].
    split; [lia|]. exists bm, bm1.
    assert (vm = bm) by congruence. assert (vm1 = bm1) by congruence. subst.
    auto.
  - (* unreachable: bm < x and x <= bm *)
    lia.
  - (* right half, after reading boundaries[mid + 1] *)
    assert (vm = bm) by congruence. assert (vm1 = bm1) by congruence. subst.
    match goal with
    | IH : Sorted _ _ -> _ |- _ => destruct (IH Hs ltac:(lia) Hhi) as (r & Er & Hr)
    end.
    exists r. split; [exact Er|].
    destruct Hr as [[-> Hno]|[Hr Hin]]; [left|right; split; [lia|exact Hin]].
    split; [reflexivity|]. intros k Hk Hin.
    destruct (Z_lt_dec mid k) as [Hmk|Hmk]; [apply (Hno k); [lia|exact Hin]|].
    destruct Hin as (Hk0 & bl & bh & Hl & Hh & Hx).
    pose proof (Sorted_lookup_le bs (S (Z.to_nat k)) (S (Z.to_nat mid))
                  bh bm1 Hs ltac:(lia) Hh Lvm1). lia.
  - (* left half *)
    assert (vm = bm) by congruence. subst.
    match goal with
    | IH : Sorted _ _ -> _ |- _ => destruct (IH Hs Hlo ltac:(lia)) as (r & Er & Hr)
    end.
    exists r. split; [exact Er|].
    destruct Hr as [[-> Hno]|[Hr Hin]]; [left|right; split; [lia|exact Hin]].
    split; [reflexivity|]. intros k Hk Hin.
    destruct (Z_lt_dec k mid) as [Hmk|Hmk]; [apply (Hno k); [lia|exact Hin]|].
    destruct Hin as (Hk0 & bl & bh & Hl & Hh & Hx).
    pose proof (Sorted_lookup_le bs (Z.to_nat mid) (Z.to_nat k)
                  bm bl Hs ltac:(lia) Lvm Hl). lia.
  - (* unreachable: neither bm < x nor x <= bm *)
    lia.
Qed.

Lemma in_bucket_exists (b : list Z) (x b0 bl : Z) :
  head b = Some b0 -> last b = Some bl -> b0 < x <= bl ->
  exists k, in_bucket b x k.
Proof.
  revert b0. induction b as [|a rest IH]; intros b0 Hh Hl Hx; [discriminate|].
  simpl in Hh. inversion Hh; subst a; clear Hh.
  destruct rest as [|b1 rest'].
  - simpl in Hl. inversion Hl; subst. lia.
  - destruct (Z_le_dec x b1) as [Hle|Hgt].
    + exists 0. split; [lia|]. exists b0, b1. simpl. auto with lia.
    + destruct (IH b1 eq_refl Hl ltac:(lia)) as (k & Hk & lo & hi & L1 & L2 & Hlohi).
      exists (k + 1). split; [lia|]. exists lo, hi.
      replace (Z.to_nat (k + 1)) with (S (Z.to_nat k)) by lia.
      simpl. auto.
Qed.

Lemma in_bucket_inside (b : list Z) (x k b0 bl : Z) :
  Sorted Z.le b -> head b = Some b0 -> last b = Some bl ->
  in_bucket b x k -> b0 < x <= bl.
Proof.
  intros Hs Hh Hl (Hk & lo & hi & L1 & L2 & Hx).
  rewrite head_lookup in Hh. rewrite last_lookup in Hl.
  pose proof (lookup_lt_Some _ _ _ L2) as Hlen.
  pose proof (Sorted_lookup_le b 0 (Z.to_nat k) b0 lo Hs ltac:(lia) Hh L1).
  pose proof (Sorted_lookup_le b (S (Z.to_nat k)) (pred (length b)) hi bl Hs
                ltac:(lia) L2 Hl).
  lia.
Qed.

Lemma bisect_spec (b : list Z) (x : Z) :
  Sorted Z.le b ->
  exists r, bisect b x = Ok r /\
    ((r = -1 /\ forall k, ~ in_bucket b x k) \/ in_bucket b x r).
Proof.
  intros Hs. unfold bisect.
  destruct (_bisect_spec b x 0 (Z.of_nat (length b) - 1) Hs ltac:(lia) ltac:(lia))
    as (r & Er & Hr).
  exists r. split; [exact Er|].
  destruct Hr as [[-> Hno]|[_ Hin]]; [left|right; exact Hin].
  split; [reflexivity|]. intros k Hin. apply (Hno k); [|exact Hin].
  destruct Hin as (Hk & lo & hi & L1 & L2 & _).
  apply lookup_lt_Some in L2. lia.
Qed.

End Bisect.

(** ** Bucket assignment *)

Section Assignment.
Import DistributedBucketSampler.

Lemma goes_to_in_bucket (bd : list Z) (x : Z) (k : nat) :
Sorted Z.le bd -> goes_to bd x k = true <-> in_bucket bd x (Z.of_nat k).
Proof.
intros Hs. unfold goes_to.
destruct (bisect_spec bd x Hs) as (r & Er & Hr). rewrite Er.
destruct Hr as [[-> Hno]|Hin].
- split; [intros H; apply Z.eqb_eq in H; lia|].
  intros Hin. destruct (Hno _ Hin).
- split.
  + intros H. apply Z.eqb_eq in H. subst r. exact Hin.
  + intros Hin'. apply Z.eqb_eq. eapply in_bucket_unique; eauto.
Qed.

(** The fill loop appends to every bucket the examples the lookup sends
  to it, in index order, and raises nothing. *)
Lemma fill_buckets_spec (bd : list Z) (ls : list Z) :
Sorted Z.le bd ->
forall (i0 : nat) (bk0 : list (list nat)),
  length bk0 = Z.to_nat (Z.of_nat (length bd) - 1) ->
  exists bk,
    fill_buckets bd i0 ls bk0 = Ok bk /\
    length bk = length bk0 /\
    forall k, bk !! k = (fun b => b ++ members bd i0 ls k) <$> bk0 !! k.
Proof.
intros Hs. induction ls as [|x ls IH]; intros i0 bk0 Hlen; simpl.
- exists bk0. split; [reflexivity|]. split; [reflexivity|].
  intros k. destruct (bk0 !! k); simpl; [rewrite app_nil_r|]; reflexivity.
- destruct (bisect_spec bd x Hs) as (r & Er & Hr). rewrite Er. simpl.
  destruct Hr as [[-> Hno]|Hin].
  + simpl. destruct (IH (S i0) bk0 Hlen) as (bk & Ebk & Hl & Hk).
    exists bk. split; [exact Ebk|]. split; [exact Hl|].
    intros k. rewrite Hk. unfold goes_to. rewrite Er.
    destruct (Z.eqb_spec (-1) (Z.of_nat k)); [lia|reflexivity].
  + pose proof Hin as (Hr0 & lo & hi & _ & Hhi & _).
    apply lookup_lt_Some in Hhi.
    destruct (Z.eqb_spec r (-1)) as [?|_]; [lia|].
    unfold bucket_append, Py.norm_index.
    destruct (Z.ltb_spec r 0); [lia|].
    destruct (Z.leb_spec 0 r); [|lia].
    destruct (Z.ltb_spec r (Z.of_nat (length bk0))); [|lia]. simpl.
    destruct (IH (S i0) (alter (fun b => b ++ [i0]) (Z.to_nat r) bk0))
      as (bk & Ebk & Hl & Hk).
    { rewrite length_alter. exact Hlen. }
    exists bk. split; [exact Ebk|].
    split; [rewrite Hl; apply length_alter|].
    intros k. rewrite Hk. unfold goes_to. rewrite Er.
    destruct (Z.eqb_spec r (Z.of_nat k)) as [->|Hne].
    * rewrite Nat2Z.id, list_lookup_alter_eq.
      destruct (bk0 !! k); simpl; [rewrite <- app_assoc|]; reflexivity.
    * rewrite list_lookup_alter_ne by lia. reflexivity.
Qed.

Lemma members_elem_of (bd : list Z) (ls : list Z) (k : nat) :
forall (i0 j : nat),
  j ∈ members bd i0 ls k <->
  exists x, (i0 <= j)%nat /\ ls !! (j - i0)%nat = Some x /\
            goes_to bd x k = true.
Proof.
induction ls as [|x ls IH]; intros i0 j; simpl.
- split; [intros H; apply elem_of_nil in H; destruct H|].
  intros (y & _ & H & _). rewrite lookup_nil in H. discriminate.
- rewrite elem_of_app, IH. split.
  + intros [H|(y & Hle & Hy & Hg)].
    * destruct (goes_to bd x k) eqn:E; [|apply elem_of_nil in H; destruct H].
      apply list_elem_of_singleton in H. subst j.
      exists x. rewrite Nat.sub_diag. auto.
    * exists y. split; [lia|]. split; [|exact Hg].
      replace (j - i0)%nat with (S (j - S i0)) by lia. exact Hy.
  + intros (y & Hle & Hy & Hg).
    destruct (Nat.eq_dec j i0) as [->|Hne].
    * rewrite Nat.sub_diag in Hy. simpl in Hy. inversion Hy; subst y.
      left. rewrite Hg. apply list_elem_of_here.
    * right. exists y. split; [lia|]. split; [|exact Hg].
      replace (j - i0)%nat with (S (j - S i0)) in Hy by lia. exact Hy.
Qed.

(** Before pruning, bucket [k] holds the examples the lookup sends to
  [k]. *)
Lemma fill_buckets_members (bd : list Z) (ls : list Z) :
Sorted Z.le bd ->
let n := Z.to_nat (Z.of_nat (length bd) - 1) in
fill_buckets bd 0 ls (replicate n []) = Ok (map (members bd 0 ls) (seq 0 n)).
Proof.
intros Hs n.
destruct (fill_buckets_spec bd ls Hs 0 (replicate n []))
  as (bk & Ebk & Hl & Hk); [apply length_replicate|].
rewrite Ebk. f_equal. apply list_eq. intros k.
rewrite Hk, list_lookup_fmap.
destruct (Nat.lt_ge_cases k n) as [Hlt|Hge].
- rewrite lookup_replicate_2, lookup_seq_lt by lia. reflexivity.
- rewrite (proj2 (lookup_ge_None _ _)) by (rewrite length_replicate; lia).
  rewrite (proj2 (lookup_ge_None _ _)) by (rewrite length_seq; lia).
  reflexivity.
Qed.
End Assignment.

(** C3.  On an ascending list of boundaries the bucket lookup is total and
    exclusive: it raises nothing; it returns [k] whenever
    [boundaries[k] < x <= boundaries[k+1]], and such a [k] is unique; it
    returns the marker [-1] whenever no bucket holds [x], which on a
    non-empty list is exactly when [x <= boundaries[0]] or
    [x > boundaries[-1]].  The fill loop of [_create_buckets] therefore
    puts example [i] into bucket [k] exactly when
    [boundaries[k] < lengths[i] <= boundaries[k+1]], and into no bucket
    when there is no such [k]. *)
Theorem bisect_total_exclusive (boundaries : list Z) (x : Z) :
  Sorted Z.le boundaries ->
  (forall k, in_bucket boundaries x k ->
             DistributedBucketSampler.bisect boundaries x = Ok k) /\
  (forall k k', in_bucket boundaries x k -> in_bucket boundaries x k' -> k = k') /\
  ((forall k, ~ in_bucket boundaries x k) ->
   DistributedBucketSampler.bisect boundaries x = Ok (-1)) /\
  (forall r, DistributedBucketSampler.bisect boundaries x = Ok r ->
             r = -1 \/ in_bucket boundaries x r) /\
  (exists r, DistributedBucketSampler.bisect boundaries x = Ok r) /\
  (forall b0 bl, head boundaries = Some b0 -> last boundaries = Some bl ->
     (DistributedBucketSampler.bisect boundaries x = Ok (-1) <->
      x <= b0 \/ bl < x)) /\
  (forall ls : list Z,
     let n := Z.to_nat (Z.of_nat (length boundaries) - 1) in
     DistributedBucketSampler.fill_buckets boundaries 0 ls (replicate n [])
     = Ok (map (members boundaries 0 ls) (seq 0 n)) /\
     forall (i : nat) (y : Z) (k : nat),
       ls !! i = Some y ->
       (i ∈ members boundaries 0 ls k <-> in_bucket boundaries y (Z.of_nat k))).
Proof.
  intros Hs.
  destruct (bisect_spec boundaries x Hs) as (r & Er & Hr).
  split; [|split; [|split; [|split; [|split; [|split]]]]].
  - intros k Hin. rewrite Er. f_equal.
    destruct Hr as [[_ Hno]|Hin']; [destruct (Hno k Hin)|].
    eapply in_bucket_unique; eauto.
  - intros k k'. apply in_bucket_unique; assumption.
  - intros Hno. rewrite Er. f_equal.
    destruct Hr as [[-> _]|Hin]; [reflexivity|destruct (Hno r Hin)].
  - intros r' Er'. rewrite Er in Er'. inversion Er'; subst r'.
    destruct Hr as [[-> _]|Hin]; auto.
  - eauto.
  - intros b0 bl Hh Hl. split.
    + intros Em1. rewrite Er in Em1. inversion Em1; subst r.
      destruct Hr as [[_ Hno]|[Hneg _]]; [|lia].
      destruct (Z_le_dec x b0); [auto|]. destruct (Z_lt_dec bl x); [auto|].
      destruct (in_bucket_exists boundaries x b0 bl) as (k & Hk); auto with lia.
      destruct (Hno k Hk).
    + intros Hout. rewrite Er. f_equal.
      destruct Hr as [[-> _]|Hin]; [reflexivity|].
      pose proof (in_bucket_inside boundaries x r b0 bl Hs Hh Hl Hin). lia.
  - intros ls n. split; [apply fill_buckets_members; exact Hs|].
    intros i y k Hy. rewrite members_elem_of. split.
    + intros (y' & _ & Hy' & Hg). rewrite Nat.sub_0_r, Hy in Hy'.
      inversion Hy'; subst y'. apply goes_to_in_bucket; assumption.
    + intros Hin. exists y. rewrite Nat.sub_0_r.
      split; [lia|]. split; [exact Hy|]. apply goes_to_in_bucket; assumption.
Qed.

(** The lookup at the edges of the scenario of the class docstring. *)
Lemma bisect_total_exclusive_witness :
  Sorted Z.le [0; 10; 20; 30] /\
  DistributedBucketSampler.bisect [0; 10; 20; 30] 10 = Ok 0 /\
  DistributedBucketSampler.bisect [0; 10; 20; 30] 11 = Ok 1 /\
  (DistributedBucketSampler.bisect [0; 10; 20; 30] 31 = Ok (-1) <->
   31 <= 0 \/ 30 < 31).
Proof.
  assert (Hs : Sorted Z.le [0; 10; 20; 30]).
  { repeat (constructor; try lia). }
  pose proof (bisect_total_exclusive [0; 10; 20; 30] 10 Hs) as (H10 & _).
  pose proof (bisect_total_exclusive [0; 10; 20; 30] 11 Hs) as (H11 & _).
  pose proof (bisect_total_exclusive [0; 10; 20; 30] 31 Hs)
    as (_ & _ & _ & _ & _ & H31 & _).
  split; [exact Hs|]. split; [|split].
  - apply H10. split; [lia|]. exists 0, 10. simpl. repeat split; lia.
  - apply H11. split; [lia|]. exists 10, 20. simpl. repeat split; lia.
  - apply (H31 0 30); reflexivity.
Defined.

(** ** Lists built by loops *)

Section MapM.
Context {A B : Type}.

Lemma mapM_Ok_Forall2 (f : A -> result B) (l : list A) (ys : list B) :
  mapM f l = Ok ys <-> Forall2 (fun x y => f x = Ok y) l ys.
Proof.
  revert ys. induction l as [|x l IH]; intros ys; simpl.
  - split.
    + intros H. inversion H. constructor.
    + intros H. inversion H. reflexivity.
  - split.
    + intros H. inv_bind H. inv_bind H. inversion H; subst.
      constructor; [assumption|]. apply IH. assumption.
    + intros H. inversion H as [|? y ? ys' Hx Hl]; subst.
      rewrite Hx. simpl. apply IH in Hl. rewrite Hl. reflexivity.
Qed.

Lemma mapM_pure (g : A -> B) (f : A -> result B) (l : list A) :
  Forall (fun x => f x = Ok (g x)) l -> mapM f l = Ok (map g l).
Proof.
  induction 1 as [|x l Hx _ IH]; simpl; [reflexivity|].
  rewrite Hx. simpl. rewrite IH. reflexivity.
Qed.
End MapM.


(** ** Strided slices *)

Section Stride.
Context {A : Type}.
Implicit Types l : list A.




End Stride.

(** ** Padding, shares and batches of one bucket *)

Section Bucket.
Import DistributedBucketSampler.

Lemma mapM_total {A B : Type} (P : B -> Prop) (f : A -> result B) (l : list A) :
  Forall (fun x => exists y, f x = Ok y /\ P y) l ->
  exists ys, mapM f l = Ok ys /\ Forall P ys /\ length ys = length l.
Proof.
  induction 1 as [|x l (y & Hy & Py) _ (ys & Hys & Pys & Hlen)]; simpl.
  - exists []. auto.
  - exists (y :: ys). rewrite Hy. simpl. rewrite Hys. simpl.
    repeat split; [constructor; assumption | lia].
Qed.

(** Step 3 of the construction: the padded size is the least multiple of
    [num_replicas * batch_size] that is at least the bucket size. *)
Lemma padded_size_spec (w bs len : nat) :
  (1 <= w)%nat -> (1 <= bs)%nat ->
  exists k, padded_size w bs len = Ok (w * bs * k)%nat /\
            (len <= w * bs * k < len + w * bs)%nat.
Proof.
  intros Hw Hbs. unfold padded_size, Py.mod_.
  set (T := (w * bs)%nat). assert (HT : (1 <= T)%nat) by (unfold T; nia).
  destruct (Nat.eqb_spec T 0) as [?|_]; [lia|]. simpl.
  pose proof (Nat.div_mod_eq len T) as Hdm.
  pose proof (Nat.mod_upper_bound len T ltac:(lia)) as Hub.
  destruct (Nat.eq_dec (len mod T) 0) as [Hz|Hnz].
  - exists (len / T)%nat. rewrite Hz, Nat.sub_0_r, Nat.Div0.mod_same.
    split; [f_equal; lia | lia].
  - exists (len / T + 1)%nat. rewrite (Nat.mod_small (T - len mod T) T) by lia.
    split; [f_equal; lia | lia].
Qed.

Lemma length_repeat_list {A : Type} (l : list A) (k : nat) :
  length (Py.repeat_list l k) = (k * length l)%nat.
Proof. induction k as [|k IH]; simpl; [reflexivity|]. rewrite length_app, IH. lia. Qed.



(** Step 3 of [__iter__]: cyclic repetition up to the padded size. *)
Lemma extend_ids_spec (ids : list nat) (len rem : nat) :
  (1 <= len)%nat -> length ids = len ->
  exists padded,
    extend_ids ids len (Z.of_nat rem) = Ok padded /\
    padded = ids ++ Py.repeat_list ids (rem / len) ++ take (rem mod len) ids /\
    length padded = (len + rem)%nat.
Proof.
  intros Hlen Hids. unfold extend_ids, Py.floordivZ, Py.modZ.
  destruct (Z.eqb_spec (Z.of_nat len) 0) as [?|_]; [lia|]. simpl.
  eexists. split; [reflexivity|].
  assert (Hq : Z.to_nat (Z.of_nat rem / Z.of_nat len) = (rem / len)%nat).
  { rewrite <- Nat2Z.inj_div. apply Nat2Z.id. }
  assert (Hr : Py.slice_to ids (Z.of_nat rem mod Z.of_nat len)
               = take (rem mod len) ids).
  { unfold Py.slice_to, Py.stop. rewrite <- Nat2Z.inj_mod.
    destruct (Z.ltb_spec (Z.of_nat (rem mod len)) 0); [lia|].
    rewrite Nat2Z.id.
    pose proof (Nat.mod_upper_bound rem len ltac:(lia)).
    f_equal. lia. }
  rewrite Hq, Hr. split; [reflexivity|].
  rewrite !length_app, length_repeat_list, length_take.
  pose proof (Nat.div_mod_eq rem len).
  pose proof (Nat.mod_upper_bound rem len ltac:(lia)). nia.
Qed.


End Bucket.

(** ** Construction *)

Section Construction.
Import DistributedBucketSampler.

Lemma index_nat_Ok {A : Type} (l : list A) (i : nat) (x : A) :
  Py.index_nat l i = Ok x <-> l !! i = Some x.
Proof.
  unfold Py.index_nat. destruct (l !! i); split; intros H;
    inversion H; reflexivity.
Qed.




(** The check of the base class: a sampler exists only for a rank below
    [num_replicas]. *)
Lemma init_rank_valid (ls : list Z) (bs : nat) (bd : list Z) (w r : nat)
    (sh : bool) (s : Sampler) :
  __init__ ls bs bd w r sh = Ok s -> (r < w)%nat.
Proof.
  unfold __init__. destruct (Nat.leb_spec w r); [discriminate|]. auto.
Qed.

End Construction.

(** ** One epoch *)

Section Iter.
Import DistributedBucketSampler.
Variable G : Type.
Variable manual_seed : Z -> result G.
Variable randperm : nat -> G -> list nat * G.






End Iter.



(** ** The share of a rank *)

Section RankShare.
Import DistributedBucketSampler.
Variable G : Type.
Variable manual_seed : Z -> result G.
Variable randperm : nat -> G -> list nat * G.


(** The disjointness is one of positions: the cyclic padding repeats
    examples, and two ranks can hold the same one.  Here a bucket of
    three is padded to four, and both shares contain local index 2. *)
Lemma shares_can_repeat_an_example :
  rank_share 2 0 3 [2; 0; 1]%nat 4 = Ok [2; 1]%nat /\
  rank_share 2 1 3 [2; 0; 1]%nat 4 = Ok [0; 2]%nat.
Proof. split; reflexivity. Qed.

End RankShare.

(** ** Construction on a dataset that falls outside the boundaries *)

Section EmptyDataset.
Import DistributedBucketSampler.

Lemma fill_buckets_outside (bd : list Z) (ls : list Z) (i : nat)
    (bk : list (list nat)) :
  Sorted Z.le bd ->
  Forall (fun x => forall k, ~ in_bucket bd x k) ls ->
  fill_buckets bd i ls bk = Ok bk.
Proof.
  intros Hs Hall. revert i. induction Hall as [|x ls Hx _ IH]; intros i; simpl.
  - reflexivity.
  - destruct (bisect_spec bd x Hs) as (r & Er & [[-> _]|Hin]).
    + rewrite Er. simpl. apply IH.
    + destruct (Hx r Hin).
Qed.

Lemma delete_last_replicate {A : Type} (x : A) (i : nat) :
  delete i (x :: replicate i x) = replicate i x.
Proof. induction i as [|i IH]; simpl; [reflexivity|]. f_equal. exact IH. Qed.

Lemma prune_all_empty (n : nat) (bd : list Z) :
  (n = 0 \/ n < length bd)%nat ->
  exists bd', prune n (replicate n []) bd = Ok ([], bd').
Proof.
  revert bd. induction n as [|i IH]; intros bd Hn; simpl.
  - eauto.
  - assert (Hi : ([] :: replicate i ([] : list nat)) !! i = Some []).
    { apply (lookup_replicate_2 (S i)). lia. }
    unfold Py.index_nat, Py.pop. rewrite Hi. simpl.
    destruct (lookup_lt_is_Some_2 bd (i + 1) ltac:(lia)) as [b Eb].
    rewrite Eb. simpl. rewrite delete_last_replicate.
    apply IH. rewrite length_delete by eauto. lia.
Qed.
End EmptyDataset.

Lemma outside_example :
  Forall (fun x => forall k, ~ in_bucket [10; 20] x k) [5].
Proof.
  constructor; [|constructor].
  intros k (Hk & bl & bh & Hl & Hh & Hx).
  destruct (Z.to_nat k) as [|[|n]]; simpl in Hl, Hh;
    inversion Hl; inversion Hh; subst; lia.
Qed.

(** C9 fails as stated: no example of this dataset falls inside the
    boundaries, every bucket is pruned, and [__init__] returns a sampler
    instead of raising. *)
Lemma empty_dataset_constructs :
  Forall (fun x => forall k, ~ in_bucket [10; 20] x k) [5] /\
  ~ raises (DistributedBucketSampler.__init__ [5] 2 [10; 20] 1 0 true).
Proof.
  split; [exact outside_example|].
  intros [e He]. vm_compute in He. discriminate.
Qed.

(** C9, amended.  When no example falls inside the ascending boundaries,
    construction for a rank below [num_replicas] raises nothing: it
    returns a sampler with no buckets, [total_size = 0] and
    [num_samples = 0].  For any other rank it raises the [ValueError] of
    the base class; there is no error for an empty dataset. *)
Theorem empty_dataset_sampler (ls : list Z) (bs : nat) (bd : list Z)
    (w r : nat) (sh : bool) :
  Sorted Z.le bd ->
  Forall (fun x => forall k, ~ in_bucket bd x k) ls ->
  ((r < w)%nat ->
   exists s,
     DistributedBucketSampler.__init__ ls bs bd w r sh = Ok s /\
     DistributedBucketSampler.buckets s = [] /\
     DistributedBucketSampler.num_samples_per_bucket s = [] /\
     DistributedBucketSampler.total_size s = 0%nat /\
     DistributedBucketSampler.num_samples s = 0%nat) /\
  ((w <= r)%nat ->
   DistributedBucketSampler.__init__ ls bs bd w r sh = Raise ValueError).
Proof.
  intros Hs Hout.
  unfold DistributedBucketSampler.__init__,
    DistributedBucketSampler._create_buckets.
  destruct (Nat.leb_spec w r) as [Hle|Hlt]; (split; [intros Hr|intros Hr]);
    try lia; [reflexivity|].
  simpl.
  rewrite (fill_buckets_outside bd ls 0 _ Hs Hout). simpl.
  rewrite length_replicate.
  destruct (prune_all_empty (Z.to_nat (Z.of_nat (length bd) - 1)) bd ltac:(lia))
    as (bd' & Ep).
  rewrite Ep. simpl. unfold Py.floordiv.
  destruct (Nat.eqb_spec w 0) as [?|_]; [lia|]. simpl.
  eexists. split; [reflexivity|]. simpl.
  change (Py.sum_nat []) with 0%nat.
  repeat split. apply Nat.Div0.div_0_l.
Qed.

Lemma empty_dataset_sampler_witness :
  exists s,
    DistributedBucketSampler.__init__ [5] 2 [10; 20] 1 0 true = Ok s /\
    DistributedBucketSampler.buckets s = [].
Proof.
  destruct (proj1 (empty_dataset_sampler [5] 2 [10; 20] 1 0 true
                     ltac:(repeat (constructor; try lia))
                     outside_example) ltac:(lia))
    as (s & Hs & Hb & _).
  exists s. split; assumption.
Defined.

(** ** The catalog filter *)

Section Filter.
Import TextAudioLoader.
Variable os_path_join : String.string -> String.string -> String.string.
Variable os_path_getsize : String.string -> result Z.

Lemma filter_loop_spec (self : Loader) (rows new : list Row) (ls : list Z)
    (new' : list Row) (ls' : list Z) :
  filter_loop os_path_join os_path_getsize self rows new ls = Ok (new', ls') ->
  new' = new ++ map (stored os_path_join self) (List.filter (keeps self) rows) /\
  length ls' = (length ls + length (List.filter (keeps self) rows))%nat.
Proof.
  revert new ls. induction rows as [|[[id_ p] d] rest IH]; intros new ls H.
  - simpl in H. inversion H; subst. simpl. rewrite app_nil_r. split; [reflexivity|lia].
  - simpl in H.
    change ((min_text_len self <=? len p) && (len p <=? max_text_len self))
      with (keeps self (id_, p, d)) in H.
    cbn [List.filter]. destruct (keeps self (id_, p, d)).
    + inv_bind H. inv_bind H. apply IH in H as [-> ->].
      rewrite <- app_assoc, length_app. simpl. split; [reflexivity|lia].
    + apply IH in H. exact H.
Qed.

End Filter.



(** ** Tensor slices and prefix assignment *)

Section TensorFacts.
Context {A : Type}.
Variable zero : A.
Implicit Types t : Tensor2 A.

Lemma stop_nonneg (len : nat) (n : Z) :
  0 <= n -> Py.stop len n = Nat.min len (Z.to_nat n).
Proof. intros H. unfold Py.stop. destruct (Z.ltb_spec n 0); [lia|reflexivity]. Qed.

Lemma size1_slice_cols t (n : Z) :
  size1 (Torch.slice_cols t n) = Py.stop (size1 t) n.
Proof. reflexivity. Qed.

Lemma slice_cols_idem_nonneg t (n : Z) :
  0 <= n -> Torch.slice_cols (Torch.slice_cols t n) n = Torch.slice_cols t n.
Proof.
  intros H. unfold Torch.slice_cols. simpl. rewrite !stop_nonneg by assumption.
  replace (Nat.min (Nat.min (size1 t) (Z.to_nat n)) (Z.to_nat n))
    with (Nat.min (size1 t) (Z.to_nat n)) by lia.
  f_equal. rewrite <- list_fmap_compose. apply list_fmap_ext.
  intros i r _. simpl. rewrite take_take. f_equal. lia.
Qed.

Lemma slice_cols_idem_zero t (n : Z) :
  size1 t = 0%nat ->
  Torch.slice_cols (Torch.slice_cols t n) n = Torch.slice_cols t n.
Proof.
  intros H. unfold Torch.slice_cols. simpl. rewrite H.
  assert (Hs : Py.stop 0 n = 0%nat) by (unfold Py.stop; destruct (Z.ltb_spec n 0); lia).
  rewrite !Hs. f_equal. rewrite <- list_fmap_compose. apply list_fmap_ext.
  intros i r _. reflexivity.
Qed.

Lemma zip_with_replicate_map {B C D : Type} (f : B -> C -> D) (x : B)
    (l : list C) :
  zip_with f (replicate (length l) x) l = map (f x) l.
Proof. induction l as [|a l IH]; simpl; [reflexivity|]. f_equal. exact IH. Qed.

(** Copying a tensor into the leading columns of a zero tensor with as
    many rows pads it. *)
Lemma assign_prefix_zeros t (c : nat) :
  (size1 t <= c)%nat ->
  Torch.assign_prefix (Torch.zeros_nat zero (size0 t) c) t
  = Ok (pad_cols zero t c).
Proof.
  intros H. unfold Torch.assign_prefix, Torch.zeros_nat, size0. simpl.
  rewrite length_replicate, Nat.eqb_refl. simpl.
  replace (Nat.min c (size1 t)) with (size1 t) by lia.
  rewrite Nat.eqb_refl. simpl. unfold pad_cols. do 2 f_equal.
  rewrite (zip_with_replicate_map
             (fun d s => take (size1 t) s ++ drop (size1 t) d)).
  apply list_fmap_ext. intros i r _. simpl. rewrite drop_replicate. reflexivity.
Qed.

(** On a well-formed tensor padding keeps every row whole and adds the
    zeros behind it. *)
Lemma pad_cols_wf t (c : nat) :
  tensor_wf t -> (size1 t <= c)%nat ->
  rows (pad_cols zero t c)
  = map (fun r => r ++ replicate (c - size1 t) zero) (rows t) /\
  tensor_wf (pad_cols zero t c).
Proof.
  intros Hwf Hc. unfold tensor_wf in *. simpl. split.
  - apply Forall_fmap_ext_1. eapply Forall_impl; [exact Hwf|].
    intros r Hr. simpl in *. rewrite <- Hr, firstn_all. reflexivity.
  - apply Forall_fmap. eapply Forall_impl; [exact Hwf|].
    intros r Hr. simpl in *.
    rewrite length_app, length_take, length_replicate. lia.
Qed.
End TensorFacts.

(** ** Reconciliation *)

Section Reconcile.
Import TextAudioLoader.
Context {A : Type}.
Variable zero : A.
Implicit Types sp yi wv : Tensor2 A.

(** What a successful reconciliation went through. *)
Lemma reconcile_Ok_inv (hop : Z) (ph dur : list Z) sp yi wv (item : Item) :
  reconcile zero hop ph dur sp yi wv = Ok item ->
  exists sp' wv',
    item = mkItem ph sp' yi wv' dur /\
    Z.abs (Z.of_nat (size1 sp) - Py.sum dur) < 2 /\
    truncate_or_pad zero hop (Py.sum dur) sp wv = Ok (sp', wv') /\
    length ph = length dur /\ hop <> 0 /\
    Py.sum dur = Z.of_nat (size1 wv') / hop.
Proof.
  unfold reconcile. intros H.
  destruct (Z.ltb_spec (Z.abs (Z.of_nat (size1 sp) - Py.sum dur)) 2) as [Habs|];
    simpl in H; [|discriminate].
  inv_bind H. destruct a as [sp' wv'].
  destruct (Nat.eqb_spec (length ph) (length dur)) as [Hlen|]; simpl in H;
    [|discriminate].
  inv_bind H. unfold Py.floordivZ in Ha0.
  destruct (Z.eqb_spec hop 0) as [|Hhop]; [discriminate|].
  inversion Ha0; subst a; clear Ha0.
  destruct (Z.eqb_spec (Py.sum dur) (Z.of_nat (size1 wv') / hop)) as [Hq|];
    simpl in H; [|discriminate].
  inversion H; subst item. exists sp', wv'. auto 10.
Qed.

(** The two assertions after the fitting step. *)
Lemma reconcile_fitted (hop : Z) (ph dur : list Z) sp yi wv sp' wv' :
  Z.abs (Z.of_nat (size1 sp) - Py.sum dur) < 2 ->
  truncate_or_pad zero hop (Py.sum dur) sp wv = Ok (sp', wv') ->
  length ph = length dur -> hop <> 0 ->
  Py.sum dur = Z.of_nat (size1 wv') / hop ->
  reconcile zero hop ph dur sp yi wv = Ok (mkItem ph sp' yi wv' dur).
Proof.
  intros Habs Hfit Hlen Hhop Hq. unfold reconcile.
  destruct (Z.ltb_spec (Z.abs (Z.of_nat (size1 sp) - Py.sum dur)) 2); [|lia].
  simpl. rewrite Hfit. simpl. rewrite Hlen, Nat.eqb_refl. simpl.
  unfold Py.floordivZ. destruct (Z.eqb_spec hop 0); [contradiction|]. simpl.
  rewrite <- Hq, Z.eqb_refl. reflexivity.
Qed.

Lemma truncate_or_pad_equal (hop sumdur : Z) sp wv :
  Z.of_nat (size1 sp) = sumdur ->
  truncate_or_pad zero hop sumdur sp wv = Ok (sp, wv).
Proof.
  intros H. unfold truncate_or_pad.
  destruct (Z.ltb_spec sumdur (Z.of_nat (size1 sp))); [lia|].
  destruct (Z.ltb_spec (Z.of_nat (size1 sp)) sumdur); [lia|reflexivity].
Qed.

Lemma truncate_or_pad_longer (hop sumdur : Z) sp wv :
  sumdur < Z.of_nat (size1 sp) ->
  truncate_or_pad zero hop sumdur sp wv
  = Ok (Torch.slice_cols sp sumdur, Torch.slice_cols wv (sumdur * hop)).
Proof.
  intros H. unfold truncate_or_pad.
  destruct (Z.ltb_spec sumdur (Z.of_nat (size1 sp))); [reflexivity|lia].
Qed.

(** After the fitting step the acoustic matrix has [sumdur] frames. *)
Lemma truncate_or_pad_frames (hop sumdur : Z) sp wv sp' wv' :
  Z.abs (Z.of_nat (size1 sp) - sumdur) < 2 -> 0 <= sumdur ->
  truncate_or_pad zero hop sumdur sp wv = Ok (sp', wv') ->
  Z.of_nat (size1 sp') = sumdur.
Proof.
  intros Habs Hs H. unfold truncate_or_pad in H.
  destruct (Z.ltb_spec sumdur (Z.of_nat (size1 sp))).
  - inversion H; subst. rewrite size1_slice_cols, stop_nonneg by assumption. lia.
  - destruct (Z.ltb_spec (Z.of_nat (size1 sp)) sumdur).
    + inv_bind H. inv_bind H. inv_bind H. inv_bind H.
      inversion H; subst; clear H.
      unfold Torch.zeros in Ha. destruct (sumdur <? 0); [discriminate|].
      inversion Ha; subst; clear Ha.
      unfold Torch.assign_prefix in Ha1.
      destruct (_ && _) in Ha1; [|discriminate].
      inversion Ha1; subst. simpl. lia.
    + inversion H; subst. lia.
Qed.

(** C6.  Reconciling the output of a reconciliation, with the same
    duration annotation and hop length, returns that output: running
    the step twice is the same as running it once (and when the first
    run raises, so does the composition). *)
Theorem reconcile_idempotent (hop : Z) (ph dur : list Z) sp yi wv :
  bind (reconcile zero hop ph dur sp yi wv)
    (fun item => reconcile zero hop (phonemes item) (phn_dur item)
                   (spec item) (ying item) (wav item))
  = reconcile zero hop ph dur sp yi wv.
Proof.
  destruct (reconcile zero hop ph dur sp yi wv) as [item|e] eqn:E; simpl;
    [|reflexivity].
  apply reconcile_Ok_inv in E
    as (sp' & wv' & -> & Habs & Hfit & Hlen & Hhop & Hq). simpl.
  destruct (Z_le_dec 0 (Py.sum dur)) as [Hs|Hs].
  - pose proof (truncate_or_pad_frames _ _ _ _ _ _ Habs Hs Hfit) as Hf.
    apply reconcile_fitted; auto.
    + rewrite Hf. lia.
    + apply truncate_or_pad_equal. exact Hf.
  - assert (Hsum : Py.sum dur = -1) by lia.
    assert (Hsp : size1 sp = 0%nat) by lia.
    rewrite truncate_or_pad_longer in Hfit by lia.
    inversion Hfit; subst sp' wv'; clear Hfit.
    assert (Hneg : hop < 0).
    { destruct (Z_lt_dec hop 0) as [|Hpos]; [assumption|exfalso].
      pose proof (Z.div_pos (Z.of_nat (size1 (Torch.slice_cols wv (Py.sum dur * hop))))
                    hop ltac:(lia) ltac:(lia)).
      lia. }
    apply reconcile_fitted; auto.
    + rewrite size1_slice_cols, Hsp.
      replace (Py.stop 0 (Py.sum dur)) with 0%nat
        by (unfold Py.stop; destruct (Z.ltb_spec (Py.sum dur) 0); lia).
      lia.
    + rewrite truncate_or_pad_longer.
      * rewrite (slice_cols_idem_zero sp _ Hsp).
        rewrite slice_cols_idem_nonneg by lia. reflexivity.
      * rewrite size1_slice_cols, Hsp.
        replace (Py.stop 0 (Py.sum dur)) with 0%nat
          by (unfold Py.stop; destruct (Z.ltb_spec (Py.sum dur) 0); lia).
        lia.
Qed.

(** Where an [AssertionError] of the reconciliation comes from: the
    assertion of line 77, or, after the fitting step, one of the
    assertions of lines 90 and 91. *)
Lemma reconcile_assertion_iff (hop : Z) (ph dur : list Z) sp yi wv :
  reconcile zero hop ph dur sp yi wv = Raise AssertionError <->
  2 <= Z.abs (Z.of_nat (size1 sp) - Py.sum dur) \/
  exists sp' wv',
    truncate_or_pad zero hop (Py.sum dur) sp wv = Ok (sp', wv') /\
    (length ph <> length dur \/
     (hop <> 0 /\ Py.sum dur <> Z.of_nat (size1 wv') / hop)).
Proof.
  unfold reconcile.
  destruct (Z.ltb_spec (Z.abs (Z.of_nat (size1 sp) - Py.sum dur)) 2) as [Habs|Habs];
    simpl; [|tauto].
  destruct (truncate_or_pad zero hop (Py.sum dur) sp wv) as [[sp' wv']|e] eqn:E;
    simpl.
  - destruct (Nat.eqb_spec (length ph) (length dur)) as [Hlen|Hlen]; simpl.
    + unfold Py.floordivZ.
      destruct (Z.eqb_spec hop 0) as [Hhop|Hhop]; simpl.
      * split; [discriminate|].
        intros [?|(sp2 & wv2 & _ & [?|[? _]])]; [lia|contradiction..].
      * destruct (Z.eqb_spec (Py.sum dur) (Z.of_nat (size1 wv') / hop))
          as [Hq|Hq]; simpl.
        -- split; [discriminate|].
           intros [?|(sp2 & wv2 & E2 & [?|[_ Hne]])]; [lia|contradiction|].
           inversion E2; subst. contradiction.
        -- split; [|reflexivity]. intros _. right. exists sp', wv'. auto.
    + split; [|reflexivity]. intros _. right. exists sp', wv'. auto.
  - split.
    + intros H. exfalso. inversion H; subst e; clear H.
      unfold truncate_or_pad in E.
      destruct (_ <? _) in E; [discriminate|].
      destruct (_ <? _) in E; [|discriminate].
      unfold Torch.zeros, Torch.assign_prefix in E.
      repeat (match type of E with
              | context [if ?c then _ else _] => destruct c
              end; simpl in E; try discriminate).
    + intros [?|(sp2 & wv2 & E2 & _)]; [lia|discriminate].
Qed.
End Reconcile.

Section ReconcileClaims.
Import TextAudioLoader.
Context {A : Type}.
Variable zero : A.
Variable cleaned_text_to_sequence : list String.string -> result (list Z).
Variable int_ : String.string -> result Z.
Variable get_audio :
  String.string -> bool -> result (Tensor2 A * Tensor2 A * Tensor2 A).
Implicit Types sp yi wv : Tensor2 A.

(** C4, amended.  On an input that satisfies the precondition, with a
    positive hop length, a non-negative duration sum, as many durations
    as text units, a one-channel waveform and
    [wav.shape[-1] // hop_length == spec.shape[-1]], reconciliation
    succeeds; afterwards the acoustic matrix has [sum(phn_dur)] frames
    and [sum(phn_dur) == wav.shape[-1] // hop_length]; both were
    truncated to [sum] frames and [sum * hop_length] samples when the
    matrix was longer, padded with zeros to these sizes when it was
    shorter, and are unchanged otherwise. *)
Theorem reconcile_lengths (hop : Z) (ph dur : list Z) sp yi wv :
  Z.abs (Z.of_nat (size1 sp) - Py.sum dur) < 2 ->
  0 < hop -> 0 <= Py.sum dur -> length ph = length dur ->
  size0 wv = 1%nat ->
  Z.of_nat (size1 wv) / hop = Z.of_nat (size1 sp) ->
  exists item,
    reconcile zero hop ph dur sp yi wv = Ok item /\
    Py.sum dur = Z.of_nat (size1 (spec item)) /\
    Py.sum dur = Z.of_nat (size1 (wav item)) / hop /\
    (Py.sum dur < Z.of_nat (size1 sp) ->
     spec item = Torch.slice_cols sp (Py.sum dur) /\
     wav item = Torch.slice_cols wv (Py.sum dur * hop) /\
     Z.of_nat (size1 (wav item)) = Py.sum dur * hop) /\
    (Z.of_nat (size1 sp) < Py.sum dur ->
     spec item = pad_cols zero sp (Z.to_nat (Py.sum dur)) /\
     wav item = pad_cols zero wv (Z.to_nat (Py.sum dur * hop))) /\
    (Z.of_nat (size1 sp) = Py.sum dur -> spec item = sp /\ wav item = wv).
Proof.
  intros Habs Hhop Hsum Hlen Hw0 Hcons.
  set (s := Py.sum dur) in *.
  pose proof (Z.mul_div_le (Z.of_nat (size1 wv)) hop Hhop) as Hle.
  pose proof (Z.mod_pos_bound (Z.of_nat (size1 wv)) hop Hhop) as Hmod.
  pose proof (Z.div_mod (Z.of_nat (size1 wv)) hop ltac:(lia)) as Hdm.
  destruct (Z.lt_trichotomy s (Z.of_nat (size1 sp))) as [Hlt|[Heq|Hgt]].
  - (* longer: truncate *)
    assert (Hsz : Z.of_nat (size1 (Torch.slice_cols wv (s * hop))) = s * hop).
    { rewrite size1_slice_cols, stop_nonneg by nia. nia. }
    exists (mkItem ph (Torch.slice_cols sp s) yi (Torch.slice_cols wv (s * hop)) dur).
    split; [|split; [|split; [|split; [|split]]]]; cbn [spec wav].
    + apply reconcile_fitted; auto with lia.
      * apply truncate_or_pad_longer. exact Hlt.
      * rewrite Hsz. rewrite Z.div_mul by lia. reflexivity.
    + rewrite size1_slice_cols, stop_nonneg by lia. lia.
    + rewrite Hsz. rewrite Z.div_mul by lia. reflexivity.
    + auto.
    + intros; lia.
    + intros; lia.
  - (* equal: unchanged *)
    exists (mkItem ph sp yi wv dur).
    split; [|split; [|split; [|split; [|split]]]]; cbn [spec wav].
    + apply reconcile_fitted; auto with lia.
      apply truncate_or_pad_equal. lia.
    + lia.
    + lia.
    + intros; lia.
    + intros; lia.
    + auto.
  - (* shorter: pad *)
    exists (mkItem ph (pad_cols zero sp (Z.to_nat s)) yi
              (pad_cols zero wv (Z.to_nat (s * hop))) dur).
    split; [|split; [|split; [|split; [|split]]]]; cbn [spec wav].
    + apply reconcile_fitted; auto with lia.
      * unfold truncate_or_pad. fold s.
        destruct (Z.ltb_spec s (Z.of_nat (size1 sp))); [lia|].
        destruct (Z.ltb_spec (Z.of_nat (size1 sp)) s); [|lia].
        unfold Torch.zeros. fold s.
        destruct (Z.ltb_spec s 0); [lia|].
        destruct (Z.ltb_spec (s * hop) 0); [nia|]. cbn [bind].
        rewrite assign_prefix_zeros by lia. cbn [bind].
        replace (Torch.zeros_nat zero 1 (Z.to_nat (s * hop)))
          with (Torch.zeros_nat zero (size0 wv) (Z.to_nat (s * hop)))
          by (rewrite Hw0; reflexivity).
        rewrite assign_prefix_zeros by nia. reflexivity.
      * cbn [pad_cols size1]. rewrite Z2Nat.id by nia. rewrite Z.div_mul by lia. reflexivity.
    + cbn [pad_cols size1]. lia.
    + cbn [pad_cols size1]. rewrite Z2Nat.id by nia. rewrite Z.div_mul by lia. reflexivity.
    + intros; lia.
    + auto.
    + intros; lia.
Qed.

(** C5, amended.  [__getitem__] returns what the reconciliation returns
    and raises what it raises, with no handler in between.  When the
    frame count and the duration sum differ by 2 or more, that is the
    [AssertionError] of line 77.  The converse fails: for a smaller
    mismatch the same [AssertionError] is raised when the numbers of
    text units and of durations differ (line 90) or when, after the
    fitting step, [sumdur != wav.shape[-1] // hop_length] (line 91), and
    in no other case.  ([sumdur] is the [int64] sum of the durations;
    the statement is for operands on which the [int64] operations of
    lines 77-84 do not overflow.) *)
Theorem alignment_error_iff (self : Loader) (index : Z) (row : Row)
    (ph dur : list Z) sp yi wv :
  Py.index (audiopaths_sid_text self) index = Ok row ->
  get_phonemes cleaned_text_to_sequence row.1.2 = Ok ph ->
  get_duration_flag int_ row.2 = Ok dur ->
  get_audio row.1.1 false = Ok (sp, yi, wv) ->
  no_overflow (hop_length self) (size1 sp) dur ->
  __getitem__ zero cleaned_text_to_sequence int_ get_audio self index
  = reconcile zero (hop_length self) ph dur sp yi wv /\
  (2 <= Z.abs (Z.of_nat (size1 sp) - Py.sum dur) ->
   __getitem__ zero cleaned_text_to_sequence int_ get_audio self index
   = Raise AssertionError) /\
  (__getitem__ zero cleaned_text_to_sequence int_ get_audio self index
   = Raise AssertionError
   <-> 2 <= Z.abs (Z.of_nat (size1 sp) - Py.sum dur) \/
       exists sp' wv',
         truncate_or_pad zero (hop_length self) (Py.sum dur) sp wv
         = Ok (sp', wv') /\
         (length ph <> length dur \/
          (hop_length self <> 0 /\
           Py.sum dur <> Z.of_nat (size1 wv') / hop_length self))).
Proof.
  intros Hrow Hph Hdur Haudio _.
  assert (Hget : __getitem__ zero cleaned_text_to_sequence int_ get_audio
                   self index
                 = reconcile zero (hop_length self) ph dur sp yi wv).
  { unfold __getitem__. rewrite Hrow. simpl.
    destruct row as [[wav_path phonemes] durations]. simpl in *.
    unfold get_audio_text_pair.
    rewrite Hph. simpl. rewrite Hdur. simpl. rewrite Haudio. reflexivity. }
  split; [exact Hget|]. rewrite Hget. split.
  - intros H. apply reconcile_assertion_iff. left. exact H.
  - apply reconcile_assertion_iff.
Qed.
End ReconcileClaims.

Lemma reconcile_lengths_witness :
  exists item,
    TextAudioLoader.reconcile 0 4 [7; 8] [2; 2]
      (mkTensor2 [[1; 2; 3; 4; 5]; [6; 7; 8; 9; 10]] 5)
      (mkTensor2 [[1; 1; 1; 1; 1]] 5)
      (mkTensor2 [map Z.of_nat (seq 0 20)] 20) = Ok item /\
    Z.of_nat (size1 (TextAudioLoader.spec item)) = 4 /\
    Z.of_nat (size1 (TextAudioLoader.wav item)) = 16.
Proof.
  destruct (reconcile_lengths 0 4 [7; 8] [2; 2]
              (mkTensor2 [[1; 2; 3; 4; 5]; [6; 7; 8; 9; 10]] 5)
              (mkTensor2 [[1; 1; 1; 1; 1]] 5)
              (mkTensor2 [map Z.of_nat (seq 0 20)] 20)
              ltac:(now vm_compute) ltac:(lia) ltac:(now vm_compute)
              eq_refl eq_refl eq_refl)
    as (item & Hi & Hs & _ & Ht & _).
  change (Py.sum [2; 2]) with 4 in *.
  exists item. split; [exact Hi|]. split; [lia|].
  destruct (Ht ltac:(simpl; lia)) as (_ & _ & Hw). lia.
Defined.

(** C4 fails as stated: a five-frame matrix beside an 18-sample waveform
    meets the precondition for the durations 2 and 3 at hop length 4, the
    numbers of text units and durations agree, nothing is truncated or
    padded, and reconciliation raises the assertion of line 91, since
    [18 // 4] is not 5. *)
Lemma reconcile_can_fail :
  let spec := mkTensor2 [[1; 2; 3; 4; 5]; [6; 7; 8; 9; 10]] 5 in
  let ying := mkTensor2 [[1; 1; 1; 1; 1]] 5 in
  let wav := mkTensor2 [map Z.of_nat (seq 0 18)] 18 in
  Z.abs (Z.of_nat (size1 spec) - Py.sum [2; 3]) < 2 /\
  length [7; 8] = length [2; 3] /\
  TextAudioLoader.truncate_or_pad 0 4 (Py.sum [2; 3]) spec wav = Ok (spec, wav) /\
  Py.sum [2; 3] <> Z.of_nat (size1 wav) / 4 /\
  TextAudioLoader.reconcile 0 4 [7; 8] [2; 3] spec ying wav
  = Raise AssertionError.
Proof.
  repeat split; now vm_compute.
Qed.

Lemma alignment_error_iff_witness :
  TextAudioLoader.__getitem__ 0 LoaderFixture.cleaned_text_to_sequence
    LoaderFixture.int_ LoaderFixture.get_audio LoaderFixture.loader 2
  = Raise AssertionError.
Proof.
  destruct (alignment_error_iff 0 LoaderFixture.cleaned_text_to_sequence
              LoaderFixture.int_ LoaderFixture.get_audio LoaderFixture.loader 2
              ("c"%string, "X Y"%string, "1 1"%string) [1; 1] [1; 1]
              (mkTensor2 [[1; 2; 3; 4; 5]; [6; 7; 8; 9; 10]] 5)
              (mkTensor2 [[1; 1; 1; 1; 1]] 5)
              (mkTensor2 [map Z.of_nat (seq 0 20)] 20)
              eq_refl eq_refl eq_refl eq_refl
              ltac:(repeat split; now vm_compute)) as (_ & H & _).
  apply H. now vm_compute.
Defined.

(** C5 fails as stated: the frame count of this example equals the sum of
    its two durations, so the mismatch is 0, and [__getitem__] still
    raises [AssertionError], at line 90, the example having one text unit
    for its two durations. *)
Lemma small_mismatch_still_raises :
  let self :=
    TextAudioLoader.mkLoader [("data/x.wav"%string, "K"%string, "2 3"%string)]
      [2560] 4 1 3 "data"%string in
  TextAudioLoader.get_phonemes LoaderFixture.cleaned_text_to_sequence "K"
  = Ok [1] /\
  TextAudioLoader.get_duration_flag LoaderFixture.int_ "2 3" = Ok [2; 3] /\
  (exists spec ying wav,
     LoaderFixture.get_audio "data/x.wav" false = Ok (spec, ying, wav) /\
     Z.abs (Z.of_nat (size1 spec) - Py.sum [2; 3]) < 2) /\
  TextAudioLoader.__getitem__ 0 LoaderFixture.cleaned_text_to_sequence
    LoaderFixture.int_ LoaderFixture.get_audio self 0
  = Raise AssertionError.
Proof.
  simpl. split; [reflexivity|]. split; [vm_compute; reflexivity|]. split.
  - eexists _, _, _. split; [reflexivity|]. now vm_compute.
  - vm_compute. reflexivity.
Qed.

(** ** The collator *)

Lemma sort_fixture_ok : sort_ok SortFixture.torch_sort_descending.
Proof.
  intros keys. unfold SortFixture.torch_sort_descending. simpl.
  set (ids := merge_sort (SortFixture.key_ge keys) (seq 0 (length keys))).
  assert (Hperm : ids ≡ₚ seq 0 (length keys)) by apply merge_sort_Permutation.
  split; [exact Hperm|]. split.
  - apply Forall2_fmap_r. apply Forall_Forall2_diag.
    rewrite Hperm. apply Forall_seq. intros i [_ Hi]. simpl in Hi.
    unfold compose, SortFixture.key.
    destruct (keys !! i) eqn:E; [reflexivity|].
    apply lookup_ge_None in E. lia.
  - assert (Hs : Sorted (SortFixture.key_ge keys) ids).
    { apply Sorted_merge_sort. intros i j. unfold SortFixture.key_ge. lia. }
    clear Hperm. clearbody ids.
    induction Hs as [|i l Hs IH Hhd]; simpl; [constructor|].
    constructor; [exact IH|].
    destruct Hhd as [|j l' Hij]; simpl; constructor.
    unfold SortFixture.key_ge in Hij. lia.
Qed.

Section CollateLoop.
Import TextAudioLoader TextAudioCollate.
Context {A : Type}.
Variable zero : A.

Lemma max_spec (l : list nat) :
  l <> [] ->
  exists m, Py.max_ l = Ok m /\ Forall (fun x => (x <= m)%nat) l /\ m ∈ l.
Proof.
  destruct l as [|x l]; [congruence|]. intros _. simpl.
  eexists. split; [reflexivity|].
  assert (H : forall a, (a <= foldl Nat.max a l)%nat /\
                        Forall (fun y => (y <= foldl Nat.max a l)%nat) l /\
                        (foldl Nat.max a l = a \/ foldl Nat.max a l ∈ l)).
  { induction l as [|y l IH]; intros a; simpl.
    - split; [lia|]. split; [constructor|]. left. reflexivity.
    - destruct (IH (Nat.max a y)) as (H1 & H2 & H3).
      split; [lia|]. split; [constructor; [lia|exact H2]|].
      destruct H3 as [H3|H3]; [|right; right; exact H3].
      rewrite H3. destruct (Nat.max_spec a y) as [[_ ->]|[_ ->]];
        [right; left|left]; reflexivity. }
  destruct (H x) as (H1 & H2 & H3). split; [constructor; assumption|].
  destruct H3 as [->|H3]; [left|right; exact H3].
Qed.

(** Writing slot [k] of a tensor whose rows from [k] on are still
    zero. *)
Lemma set_item_slot {B : Type} (l1 : list B) (z v : B) (k m : nat) :
  length l1 = k ->
  Torch.set_item (l1 ++ replicate (S m) z) k v
  = Ok ((l1 ++ [v]) ++ replicate m z).
Proof.
  intros <-. unfold Torch.set_item.
  destruct (Nat.ltb_spec (length l1) (length (l1 ++ replicate (S m) z)))
    as [_|H]; [|rewrite length_app, length_replicate in H; lia].
  f_equal. rewrite insert_app_r_alt by lia.
  rewrite Nat.sub_diag. simpl. rewrite <- app_assoc. reflexivity.
Qed.

Lemma assign_row1_slot (l1 : list (list Z)) (src : list Z) (k m c : nat) :
  length l1 = k -> (length src <= c)%nat ->
  assign_row1 (l1 ++ replicate (S m) (replicate c 0)) k src
  = Ok ((l1 ++ [pad1 src c]) ++ replicate m (replicate c 0)).
Proof.
  intros <- Hc. unfold assign_row1, Py.index_nat.
  rewrite lookup_app_r by lia. rewrite Nat.sub_diag. simpl.
  unfold Torch.assign_prefix1. rewrite length_replicate.
  replace (Nat.min c (length src)) with (length src) by lia.
  rewrite Nat.eqb_refl. simpl.
  rewrite insert_app_r_alt by lia. rewrite Nat.sub_diag. simpl.
  rewrite <- app_assoc. simpl. unfold pad1.
  rewrite firstn_all, drop_replicate. reflexivity.
Qed.

Lemma assign_row2_slot (l1 : list (Tensor2 A)) (src : Tensor2 A)
    (k m r c : nat) :
  length l1 = k -> size0 src = r -> (size1 src <= c)%nat ->
  assign_row2 (l1 ++ replicate (S m) (Torch.zeros_nat zero r c)) k src
  = Ok ((l1 ++ [pad_cols zero src c]) ++ replicate m (Torch.zeros_nat zero r c)).
Proof.
  intros <- <- Hc. unfold assign_row2, Py.index_nat.
  rewrite lookup_app_r by lia. rewrite Nat.sub_diag.
  cbn [replicate lookup list_lookup bind].
  rewrite assign_prefix_zeros by exact Hc. cbn [bind].
  rewrite insert_app_r_alt by lia. rewrite Nat.sub_diag. simpl.
  rewrite <- app_assoc. reflexivity.
Qed.

Variables mp ms my mw md r_spec r_ying : nat.
Local Abbreviation part := (partial zero mp ms my mw md r_spec r_ying).
Local Abbreviation fit := (fits mp ms my mw md r_spec r_ying).

Lemma copy_row_step (batch : list (@Item A)) (ids : list nat)
    (xs : list (@Item A)) (x : @Item A) (id m : nat) :
  ids !! length xs = Some id -> batch !! id = Some x -> fit x ->
  copy_row batch ids (part xs (S m)) (length xs)
  = Ok (part (xs ++ [x]) m).
Proof.
  intros Hid Hx (Hp & Hs & Hy & Hw & Hd & Hrs & Hry & Hrw).
  unfold copy_row, Py.index_nat. rewrite Hid. cbn [bind]. rewrite Hx.
  unfold partial.
  cbn [bind collated phonemes_padded phonemes_lengths spec_padded
         spec_lengths ying_padded ying_lengths wav_padded wav_lengths
         phndur_padded].
  rewrite assign_row1_slot by (rewrite ?length_map; auto). cbn [bind].
  rewrite set_item_slot by (rewrite ?length_map; auto). cbn [bind].
  rewrite assign_row2_slot by (rewrite ?length_map; auto). cbn [bind].
  rewrite set_item_slot by (rewrite ?length_map; auto). cbn [bind].
  rewrite assign_row2_slot by (rewrite ?length_map; auto). cbn [bind].
  rewrite set_item_slot by (rewrite ?length_map; auto). cbn [bind].
  rewrite assign_row2_slot by (rewrite ?length_map; auto). cbn [bind].
  rewrite set_item_slot by (rewrite ?length_map; auto). cbn [bind].
  rewrite assign_row1_slot by (rewrite ?length_map; auto). cbn [bind].
  rewrite !map_app. reflexivity.
Qed.

Lemma copy_rows_spec (batch : list (@Item A)) (ids : list nat)
    (rest : list (@Item A)) :
  forall (xs : list (@Item A)),
    Forall2 (fun id x => batch !! id = Some x) ids (xs ++ rest) ->
    Forall fit rest ->
    copy_rows batch ids (part xs (length rest))
      (seq (length xs) (length rest))
    = Ok (part (xs ++ rest) 0).
Proof.
  induction rest as [|x rest IH]; intros xs Hall Hfit.
  - simpl. rewrite app_nil_r. reflexivity.
  - inversion Hfit as [|? ? Hx Hrest]; subst.
    assert (Hk : (xs ++ x :: rest) !! length xs = Some x).
    { rewrite lookup_app_r by lia. rewrite Nat.sub_diag. reflexivity. }
    destruct (Forall2_lookup_r _ _ _ _ _ Hall Hk) as (id & Hid & Hb).
    cbn [length seq copy_rows].
    rewrite (copy_row_step batch ids xs x id (length rest) Hid Hb Hx).
    cbn [bind].
    replace (S (length xs)) with (length (xs ++ [x]))
      by (rewrite length_app; simpl; lia).
    rewrite IH; [|rewrite <- app_assoc; exact Hall|exact Hrest].
    rewrite <- app_assoc. reflexivity.
Qed.
End CollateLoop.

Section CollateSpec.
Import TextAudioLoader TextAudioCollate.
Context {A : Type}.
Variable zero : A.
Variable torch_sort_descending : list Z -> list Z * list nat.

Lemma omap_lookup_shift {B : Type} (x : B) (l : list B) (n : nat) :
  forall k, omap (fun i => (x :: l) !! i) (seq (S k) n)
            = omap (fun i => l !! i) (seq k n).
Proof.
  induction n as [|n IH]; intros k; simpl; [reflexivity|].
  rewrite IH. reflexivity.
Qed.

Lemma omap_lookup_seq {B : Type} (l : list B) :
  omap (fun i => l !! i) (seq 0 (length l)) = l.
Proof.
  induction l as [|x l IH]; simpl; [reflexivity|].
  rewrite omap_lookup_shift, IH. reflexivity.
Qed.

Lemma Forall2_lookup_omap {B : Type} (l : list B) (ids : list nat) (xs : list B) :
  Forall2 (fun id x => l !! id = Some x) ids xs ->
  xs = omap (fun i => l !! i) ids.
Proof.
  induction 1 as [|id x ids xs Hx _ IH]; simpl; [reflexivity|].
  rewrite Hx. simpl. f_equal. exact IH.
Qed.

Lemma lookup_all {B : Type} (l : list B) (ids : list nat) :
  Forall (fun id => (id < length l)%nat) ids ->
  exists xs, Forall2 (fun id x => l !! id = Some x) ids xs.
Proof.
  induction 1 as [|id ids Hid _ (xs & Hxs)].
  - exists []. constructor.
  - destruct (lookup_lt_is_Some_2 l id Hid) as [x Hx].
    exists (x :: xs). constructor; assumption.
Qed.

Lemma partial_0 (mp ms my mw md r_spec r_ying : nat) (xs : list (@Item A)) :
  partial zero mp ms my mw md r_spec r_ying xs 0
  = collated zero xs mp ms my mw md.
Proof. unfold partial, collated. simpl. rewrite !app_nil_r. reflexivity. Qed.

Lemma max_map_spec {B : Type} (f : B -> nat) (l : list B) :
  l <> [] ->
  exists m, Py.max_ (map f l) = Ok m /\ Forall (fun x => (f x <= m)%nat) l /\
            exists x, x ∈ l /\ f x = m.
Proof.
  intros Hne. destruct (max_spec (map f l)) as (m & Em & Hm & Hin).
  - destruct l; [congruence|discriminate].
  - exists m. split; [exact Em|]. split; [apply Forall_fmap in Hm; exact Hm|].
    apply list_elem_of_fmap in Hin as (x & -> & Hx). eauto.
Qed.

(** The collator on a non-empty batch whose examples agree on their
    channel counts: the rows of the output are the examples in the order
    [torch.sort] returned, each padded to the maxima of the batch. *)
Lemma collate_spec (batch : list (@Item A)) :
  sort_ok torch_sort_descending -> batch <> [] -> same_channels batch ->
  exists xs mp ms my mw md,
    __call__ zero torch_sort_descending batch
    = Ok (collated zero xs mp ms my mw md) /\
    xs ≡ₚ batch /\
    Sorted Z.ge (map (fun x => Z.of_nat (size1 (spec x))) xs) /\
    Py.max_ (map (fun x => length (phonemes x)) batch) = Ok mp /\
    Py.max_ (map (fun x => size1 (spec x)) batch) = Ok ms /\
    Py.max_ (map (fun x => size1 (ying x)) batch) = Ok my /\
    Py.max_ (map (fun x => size1 (wav x)) batch) = Ok mw /\
    Py.max_ (map (fun x => length (phn_dur x)) batch) = Ok md.
Proof.
  intros Hsort Hne Hch.
  set (keys := map (fun x => Z.of_nat (size1 (spec x))) batch).
  destruct (Hsort keys) as (Hperm & Hvals & Hsorted).
  unfold __call__. fold keys.
  destruct (torch_sort_descending keys) as [vals ids]. simpl in Hperm, Hvals, Hsorted.
  assert (Hn : length keys = length batch) by apply length_map.
  rewrite Hn in Hperm.
  destruct (max_map_spec (fun x => length (phonemes x)) batch Hne) as (mp & Emp & Hmp & _).
  destruct (max_map_spec (fun x => size1 (spec x)) batch Hne) as (ms & Ems & Hms & _).
  destruct (max_map_spec (fun x => size1 (ying x)) batch Hne) as (my & Emy & Hmy & _).
  destruct (max_map_spec (fun x => size1 (wav x)) batch Hne) as (mw & Emw & Hmw & _).
  destruct (max_map_spec (fun x => length (phn_dur x)) batch Hne) as (md & Emd & Hmd & _).
  destruct (lookup_all batch ids) as (xs & Hxs).
  { rewrite Hperm. apply Forall_seq. intros; lia. }
  assert (Hxsp : xs ≡ₚ batch).
  { rewrite (Forall2_lookup_omap _ _ _ Hxs), Hperm, omap_lookup_seq. reflexivity. }
  assert (Hv : map (fun x => Z.of_nat (size1 (spec x))) xs = vals).
  { clear -Hxs Hvals. revert vals Hvals.
    induction Hxs as [|id x ids xs Hx _ IH]; intros vals Hvals;
      inversion Hvals as [|? v ? vals' Hv Hrest]; subst; simpl; [reflexivity|].
    f_equal; [|apply IH; exact Hrest].
    unfold keys in Hv. rewrite list_lookup_fmap, Hx in Hv.
    inversion Hv. reflexivity. }
  clearbody keys.
  destruct batch as [|b0 rest] eqn:Eb; [congruence|]. rewrite <- Eb in *.
  assert (Hb0 : head batch = Some b0) by (rewrite Eb; reflexivity).
  specialize (Hch b0 Hb0).
  exists xs, mp, ms, my, mw, md.
  split; [|split; [exact Hxsp|split; [|auto 10]]].
  - rewrite Emp, Ems, Emy, Emw, Emd. cbn [bind].
    replace (Py.index batch 0) with (Ok b0) by (rewrite Eb; reflexivity).
    cbn [bind].
    assert (Hlen : length ids = length xs) by (eapply Forall2_length; eauto).
    assert (Hlb : length batch = length xs) by (rewrite Hxsp; reflexivity).
    rewrite Hlen, Hlb.
    rewrite <- (partial_0 mp ms my mw md (size0 (spec b0)) (size0 (ying b0))).
    apply (copy_rows_spec zero mp ms my mw md (size0 (spec b0)) (size0 (ying b0))
             batch ids xs []).
    + exact Hxs.
    + rewrite Hxsp.
      repeat match goal with
             | H : Forall _ batch |- _ => rewrite Forall_forall in H
             end.
      apply Forall_forall. intros x Hx. unfold fits.
      destruct (Hch x Hx) as (? & ? & ?).
      pose proof (Hmp x Hx). pose proof (Hms x Hx). pose proof (Hmy x Hx).
      pose proof (Hmw x Hx). pose proof (Hmd x Hx). simpl in *. auto 10.
  - rewrite Hv. exact Hsorted.
Qed.
End CollateSpec.

Lemma fixture_same_channels : same_channels CollateFixture.batch.
Proof.
  intros b0 H. inversion H; subst b0. repeat constructor.
Qed.

Section CollateClaims.
Import TextAudioLoader TextAudioCollate.
Context {A : Type}.
Variable zero : A.
Variable torch_sort_descending : list Z -> list Z * list nat.

Lemma Sorted_ge_head (l : list Z) (x v : Z) :
  Sorted Z.ge l -> head l = Some x -> v ∈ l -> v <= x.
Proof.
  intros Hs Hh Hv. apply Sorted_StronglySorted in Hs; [|intros ???; lia].
  destruct Hs as [|a l Hs Hall]; [discriminate|].
  simpl in Hh. inversion Hh; subst a.
  apply elem_of_cons in Hv as [->|Hv]; [lia|].
  rewrite Forall_forall in Hall. specialize (Hall v Hv). lia.
Qed.

(** C7, amended.  On a non-empty batch the collator copies the examples
    in the order [torch.sort] gives for their acoustic frame counts
    [spec.size(1)], descending: the rows of the output are a permutation
    [xs] of the batch, every field holds row [i] of [xs] in its row [i],
    the frame counts of the rows do not increase, and row 0 belongs to an
    example with the largest frame count of the batch. *)
Theorem collate_sorted_by_frames (batch : list (@Item A)) :
  sort_ok torch_sort_descending -> batch <> [] -> same_channels batch ->
  exists out xs mp ms my mw md,
    __call__ zero torch_sort_descending batch = Ok out /\
    out = collated zero xs mp ms my mw md /\
    xs ≡ₚ batch /\
    spec_lengths out = map (fun x => Z.of_nat (size1 (spec x))) xs /\
    phonemes_lengths out = map (fun x => Z.of_nat (length (phonemes x))) xs /\
    Sorted Z.ge (spec_lengths out) /\
    Py.max_ (map (fun x => size1 (spec x)) batch) = Ok ms /\
    head (spec_lengths out) = Some (Z.of_nat ms).
Proof.
  intros Hsort Hne Hch.
  destruct (collate_spec zero torch_sort_descending batch Hsort Hne Hch)
    as (xs & mp & ms & my & mw & md & Hcall & Hperm & Hsorted & _ & Ems & _).
  exists (collated zero xs mp ms my mw md), xs, mp, ms, my, mw, md.
  split; [exact Hcall|]. split; [reflexivity|]. split; [exact Hperm|].
  cbn [collated spec_lengths phonemes_lengths].
  split; [reflexivity|]. split; [reflexivity|]. split; [exact Hsorted|].
  split; [exact Ems|].
  destruct (max_map_spec (fun x => size1 (spec x)) batch Hne)
    as (m & Em & Hm & x & Hx & Hfx).
  assert (m = ms) by congruence. subst m.
  destruct xs as [|x0 xs'] eqn:Exs.
  { apply Permutation_nil_l in Hperm. congruence. }
  rewrite <- Exs in *. 
  assert (Hhead : head (map (fun x => Z.of_nat (size1 (spec x))) xs)
                  = Some (Z.of_nat (size1 (spec x0)))).
  { rewrite Exs. reflexivity. }
  rewrite Hhead. f_equal.
  assert (Hle : Z.of_nat ms <= Z.of_nat (size1 (spec x0))).
  { eapply Sorted_ge_head; [exact Hsorted|exact Hhead|].
    apply list_elem_of_fmap. exists x. split; [lia|].
    rewrite Hperm. exact Hx. }
  assert (Hx0 : x0 ∈ batch).
  { rewrite <- Hperm, Exs. apply list_elem_of_here. }
  rewrite Forall_forall in Hm. specialize (Hm x0 Hx0). simpl in Hm. lia.
Qed.

(** C10, amended.  On a non-empty batch the collator returns nine
    tensors: for each of the five fields a zero-initialised container at
    the maximum length of that field in the batch, holding each copied
    example in the leading positions of its row, and for the text units,
    the acoustic features, the secondary features and the waveform a
    vector of the true lengths.  No length vector is returned for the
    duration annotations. *)
Theorem collate_padded_fields (batch : list (@Item A)) :
  sort_ok torch_sort_descending -> batch <> [] -> same_channels batch ->
  exists out xs mp ms my mw md,
    __call__ zero torch_sort_descending batch = Ok out /\
    xs ≡ₚ batch /\
    Py.max_ (map (fun x => length (phonemes x)) batch) = Ok mp /\
    Py.max_ (map (fun x => size1 (spec x)) batch) = Ok ms /\
    Py.max_ (map (fun x => size1 (ying x)) batch) = Ok my /\
    Py.max_ (map (fun x => size1 (wav x)) batch) = Ok mw /\
    Py.max_ (map (fun x => length (phn_dur x)) batch) = Ok md /\
    phonemes_padded out = map (fun x => pad1 (phonemes x) mp) xs /\
    spec_padded out = map (fun x => pad_cols zero (spec x) ms) xs /\
    ying_padded out = map (fun x => pad_cols zero (ying x) my) xs /\
    wav_padded out = map (fun x => pad_cols zero (wav x) mw) xs /\
    phndur_padded out = map (fun x => pad1 (phn_dur x) md) xs /\
    length (return_tuple out) = 9%nat /\
    length_vectors (return_tuple out)
    = [ map (fun x => Z.of_nat (length (phonemes x))) xs;
        map (fun x => Z.of_nat (size1 (spec x))) xs;
        map (fun x => Z.of_nat (size1 (ying x))) xs;
        map (fun x => Z.of_nat (size1 (wav x))) xs ].
Proof.
  intros Hsort Hne Hch.
  destruct (collate_spec zero torch_sort_descending batch Hsort Hne Hch)
    as (xs & mp & ms & my & mw & md & Hcall & Hperm & _ & Hmaxes).
  exists (collated zero xs mp ms my mw md), xs, mp, ms, my, mw, md.
  split; [exact Hcall|]. split; [exact Hperm|].
  destruct Hmaxes as (? & ? & ? & ? & ?).
  repeat (split; [assumption|]).
  repeat (split; [reflexivity|]). reflexivity.
Qed.
End CollateClaims.

Lemma collate_sorted_by_frames_witness :
  exists out,
    TextAudioCollate.__call__ 0 SortFixture.torch_sort_descending
      CollateFixture.batch = Ok out /\
    TextAudioCollate.spec_lengths out = [6; 3].
Proof.
  destruct (collate_sorted_by_frames 0 SortFixture.torch_sort_descending
              CollateFixture.batch sort_fixture_ok ltac:(discriminate)
              fixture_same_channels)
    as (out & xs & mp & ms & my & mw & md & Hcall & _).
  exists out. split; [exact Hcall|].
  vm_compute in Hcall. inversion Hcall. reflexivity.
Defined.

Lemma collate_padded_fields_witness :
  exists out,
    TextAudioCollate.__call__ 0 SortFixture.torch_sort_descending
      CollateFixture.batch = Ok out /\
    TextAudioCollate.phndur_padded out = [[2; 2; 2; 0; 0]; [1; 0; 1; 0; 1]].
Proof.
  destruct (collate_padded_fields 0 SortFixture.torch_sort_descending
              CollateFixture.batch sort_fixture_ok ltac:(discriminate)
              fixture_same_channels)
    as (out & xs & mp & ms & my & mw & md & Hcall & _).
  exists out. split; [exact Hcall|].
  vm_compute in Hcall. inversion Hcall. reflexivity.
Defined.

(** C7 fails as stated: the sort key is the frame count.  In this batch the
    example with five text units has three frames and the one with three
    text units has six; row 0 of the output is the shorter text, and the
    text lengths of the rows increase. *)
Lemma collate_not_sorted_by_text :
  sort_ok SortFixture.torch_sort_descending /\
  exists out,
    TextAudioCollate.__call__ 0 SortFixture.torch_sort_descending
      CollateFixture.batch = Ok out /\
    TextAudioCollate.phonemes_lengths out = [3; 5] /\
    head (TextAudioCollate.phonemes_padded out) = Some [7; 8; 9; 0; 0] /\
    ~ Sorted Z.ge (TextAudioCollate.phonemes_lengths out).
Proof.
  split; [exact sort_fixture_ok|].
  eexists. split; [vm_compute; reflexivity|]. simpl.
  split; [reflexivity|]. split; [reflexivity|].
  intros H. inversion H as [|? ? _ Hhd]; subst.
  inversion Hhd as [|? ? Hge]; subst. lia.
Qed.

(** C10 fails as stated: the tuple returned for this batch has nine
    members, four of them length vectors; none is returned for the
    duration annotations. *)
Lemma collate_four_length_vectors :
  exists out,
    TextAudioCollate.__call__ 0 SortFixture.torch_sort_descending
      CollateFixture.batch = Ok out /\
    length (TextAudioCollate.return_tuple out) = 9%nat /\
    TextAudioCollate.length_vectors (TextAudioCollate.return_tuple out)
    = [[3; 5]; [6; 3]; [6; 3]; [24; 12]] /\
    ~ (5 <= length (TextAudioCollate.length_vectors
                      (TextAudioCollate.return_tuple out)))%nat.
Proof.
  eexists. split; [vm_compute; reflexivity|]. simpl.
  split; [reflexivity|]. split; [reflexivity|]. lia.
Qed.

(** * Further properties of the sampler *)

(** ** Construction *)

Section MoreConstruction.
Import DistributedBucketSampler.

(** Whatever the boundaries, the search reads inside the list and
    returns [-1] or a position of its range. *)
Lemma _bisect_range (b : list Z) (x lo hi : Z) :
  0 <= lo -> hi <= Z.of_nat (length b) - 1 ->
  exists r, _bisect b x lo hi = Ok r /\ (r = -1 \/ lo <= r < hi).
Proof.
  funelim (_bisect b x lo hi); intros Hlo Hhi.
  all: try (pose proof (Z.div_mod (hi + lo) 2 ltac:(lia)) as Hdm;
            pose proof (Z.mod_pos_bound (hi + lo) 2 ltac:(lia)) as Hmb).
  all: try (match goal with
            | E : Py.index ?bs ?m = Raise _ |- _ =>
                destruct (index_in_range bs m ltac:(lia)) as (? & ? & _);
                congruence
            end).
  all: try congruence.
  all: try (eexists; split; [reflexivity|]; lia).
  all: match goal with
       | IH : 0 <= _ -> _ -> _ |- _ =>
           destruct IH as (r & Er & Hr); [lia|lia|];
           exists r; split; [exact Er|lia]
       end.
Qed.

Lemma fill_buckets_total (bd ls : list Z) :
  forall (i0 : nat) (bk0 : list (list nat)),
    length bk0 = Z.to_nat (Z.of_nat (length bd) - 1) ->
    exists bk, fill_buckets bd i0 ls bk0 = Ok bk /\ length bk = length bk0.
Proof.
  induction ls as [|x ls IH]; intros i0 bk0 Hlen; simpl; [eauto|].
  destruct (_bisect_range bd x 0 (Z.of_nat (length bd) - 1) ltac:(lia) ltac:(lia))
    as (r & Er & Hr).
  unfold bisect. rewrite Er. simpl.
  destruct (Z.eqb_spec r (-1)) as [_|Hne]; simpl; [apply IH; exact Hlen|].
  unfold bucket_append, Py.norm_index.
  destruct (Z.ltb_spec r 0); [lia|].
  destruct (Z.leb_spec 0 r); [|lia].
  destruct (Z.ltb_spec r (Z.of_nat (length bk0))); [|lia]. simpl.
  destruct (IH (S i0) (alter (fun b => b ++ [i0]) (Z.to_nat r) bk0))
    as (bk & Ebk & Hl); [rewrite length_alter; exact Hlen|].
  exists bk. split; [exact Ebk|]. rewrite Hl. apply length_alter.
Qed.

Lemma prune_step_empty (i : nat) (bk : list (list nat)) (bd : list Z)
    (b : list nat) (x : Z) :
  bk !! i = Some b -> length b = 0%nat -> bd !! (i + 1)%nat = Some x ->
  prune (S i) bk bd = prune i (delete i bk) (delete (i + 1)%nat bd).
Proof.
  intros Hb Hz Hx. cbn [prune]. unfold Py.index_nat, Py.pop.
  rewrite Hb. cbn [bind]. rewrite Hz. cbn [Nat.eqb]. rewrite Hx.
  reflexivity.
Qed.

Lemma prune_step_keep (i : nat) (bk : list (list nat)) (bd : list Z)
    (b : list nat) :
  bk !! i = Some b -> length b <> 0%nat ->
  prune (S i) bk bd = prune i bk bd.
Proof.
  intros Hb Hnz. cbn [prune]. unfold Py.index_nat.
  rewrite Hb. cbn [bind].
  destruct (Nat.eqb_spec (length b) 0); [contradiction|reflexivity].
Qed.

Lemma pruned_boundaries_snoc (bk : list (list nat)) (b : list nat)
    (b0 u : Z) (ups : list Z) :
  length ups = length bk ->
  pruned_boundaries (bk ++ [b]) (b0 :: ups ++ [u])
  = pruned_boundaries bk (b0 :: ups) ++ (if survives b then [u] else []).
Proof.
  intros Hl. unfold pruned_boundaries.
  rewrite zip_with_app by (symmetry; exact Hl).
  rewrite List.filter_app, map_app. cbn [zip_with List.filter fst].
  destruct (survives b); reflexivity.
Qed.

(** The pruning loop on the positions below [length bk], the lists
    going on with [sb] and [sd] behind them. *)
Lemma prune_frame (bk : list (list nat)) :
  forall (b0 : Z) (ups : list Z) (sb : list (list nat)) (sd : list Z),
    length ups = length bk ->
    prune (length bk) (bk ++ sb) ((b0 :: ups) ++ sd)
    = Ok (List.filter survives bk ++ sb,
          pruned_boundaries bk (b0 :: ups) ++ sd).
Proof.
  induction bk as [|b bk IH] using rev_ind; intros b0 ups sb sd Hlen.
  - destruct ups; [reflexivity|discriminate].
  - destruct ups as [|u ups _] using rev_ind;
      [rewrite length_app in Hlen; simpl in Hlen; lia|].
    rewrite !length_app in Hlen. simpl in Hlen.
    assert (Hl : length ups = length bk) by lia.
    rewrite pruned_boundaries_snoc by exact Hl.
    rewrite List.filter_app. cbn [List.filter].
    replace (length (bk ++ [b])) with (S (length bk))
      by (rewrite length_app; simpl; lia).
    replace ((bk ++ [b]) ++ sb) with (bk ++ b :: sb)
      by (rewrite <- app_assoc; reflexivity).
    replace ((b0 :: ups ++ [u]) ++ sd) with ((b0 :: ups) ++ u :: sd)
      by (simpl; rewrite <- app_assoc; reflexivity).
    assert (Hb : (bk ++ b :: sb) !! length bk = Some b).
    { rewrite lookup_app_r by lia. rewrite Nat.sub_diag. reflexivity. }
    assert (Hu : ((b0 :: ups) ++ u :: sd) !! (length bk + 1)%nat = Some u).
    { rewrite lookup_app_r by (simpl; lia).
      replace (length bk + 1 - length (b0 :: ups))%nat with 0%nat
        by (simpl; lia).
      reflexivity. }
    unfold survives at 2 3.
    destruct (Nat.eqb_spec (length b) 0) as [Hz|Hnz]; cbn [negb].
    + rewrite (prune_step_empty _ _ _ b u Hb Hz Hu).
      assert (Hd1 : delete (length bk) (bk ++ b :: sb) = bk ++ sb).
      { apply delete_middle. }
      assert (Hd2 : delete (length bk + 1)%nat ((b0 :: ups) ++ u :: sd)
                    = (b0 :: ups) ++ sd).
      { replace (length bk + 1)%nat with (length (b0 :: ups)) by (simpl; lia).
        apply delete_middle. }
      rewrite Hd1, Hd2, (IH b0 ups sb sd Hl), !app_nil_r. reflexivity.
    + rewrite (prune_step_keep _ _ _ b Hb Hnz).
      rewrite (IH b0 ups (b :: sb) (u :: sd) Hl).
      rewrite <- !app_assoc. reflexivity.
Qed.
End MoreConstruction.

Section InitUnfold.
Import DistributedBucketSampler.

Lemma length_pruned_boundaries (bk : list (list nat)) (b0 : Z) (ups : list Z) :
  length ups = length bk ->
  length (pruned_boundaries bk (b0 :: ups))
  = S (length (List.filter survives bk)).
Proof.
  unfold pruned_boundaries. simpl. rewrite length_map. intros Hl. f_equal.
  revert ups Hl. induction bk as [|b bk IH]; intros ups Hl;
    destruct ups as [|u ups]; try discriminate; simpl; [reflexivity|].
  destruct (survives b); simpl; rewrite (IH ups) by (simpl in Hl; lia);
    reflexivity.
Qed.

(** [__init__] once the fill loop has run: the pruning is a filter, and
    what is left is the padding of the surviving buckets and the
    division of the total. *)
Lemma init_unfold (ls : list Z) (bs : nat) (bd : list Z) (w r : nat)
    (sh : bool) :
  (r < w)%nat ->
  exists pre,
    fill_buckets bd 0 ls (replicate (Z.to_nat (Z.of_nat (length bd) - 1)) [])
    = Ok pre /\
    length pre = Z.to_nat (Z.of_nat (length bd) - 1) /\
    __init__ ls bs bd w r sh
    = bind (mapM (fun b => padded_size w bs (length b))
              (List.filter survives pre))
        (fun nspb =>
           bind (Py.floordiv (Py.sum_nat nspb) w)
             (fun ns =>
                Ok (mkSampler ls bs (pruned_boundaries pre bd) w r sh 0
                      (List.filter survives pre) nspb (Py.sum_nat nspb) ns []))).
Proof.
  intros Hr.
  destruct (fill_buckets_total bd ls 0
              (replicate (Z.to_nat (Z.of_nat (length bd) - 1)) []))
    as (pre & Epre & Hl); [apply length_replicate|].
  rewrite length_replicate in Hl.
  exists pre. split; [exact Epre|]. split; [exact Hl|].
  unfold __init__, _create_buckets.
  destruct (Nat.leb_spec w r) as [?|_]; [lia|].
  cbn [lengths boundaries bind].
  rewrite Epre. cbn [bind].
  assert (Hprune : prune (length pre) pre bd
                   = Ok (List.filter survives pre, pruned_boundaries pre bd)).
  { destruct bd as [|b0 ups].
    - simpl in Hl. destruct pre; [reflexivity|discriminate].
    - pose proof (prune_frame pre b0 ups [] []) as H.
      rewrite !app_nil_r in H. apply H. simpl in Hl. lia. }
  rewrite Hprune. cbn [bind num_replicas batch_size].
  destruct (mapM _ _) as [nspb|e]; cbn [bind]; [|reflexivity].
  destruct (Py.floordiv _ _); reflexivity.
Qed.

Lemma init_invalid_rank (ls : list Z) (bs : nat) (bd : list Z) (w r : nat)
    (sh : bool) :
  (w <= r)%nat -> __init__ ls bs bd w r sh = Raise ValueError.
Proof.
  intros Hr. unfold __init__.
  destruct (Nat.leb_spec w r) as [_|?]; [reflexivity|lia].
Qed.
End InitUnfold.

(** The padded size of a bucket is the least multiple of
    [num_replicas * batch_size] that is at least the bucket size. *)
Theorem padded_size_least_multiple (w bs len : nat) :
  (1 <= w)%nat -> (1 <= bs)%nat ->
  exists p,
    DistributedBucketSampler.padded_size w bs len = Ok p /\
    (p mod (w * bs) = 0)%nat /\ (len <= p)%nat /\
    (forall q, (q mod (w * bs) = 0)%nat -> (len <= q)%nat -> (p <= q)%nat).
Proof.
  intros Hw Hbs. destruct (padded_size_spec w bs len Hw Hbs) as (k & Ek & Hk).
  exists (w * bs * k)%nat. split; [exact Ek|]. split.
  - rewrite Nat.mul_comm. apply Nat.Div0.mod_mul.
  - split; [lia|]. intros q Hq Hle.
    apply Nat.Div0.div_exact in Hq.
    set (T := (w * bs)%nat) in *. set (m := (q / T)%nat) in *.
    assert (Hkm : (k <= m)%nat).
    { destruct (Nat.le_gt_cases k m) as [H|H]; [exact H|exfalso].
      assert (T * (m + 1) <= T * k)%nat by (apply Nat.mul_le_mono_l; lia).
      lia. }
    rewrite Hq. apply Nat.mul_le_mono_l. exact Hkm.
Qed.

Lemma padded_size_least_multiple_witness :
  DistributedBucketSampler.padded_size 2 2 5 = Ok 8%nat.
Proof.
  destruct (padded_size_least_multiple 2 2 5 ltac:(lia) ltac:(lia))
    as (p & Ep & Hm & Hle & Hmin).
  rewrite Ep. f_equal.
  pose proof (Hmin 8%nat eq_refl ltac:(lia)).
  vm_compute in Ep. inversion Ep. reflexivity.
Defined.

(** The pruning loop keeps the non-empty buckets in their order and
    removes the upper boundary of each bucket it drops, so that one
    boundary more than buckets is left. *)
Theorem prune_keeps_order (bk : list (list nat)) (b0 : Z) (ups : list Z) :
  length ups = length bk ->
  DistributedBucketSampler.prune (length bk) bk (b0 :: ups)
  = Ok (List.filter survives bk, pruned_boundaries bk (b0 :: ups)) /\
  length (pruned_boundaries bk (b0 :: ups))
  = S (length (List.filter survives bk)).
Proof.
  intros Hl. split; [|apply length_pruned_boundaries; exact Hl].
  pose proof (prune_frame bk b0 ups [] [] Hl) as H.
  rewrite !app_nil_r in H. exact H.
Qed.

Lemma prune_keeps_order_witness :
  DistributedBucketSampler.prune 3 [[0%nat]; []; [1%nat; 2%nat]] [0; 10; 20; 30]
  = Ok ([[0%nat]; [1%nat; 2%nat]], [0; 10; 30]).
Proof.
  exact (proj1 (prune_keeps_order [[0%nat]; []; [1%nat; 2%nat]] 0 [10; 20; 30]
                  eq_refl)).
Defined.


(** For a rank below [num_replicas] and [batch_size >= 1] construction
    succeeds for every list of lengths and every list of boundaries,
    ascending or not, empty or not: the sampler holds the non-empty
    buckets of the fill loop in their order and the boundaries pruned
    with them. *)
Theorem init_total (ls : list Z) (bs : nat) (bd : list Z) (w r : nat) (sh : bool) :
  (r < w)%nat -> (1 <= bs)%nat ->
  exists pre s,
    DistributedBucketSampler.fill_buckets bd 0 ls
      (replicate (Z.to_nat (Z.of_nat (length bd) - 1)) []) = Ok pre /\
    DistributedBucketSampler.__init__ ls bs bd w r sh = Ok s /\
    DistributedBucketSampler.buckets s = List.filter survives pre /\
    DistributedBucketSampler.boundaries s = pruned_boundaries pre bd /\
    DistributedBucketSampler.lengths s = ls /\
    (bd <> [] ->
     length (DistributedBucketSampler.boundaries s)
     = S (length (DistributedBucketSampler.buckets s))).
Proof.
  intros Hr Hbs. assert (Hw : (1 <= w)%nat) by lia.
  destruct (init_unfold ls bs bd w r sh Hr) as (pre & Epre & Hl & Hinit).
  destruct (mapM_total (fun _ => True)
              (fun b : list nat => DistributedBucketSampler.padded_size w bs (length b))
              (List.filter survives pre)) as (nspb & En & _ & _).
  { apply Forall_forall. intros b _.
    destruct (padded_size_spec w bs (length b) Hw Hbs) as (k & Ek & _). eauto. }
  rewrite En in Hinit. cbn [bind] in Hinit. unfold Py.floordiv in Hinit.
  destruct (Nat.eqb_spec w 0) as [?|_]; [lia|]. cbn [bind] in Hinit.
  eexists pre, _. split; [exact Epre|]. split; [exact Hinit|]. simpl.
  split; [reflexivity|]. split; [reflexivity|]. split; [reflexivity|].
  intros Hne. destruct bd as [|b0 ups]; [congruence|].
  apply length_pruned_boundaries. simpl in Hl. lia.
Qed.

Lemma init_total_witness :
  exists s,
    DistributedBucketSampler.__init__ [25; 5; 15] 2 [30; 0; 10] 2 0 false = Ok s.
Proof.
  destruct (init_total [25; 5; 15] 2 [30; 0; 10] 2 0 false ltac:(lia) ltac:(lia))
    as (pre & s & _ & Hs & _).
  exists s. exact Hs.
Defined.

(** The errors of construction.  The base class is constructed first and
    raises [ValueError] for a rank that is not below [num_replicas], so
    also for [num_replicas = 0], before anything is divided.  For a rank
    below [num_replicas], [batch_size = 0] raises [ZeroDivisionError] as
    soon as one example is kept (line 264), and gives a sampler without
    buckets when none is. *)
Theorem init_errors (ls : list Z) (bs : nat) (bd : list Z) (w r : nat)
    (sh : bool) :
  exists pre,
    DistributedBucketSampler.fill_buckets bd 0 ls
      (replicate (Z.to_nat (Z.of_nat (length bd) - 1)) []) = Ok pre /\
    ((w <= r)%nat ->
     DistributedBucketSampler.__init__ ls bs bd w r sh = Raise ValueError) /\
    ((r < w)%nat -> bs = 0%nat -> List.filter survives pre <> [] ->
     DistributedBucketSampler.__init__ ls bs bd w r sh = Raise ZeroDivisionError) /\
    ((r < w)%nat -> List.filter survives pre = [] ->
     exists s, DistributedBucketSampler.__init__ ls bs bd w r sh = Ok s /\
               DistributedBucketSampler.buckets s = []).
Proof.
  destruct (fill_buckets_total bd ls 0
              (replicate (Z.to_nat (Z.of_nat (length bd) - 1)) []))
    as (pre & Epre & _); [apply length_replicate|].
  exists pre. split; [exact Epre|]. split; [|split].
  - apply init_invalid_rank.
  - intros Hr -> Hne.
    destruct (init_unfold ls 0 bd w r sh Hr) as (pre' & Epre' & _ & Hinit).
    assert (pre' = pre) by congruence. subst pre'. rewrite Hinit.
    destruct (List.filter survives pre) as [|b rest]; [congruence|].
    cbn [mapM]. unfold DistributedBucketSampler.padded_size, Py.mod_.
    rewrite Nat.mul_0_r. reflexivity.
  - intros Hr Hnone.
    destruct (init_unfold ls bs bd w r sh Hr) as (pre' & Epre' & _ & Hinit).
    assert (pre' = pre) by congruence. subst pre'.
    rewrite Hinit, Hnone. cbn [mapM bind].
    unfold Py.floordiv. destruct (Nat.eqb_spec w 0) as [?|_]; [lia|].
    cbn [bind]. eexists. split; reflexivity.
Qed.

(** ** What an epoch yields *)

Section IterInversion.
Import DistributedBucketSampler.
Variable G : Type.
Variable manual_seed : Z -> result G.
Variable randperm : nat -> G -> list nat * G.

Lemma mapM_Ok_elem_of {A B : Type} (f : A -> result B) (l : list A)
    (ys : list B) (y : B) :
  mapM f l = Ok ys -> y ∈ ys -> exists x, x ∈ l /\ f x = Ok y.
Proof.
  rewrite mapM_Ok_Forall2. intros H Hy.
  apply list_elem_of_lookup in Hy as [i Hi].
  destruct (Forall2_lookup_r _ _ _ _ _ H Hi) as (x & Hx & Hfx).
  exists x. split; [eapply list_elem_of_lookup_2; eauto|exact Hfx].
Qed.

Lemma elem_of_concat {A : Type} (x : A) (ls : list (list A)) :
  x ∈ concat ls <-> exists l, x ∈ l /\ l ∈ ls.
Proof.
  rewrite list_elem_of_In, in_concat. split.
  - intros (l & Hl & Hx). exists l. rewrite !list_elem_of_In. auto.
  - intros (l & Hx & Hl). exists l. rewrite <- !list_elem_of_In. auto.
Qed.

(** A batch is [batch_size] examples of the bucket, read at local
    indices of the share. *)
Lemma make_batches_inv (bs : nat) (bucket ids : list nat)
    (bl : list (list nat)) :
  make_batches bs bucket ids = Ok bl ->
  Forall (fun b => length b = bs /\ Forall (fun e => e ∈ bucket) b) bl.
Proof.
  unfold make_batches, Py.floordiv. intros H.
  destruct (Nat.eqb_spec bs 0) as [|Hbs]; [discriminate|]. cbn [bind] in H.
  apply Forall_forall. intros b Hb.
  destruct (mapM_Ok_elem_of _ _ _ _ H Hb) as (j & Hj & Ej).
  apply elem_of_seq in Hj as [_ Hj]. simpl in Hj.
  apply mapM_Ok_Forall2 in Ej.
  pose proof (Nat.Div0.mul_div_le (length ids) bs) as Hle.
  split.
  - rewrite <- (Forall2_length _ _ _ Ej). unfold Py.slice.
    rewrite length_take, length_drop. nia.
  - eapply Forall2_Forall_r; [exact Ej|].
    apply Forall_forall. intros idx _ e He.
    apply index_nat_Ok in He. eapply list_elem_of_lookup_2; eauto.
Qed.

(** What a returned epoch went through. *)
Lemma iter_inv (s s' : Sampler) (bl : list (list nat)) :
  __iter__ G manual_seed randperm s = Ok (s', bl) ->
  s' = set_batches s bl /\
  (length bl * batch_size s)%nat = num_samples s /\
  exists g0 pb,
    manual_seed (epoch s) = Ok g0 /\
    mapM (bucket_batches s (epoch_indices randperm s g0))
      (seq 0 (length (buckets s))) = Ok pb /\
    Forall (fun b => b ∈ concat pb) bl /\
    (randperm_ok randperm -> bl ≡ₚ concat pb).
Proof.
  unfold __iter__. intros H.
  destruct (manual_seed (epoch s)) as [g0|]; cbn [bind] in H; [|discriminate].
  enough (s' = set_batches s bl /\
          (length bl * batch_size s)%nat = num_samples s /\
          exists pb,
            mapM (bucket_batches s (epoch_indices randperm s g0))
              (seq 0 (length (buckets s))) = Ok pb /\
            Forall (fun b => b ∈ concat pb) bl /\
            (randperm_ok randperm -> bl ≡ₚ concat pb))
    as (H1 & H2 & pb & H3); [eauto 10|].
  unfold epoch_indices.
  destruct (if shuffle s then _ else _) as [indices g]. cbn [fst].
  inv_bind H. rename a into pb. inv_bind H. rename a into bl0.
  cbn [batches set_batches batch_size num_samples] in H.
  destruct (Nat.eqb_spec (length bl0 * batch_size s) (num_samples s))
    as [Hn|]; [|discriminate].
  inversion H; subst s' bl; clear H.
  split; [reflexivity|]. split; [exact Hn|].
  exists pb. split; [exact Ha|].
  destruct (shuffle s).
  - destruct (randperm (length (concat pb)) g) as [batch_ids g'] eqn:Er.
    split.
    + apply Forall_forall. intros b Hb.
      destruct (mapM_Ok_elem_of _ _ _ _ Ha0 Hb) as (i & _ & Ei).
      apply index_nat_Ok in Ei. eapply list_elem_of_lookup_2; eauto.
    + intros Hrp. pose proof (Hrp (length (concat pb)) g) as Hp.
      rewrite Er in Hp. simpl in Hp.
      apply mapM_Ok_Forall2 in Ha0.
      assert (HF : Forall2 (fun i b => concat pb !! i = Some b) batch_ids bl0).
      { eapply Forall2_impl; [exact Ha0|]. intros i b Hi.
        apply index_nat_Ok. exact Hi. }
      rewrite (Forall2_lookup_omap _ _ _ HF), Hp, omap_lookup_seq.
      reflexivity.
  - inversion Ha0; subst bl0. split; [|reflexivity].
    apply Forall_forall. auto.
Qed.

(** Every batch of an epoch comes from one bucket. *)
Lemma iter_batches_in_buckets (s s' : Sampler) (bl : list (list nat)) :
  __iter__ G manual_seed randperm s = Ok (s', bl) ->
  Forall (fun b => length b = batch_size s /\
                   exists bucket, bucket ∈ buckets s /\
                                  Forall (fun e => e ∈ bucket) b) bl.
Proof.
  intros H. apply iter_inv in H as (_ & _ & g0 & pb & _ & Hpb & Hin & _).
  eapply Forall_impl; [exact Hin|]. intros b Hb. simpl in Hb.
  apply elem_of_concat in Hb as (bli & Hb & Hbli).
  destruct (mapM_Ok_elem_of _ _ _ _ Hpb Hbli) as (i & _ & Ei).
  unfold bucket_batches in Ei.
  inv_bind Ei. inv_bind Ei. inv_bind Ei. inv_bind Ei.
  apply index_nat_Ok in Ha.
  apply make_batches_inv in Ei. rewrite Forall_forall in Ei.
  destruct (Ei b Hb) as [Hl He].
  split; [exact Hl|]. exists a. split; [|exact He].
  eapply list_elem_of_lookup_2; eauto.
Qed.
End IterInversion.

Section InitBuckets.
Import DistributedBucketSampler.

(** With ascending boundaries the buckets of a constructed sampler are
    the non-empty member lists of the lookup, in bucket order. *)
Lemma init_buckets_members (ls : list Z) (bs : nat) (bd : list Z) (w r : nat)
    (sh : bool) (s : Sampler) :
  Sorted Z.le bd ->
  __init__ ls bs bd w r sh = Ok s ->
  buckets s
  = List.filter survives
      (map (members bd 0 ls) (seq 0 (Z.to_nat (Z.of_nat (length bd) - 1)))).
Proof.
  intros Hs Hinit.
  destruct (init_unfold ls bs bd w r sh (init_rank_valid _ _ _ _ _ _ _ Hinit))
    as (pre & Epre & _ & Hu).
  rewrite (fill_buckets_members bd ls Hs) in Epre.
  inversion Epre; subst pre; clear Epre.
  rewrite Hu in Hinit. inv_bind Hinit. inv_bind Hinit.
  inversion Hinit. reflexivity.
Qed.

Lemma bucket_is_members (ls : list Z) (bs : nat) (bd : list Z) (w r : nat)
    (sh : bool) (s : Sampler) (bucket : list nat) :
  Sorted Z.le bd ->
  __init__ ls bs bd w r sh = Ok s ->
  bucket ∈ buckets s ->
  exists k : nat,
    Forall (fun i => exists x, ls !! i = Some x /\ in_bucket bd x (Z.of_nat k))
      bucket.
Proof.
  intros Hs Hinit Hb.
  rewrite (init_buckets_members _ _ _ _ _ _ _ Hs Hinit) in Hb.
  apply list_elem_of_In, filter_In in Hb as [Hb _].
  apply list_elem_of_In, list_elem_of_fmap in Hb as (k & -> & _).
  exists k. apply Forall_forall. intros i Hi.
  apply members_elem_of in Hi as (x & _ & Hx & Hg).
  rewrite Nat.sub_0_r in Hx. exists x. split; [exact Hx|].
  apply goes_to_in_bucket; assumption.
Qed.
End InitBuckets.

Section EpochProperties.
Import DistributedBucketSampler.
Variable G : Type.
Variable manual_seed : Z -> result G.
Variable randperm : nat -> G -> list nat * G.

(** Whenever [__iter__] returns, in whatever state the sampler is, every
    batch has exactly [batch_size] examples and all of them come from
    one bucket of the sampler. *)
Theorem batches_full_and_from_one_bucket (s s' : Sampler)
    (bl : list (list nat)) :
  __iter__ G manual_seed randperm s = Ok (s', bl) ->
  Forall (fun b => length b = batch_size s /\
                   exists bucket, bucket ∈ buckets s /\
                                  Forall (fun e => e ∈ bucket) b) bl.
Proof. apply iter_batches_in_buckets. Qed.

Lemma batch_interval (ls : list Z) (bs : nat) (bd : list Z) (w r : nat)
    (sh : bool) (s s' : Sampler) (e : Z) (bl : list (list nat)) :
  Sorted Z.le bd ->
  __init__ ls bs bd w r sh = Ok s ->
  __iter__ G manual_seed randperm (set_epoch s e) = Ok (s', bl) ->
  Forall (fun b =>
            exists k : nat,
              Forall (fun i => exists x, ls !! i = Some x /\
                                         in_bucket bd x (Z.of_nat k)) b) bl.
Proof.
  intros Hs Hinit Hiter.
  apply iter_batches_in_buckets in Hiter.
  eapply Forall_impl; [exact Hiter|].
  intros b (_ & bucket & Hbucket & Hall).
  change (buckets (set_epoch s e)) with (buckets s) in Hbucket.
  destruct (bucket_is_members _ _ _ _ _ _ _ _ Hs Hinit Hbucket) as (k & Hk).
  exists k. rewrite Forall_forall in Hk, Hall. apply Forall_forall.
  intros i Hi. apply Hk, Hall, Hi.
Qed.

(** The docstring of the class: on ascending boundaries the examples
    of a batch have their lengths in one interval
    [(boundaries[k], boundaries[k+1]]] of the boundaries the sampler was
    given. *)
Theorem batches_share_an_interval (ls : list Z) (bs : nat) (bd : list Z)
    (w r : nat) (sh : bool) (s s' : Sampler) (e : Z) (bl : list (list nat)) :
  Sorted Z.le bd ->
  __init__ ls bs bd w r sh = Ok s ->
  __iter__ G manual_seed randperm (set_epoch s e) = Ok (s', bl) ->
  Forall (fun b =>
            exists k : nat,
              Forall (fun i => exists x, ls !! i = Some x /\
                                         in_bucket bd x (Z.of_nat k)) b) bl.
Proof. apply batch_interval. Qed.

(** The docstring of the class: an example whose length is at most the
    first boundary or above the last one is in no batch of any epoch. *)
Theorem out_of_range_never_batched (ls : list Z) (bs : nat) (bd : list Z)
    (w r : nat) (sh : bool) (s s' : Sampler) (e : Z) (bl : list (list nat))
    (i : nat) (x b0 blast : Z) :
  Sorted Z.le bd ->
  __init__ ls bs bd w r sh = Ok s ->
  __iter__ G manual_seed randperm (set_epoch s e) = Ok (s', bl) ->
  ls !! i = Some x -> head bd = Some b0 -> last bd = Some blast ->
  x <= b0 \/ blast < x ->
  Forall (fun b => i ∉ b) bl.
Proof.
  intros Hs Hinit Hiter Hx Hh Hl Hout.
  pose proof (batch_interval _ _ _ _ _ _ _ _ _ _ Hs Hinit Hiter) as H.
  eapply Forall_impl; [exact H|]. intros b (k & Hk) Hi.
  rewrite Forall_forall in Hk. destruct (Hk i Hi) as (x' & Hx' & Hin).
  assert (x' = x) by congruence. subst x'.
  pose proof (in_bucket_inside bd x _ b0 blast Hs Hh Hl Hin). lia.
Qed.

(** [len(sampler)] is the number of batches an epoch yields. *)
Theorem len_is_batch_count (s s' : Sampler) (bl : list (list nat)) :
  __iter__ G manual_seed randperm s = Ok (s', bl) ->
  (1 <= batch_size s)%nat ->
  __len__ s = Ok (length bl) /\ __len__ s' = Ok (length bl).
Proof.
  intros H Hbs. apply iter_inv in H as (-> & Hn & _).
  unfold __len__. cbn [set_batches num_samples batch_size].
  unfold Py.floordiv. destruct (Nat.eqb_spec (batch_size s) 0); [lia|].
  rewrite <- Hn, Nat.div_mul by lia. auto.
Qed.
End EpochProperties.

Lemma scenario_init :
  DistributedBucketSampler.__init__ Scenario.lengths 2 Scenario.boundaries 2 1 true
  = Ok Scenario.sampler.
Proof. vm_compute. reflexivity. Qed.

Lemma scenario_sorted : Sorted Z.le Scenario.boundaries.
Proof. repeat (constructor; try lia). Qed.

Lemma batches_full_and_from_one_bucket_witness :
  Forall (fun b => length b = 2%nat /\
                   exists bucket,
                     bucket ∈ [[0%nat]; [1%nat; 2%nat]; [3%nat; 4%nat]] /\
                     Forall (fun e => e ∈ bucket) b)
    [[0%nat; 0%nat]; [2%nat; 2%nat]; [3%nat; 3%nat]].
Proof.
  exact (batches_full_and_from_one_bucket nat GeneratorFixture.manual_seed
           GeneratorFixture.randperm
           (DistributedBucketSampler.set_epoch Scenario.sampler 3) _ _ eq_refl).
Defined.

Lemma batches_share_an_interval_witness :
  Forall (fun b =>
            exists k : nat,
              Forall (fun i => exists x, Scenario.lengths !! i = Some x /\
                                         in_bucket Scenario.boundaries x (Z.of_nat k))
                b)
    [[0%nat; 0%nat]; [2%nat; 2%nat]; [3%nat; 3%nat]].
Proof.
  exact (batches_share_an_interval nat GeneratorFixture.manual_seed
           GeneratorFixture.randperm Scenario.lengths 2 Scenario.boundaries 2 1
           true Scenario.sampler _ 3 _ scenario_sorted scenario_init eq_refl).
Defined.

Lemma out_of_range_never_batched_witness :
  Forall (fun b => 1%nat ∉ b) [[0%nat; 0%nat]].
Proof.
  refine (out_of_range_never_batched nat GeneratorFixture.manual_seed
            GeneratorFixture.randperm [5; 35] 2 [0; 10; 20; 30] 1 0 false
            (DistributedBucketSampler.mkSampler [5; 35] 2 [0; 10] 1 0 false 0
               [[0%nat]] [2%nat] 2 2 [])
            (DistributedBucketSampler.mkSampler [5; 35] 2 [0; 10] 1 0 false 0
               [[0%nat]] [2%nat] 2 2 [[0%nat; 0%nat]])
            0 [[0%nat; 0%nat]] 1 35 0 30 _ _ _ eq_refl eq_refl eq_refl _).
  - repeat (constructor; try lia).
  - vm_compute. reflexivity.
  - vm_compute. reflexivity.
  - right. lia.
Defined.

Lemma len_is_batch_count_witness :
  DistributedBucketSampler.__len__ Scenario.sampler = Ok 3%nat.
Proof.
  exact (proj1 (len_is_batch_count nat GeneratorFixture.manual_seed
                  GeneratorFixture.randperm Scenario.sampler _
                  [[4%nat; 4%nat]; [1%nat; 1%nat]; [0%nat; 0%nat]]
                  eq_refl ltac:(simpl; lia))).
Defined.

(** ** Padding by repetition and what it guarantees *)

Section Coverage.
Import DistributedBucketSampler.
Variable G : Type.
Variable manual_seed : Z -> result G.
Variable randperm : nat -> G -> list nat * G.

Lemma lookup_repeat_list {A : Type} (l : list A) (k p : nat) :
  (p < k * length l)%nat ->
  Py.repeat_list l k !! p = l !! (p mod length l)%nat.
Proof.
  revert p. induction k as [|k IH]; intros p Hp; simpl in *; [lia|].
  destruct (Nat.lt_ge_cases p (length l)) as [Hlt|Hge].
  - rewrite lookup_app_l by exact Hlt. rewrite Nat.mod_small by exact Hlt.
    reflexivity.
  - rewrite lookup_app_r by exact Hge. rewrite IH by lia.
    f_equal.
    replace p with ((p - length l) + 1 * length l)%nat at 2 by lia.
    rewrite Nat.Div0.mod_add. reflexivity.
Qed.

(** The extended list of lines 292-293, position by position. *)
Lemma extend_ids_lookup (ids : list nat) (len rem : nat) :
  (1 <= len)%nat -> length ids = len ->
  exists padded,
    extend_ids ids len (Z.of_nat rem) = Ok padded /\
    length padded = (len + rem)%nat /\
    forall p, (p < len + rem)%nat -> padded !! p = ids !! (p mod len)%nat.
Proof.
  intros Hpos Hlen.
  destruct (extend_ids_spec ids len rem Hpos Hlen) as (padded & E & Hp & Hl).
  exists padded. split; [exact E|]. split; [exact Hl|].
  intros p Hlt. rewrite Hp.
  pose proof (Nat.div_mod_eq rem len) as Hdm.
  pose proof (Nat.mod_upper_bound rem len ltac:(lia)) as Hub.
  destruct (Nat.lt_ge_cases p len) as [H1|H1].
  - rewrite lookup_app_l by lia. rewrite Nat.mod_small by exact H1. reflexivity.
  - rewrite lookup_app_r by lia. rewrite Hlen.
    destruct (Nat.lt_ge_cases (p - len) (rem / len * len)) as [H2|H2].
    + rewrite lookup_app_l by (rewrite length_repeat_list; lia).
      rewrite lookup_repeat_list by lia. rewrite Hlen. f_equal.
      replace p with ((p - len) + 1 * len)%nat at 2 by lia.
      rewrite Nat.Div0.mod_add. reflexivity.
    + rewrite lookup_app_r by (rewrite length_repeat_list; lia).
      rewrite length_repeat_list, Hlen.
      rewrite lookup_take_lt by lia. f_equal.
      apply (Nat.mod_unique p len (1 + rem / len)); lia.
Qed.

(** The padded index list of a bucket repeats the permuted local
    indices cyclically: position [p] holds [ids[p mod len]]. *)
Theorem extend_ids_cyclic (ids : list nat) (len rem : nat) (padded : list nat) :
  length ids = len ->
  extend_ids ids len (Z.of_nat rem) = Ok padded ->
  length padded = (len + rem)%nat /\
  forall p, (p < len + rem)%nat -> padded !! p = ids !! (p mod len)%nat.
Proof.
  intros Hlen Hext.
  assert (Hpos : (1 <= len)%nat).
  { unfold extend_ids, Py.floordivZ in Hext.
    destruct (Z.eqb_spec (Z.of_nat len) 0); [discriminate|lia]. }
  destruct (extend_ids_lookup ids len rem Hpos Hlen) as (padded' & E & Hl & Hp).
  assert (Heq : padded' = padded) by congruence.
  rewrite <- Heq. split; [exact Hl|exact Hp].
Qed.




End Coverage.

Lemma extend_ids_cyclic_witness :
  DistributedBucketSampler.extend_ids [2; 0; 1]%nat 3 (Z.of_nat 5)
  = Ok [2; 0; 1; 2; 0; 1; 2; 0]%nat /\
  [2; 0; 1; 2; 0; 1; 2; 0]%nat !! 7%nat = [2; 0; 1]%nat !! (7 mod 3)%nat.
Proof.
  split; [reflexivity|].
  apply (proj2 (extend_ids_cyclic [2; 0; 1]%nat 3 5 _ eq_refl eq_refl)). lia.
Defined.


(** ** The epoch across the ranks *)

Section ListFacts.
Context {A : Type}.







End ListFacts.

Section Examples.
Import DistributedBucketSampler.










End Examples.

Section SamplerClaims.
Import DistributedBucketSampler.
Variable G : Type.
Variable manual_seed : Z -> result G.
Variable randperm : nat -> G -> list nat * G.




End SamplerClaims.





(** ** The catalog: stored lengths, failures, construction *)

Section FilterMore.
Import TextAudioLoader.
Variable os_path_join : String.string -> String.string -> String.string.
Variable os_path_getsize : String.string -> result Z.

Lemma filter_loop_lengths (self : Loader) (rows new : list Row) (ls : list Z)
    (new' : list Row) (ls' : list Z) :
  filter_loop os_path_join os_path_getsize self rows new ls = Ok (new', ls') ->
  exists ls2,
    ls' = ls ++ ls2 /\
    Forall2 (sized os_path_getsize self)
      (map (stored os_path_join self) (List.filter (keeps self) rows)) ls2.
Proof.
  revert new ls. induction rows as [|[[id_ p] d] rest IH]; intros new ls H.
  - simpl in H. inversion H; subst. exists []. rewrite app_nil_r.
    split; [reflexivity|constructor].
  - simpl in H.
    change ((min_text_len self <=? len p) && (len p <=? max_text_len self))
      with (keeps self (id_, p, d)) in H.
    cbn [List.filter]. destruct (keeps self (id_, p, d)).
    + inv_bind H. inv_bind H. apply IH in H as (ls2 & -> & Hall).
      unfold Py.floordivZ in Ha0.
      destruct (Z.eqb_spec (2 * hop_length self) 0) as [|Hhop]; [discriminate|].
      inversion Ha0; subst a0; clear Ha0.
      exists (a / (2 * hop_length self) :: ls2).
      rewrite <- app_assoc. split; [reflexivity|].
      cbn [map]. constructor; [|exact Hall].
      exists a. unfold stored. simpl. split; [exact Ha|]. split; [lia|reflexivity].
    + apply IH in H. exact H.
Qed.

(** The list [lengths] is aligned with the stored rows: position [i]
    holds the size in bytes of the file of stored row [i], floor-divided
    by [2 * hop_length]; the other attributes are as before. *)
Theorem filter_lengths_from_sizes (self self' : Loader) :
  _filter os_path_join os_path_getsize self = Ok self' ->
  Forall2 (sized os_path_getsize self) (audiopaths_sid_text self') (lengths self') /\
  hop_length self' = hop_length self /\
  min_text_len self' = min_text_len self /\
  max_text_len self' = max_text_len self /\
  data_path self' = data_path self.
Proof.
  unfold _filter. intros H. inv_bind H. destruct a as [new ls].
  inversion H; subst; clear H. simpl.
  pose proof (filter_loop_spec _ _ _ _ _ _ _ _ Ha) as [-> _].
  apply filter_loop_lengths in Ha as (ls2 & -> & Hall). simpl. auto.
Qed.

Lemma filter_loop_total (self : Loader) (rows new : list Row) (ls : list Z) :
  Forall (fun row => keeps self row = true ->
                     hop_length self <> 0 /\
                     exists size,
                       os_path_getsize (stored os_path_join self row).1.1
                       = Ok size) rows ->
  exists r, filter_loop os_path_join os_path_getsize self rows new ls = Ok r.
Proof.
  intros H. revert new ls.
  induction H as [|[[id_ p] d] rest Hrow _ IH]; intros new ls; simpl.
  - eauto.
  - change ((min_text_len self <=? len p) && (len p <=? max_text_len self))
      with (keeps self (id_, p, d)).
    destruct (keeps self (id_, p, d)); [|apply IH].
    destruct (Hrow eq_refl) as (Hhop & size & Hsize).
    unfold stored in Hsize. simpl in Hsize. rewrite Hsize. cbn [bind].
    unfold Py.floordivZ.
    destruct (Z.eqb_spec (2 * hop_length self) 0); [lia|]. cbn [bind].
    apply IH.
Qed.

Lemma filter_loop_raise (self : Loader) (rows new : list Row) (ls : list Z)
    (e : PyError) :
  filter_loop os_path_join os_path_getsize self rows new ls = Raise e ->
  exists row, row ∈ rows /\ keeps self row = true /\
    (os_path_getsize (stored os_path_join self row).1.1 = Raise e \/
     (e = ZeroDivisionError /\ hop_length self = 0)).
Proof.
  revert new ls. induction rows as [|[[id_ p] d] rest IH]; intros new ls H.
  - discriminate H.
  - simpl in H.
    change ((min_text_len self <=? len p) && (len p <=? max_text_len self))
      with (keeps self (id_, p, d)) in H.
    destruct (keeps self (id_, p, d)) eqn:Hk.
    + destruct (os_path_getsize
                  (String.append (os_path_join (data_path self) id_) ".wav"))
        as [size|e'] eqn:Es; cbn [bind] in H.
      * unfold Py.floordivZ in H.
        destruct (Z.eqb_spec (2 * hop_length self) 0) as [Hz|]; cbn [bind] in H.
        -- inversion H; subst e. exists (id_, p, d).
           split; [apply list_elem_of_here|]. split; [exact Hk|].
           right. split; [reflexivity|lia].
        -- apply IH in H as (row & Hin & Hr). exists row.
           split; [apply list_elem_of_further; exact Hin|exact Hr].
      * inversion H; subst e'. exists (id_, p, d).
        split; [apply list_elem_of_here|]. split; [exact Hk|].
        left. exact Es.
    + apply IH in H as (row & Hin & Hr). exists row.
      split; [apply list_elem_of_further; exact Hin|exact Hr].
Qed.

(** [_filter] returns exactly when the file of every row it keeps has a
    size and, if a row is kept at all, [hop_length] is not zero.  What
    it raises otherwise is the [OSError] of [os.path.getsize] on a kept
    row, or [ZeroDivisionError] for a zero [hop_length]. *)
Theorem filter_succeeds_iff (self : Loader) :
  ((exists self', _filter os_path_join os_path_getsize self = Ok self') <->
   Forall (fun row => keeps self row = true ->
                      hop_length self <> 0 /\
                      exists size,
                        os_path_getsize (stored os_path_join self row).1.1
                        = Ok size) (audiopaths_sid_text self)) /\
  (forall e, _filter os_path_join os_path_getsize self = Raise e ->
     exists row, row ∈ audiopaths_sid_text self /\ keeps self row = true /\
       (os_path_getsize (stored os_path_join self row).1.1 = Raise e \/
        (e = ZeroDivisionError /\ hop_length self = 0))).
Proof.
  split; [split|].
  - intros [self' H]. apply Forall_forall. intros row Hin Hk.
    unfold _filter in H. inv_bind H. destruct a as [new ls]. clear H.
    destruct (filter_loop_lengths _ _ _ _ _ _ Ha) as (ls2 & _ & Hall).
    assert (Hin' : stored os_path_join self row
                   ∈ map (stored os_path_join self)
                       (List.filter (keeps self) (audiopaths_sid_text self))).
    { apply list_elem_of_fmap. exists row. split; [reflexivity|].
      apply list_elem_of_In, filter_In.
      split; [apply list_elem_of_In; exact Hin|exact Hk]. }
    apply list_elem_of_lookup in Hin' as [i Hi].
    destruct (Forall2_lookup_l _ _ _ _ _ Hall Hi) as (l & _ & size & Hs & Hh & _).
    split; [exact Hh|]. exists size. exact Hs.
  - intros H. unfold _filter.
    destruct (filter_loop_total self _ [] [] H) as ([new ls] & E).
    rewrite E. cbn [bind]. eauto.
  - intros e H. unfold _filter in H.
    destruct (filter_loop os_path_join os_path_getsize self
                (audiopaths_sid_text self) [] []) as [[new ls]|e'] eqn:E;
      cbn [bind] in H; [discriminate|].
    inversion H; subst e'. eapply filter_loop_raise. exact E.
Qed.
End FilterMore.

Section FilterFrame.
Import TextAudioLoader.
Variable os_path_join : String.string -> String.string -> String.string.
Variables getsize1 getsize2 : String.string -> result Z.

Lemma filter_loop_frame (self : Loader) (rows new : list Row) (ls : list Z) :
  (forall row, row ∈ rows -> keeps self row = true ->
     getsize1 (stored os_path_join self row).1.1
     = getsize2 (stored os_path_join self row).1.1) ->
  filter_loop os_path_join getsize1 self rows new ls
  = filter_loop os_path_join getsize2 self rows new ls.
Proof.
  revert new ls. induction rows as [|[[id_ p] d] rest IH]; intros new ls H.
  - reflexivity.
  - simpl.
    change ((min_text_len self <=? len p) && (len p <=? max_text_len self))
      with (keeps self (id_, p, d)).
    assert (Hrest : forall row, row ∈ rest -> keeps self row = true ->
              getsize1 (stored os_path_join self row).1.1
              = getsize2 (stored os_path_join self row).1.1).
    { intros row Hin. apply H. apply list_elem_of_further. exact Hin. }
    destruct (keeps self (id_, p, d)) eqn:Hk; [|apply IH; exact Hrest].
    pose proof (H (id_, p, d) (list_elem_of_here _ _) Hk) as Heq.
    unfold stored in Heq. simpl in Heq. rewrite Heq.
    destruct (getsize2 _) as [size|e]; cbn [bind]; [|reflexivity].
    destruct (Py.floordivZ size (2 * hop_length self)); cbn [bind];
      [|reflexivity].
    apply IH. exact Hrest.
Qed.

(** [_filter] reads the sizes of the files of the rows it keeps and of
    no other file: two file systems that agree on these give the same
    result, error included. *)
Theorem filter_reads_only_kept_files (self : Loader) :
  (forall row, row ∈ audiopaths_sid_text self -> keeps self row = true ->
     getsize1 (stored os_path_join self row).1.1
     = getsize2 (stored os_path_join self row).1.1) ->
  _filter os_path_join getsize1 self = _filter os_path_join getsize2 self.
Proof.
  intros H. unfold _filter. rewrite (filter_loop_frame self _ [] [] H).
  reflexivity.
Qed.
End FilterFrame.

Lemma filter_rows
    (os_path_join : String.string -> String.string -> String.string)
    (os_path_getsize : String.string -> result Z)
    (self self' : TextAudioLoader.Loader) :
  TextAudioLoader._filter os_path_join os_path_getsize self = Ok self' ->
  TextAudioLoader.audiopaths_sid_text self'
  = map (stored os_path_join self)
      (List.filter (keeps self) (TextAudioLoader.audiopaths_sid_text self)) /\
  length (TextAudioLoader.lengths self')
  = length (TextAudioLoader.audiopaths_sid_text self').
Proof.
  unfold TextAudioLoader._filter. intros H. inv_bind H. destruct a as [new ls].
  inversion H; subst; clear H. simpl.
  apply filter_loop_spec in Ha as [-> Hl]. simpl in *.
  split; [reflexivity|]. rewrite Hl, length_map. reflexivity.
Qed.

Lemma keeps_filter_Permutation (self : TextAudioLoader.Loader)
    (l1 l2 : list TextAudioLoader.Row) :
  l1 ≡ₚ l2 -> List.filter (keeps self) l1 ≡ₚ List.filter (keeps self) l2.
Proof.
  induction 1 as [|x l1 l2 _ IH|x y l|l1 l2 l3 _ IH1 _ IH2]; simpl.
  - reflexivity.
  - destruct (keeps self x); [constructor|]; exact IH.
  - destruct (keeps self x), (keeps self y); try reflexivity. apply perm_swap.
  - etransitivity; eassumption.
Qed.

Section LoaderInit.
Import TextAudioLoader.
Context {A : Type}.
Variable zero : A.
Variable os_path_join : String.string -> String.string -> String.string.
Variable os_path_getsize : String.string -> result Z.
Variable cleaned_text_to_sequence : list String.string -> result (list Z).
Variable int_ : String.string -> result Z.
Variable get_audio :
  String.string -> bool -> result (Tensor2 A * Tensor2 A * Tensor2 A).
Variable random_shuffle : list Row -> list Row.

(** The rows of a constructed loader are, up to the order the shuffle
    gave them, the manifest rows that pass the test of line 61, with
    their paths; [len(dataset)] is the number of these rows, whatever
    the shuffle did, and [lengths] has one entry for each. *)
Theorem loader_rows_independent_of_shuffle (loaded : list Row)
    (hparams : HParams) (pt_run : bool) (self : Loader) :
  (forall l, random_shuffle l ≡ₚ l) ->
  __init__ zero os_path_join os_path_getsize cleaned_text_to_sequence int_
    get_audio random_shuffle loaded hparams pt_run = Ok self ->
  audiopaths_sid_text self
  ≡ₚ map (stored os_path_join (initial_loader loaded hparams))
       (List.filter (keeps (initial_loader loaded hparams)) loaded) /\
  __len__ self
  = length (List.filter (keeps (initial_loader loaded hparams)) loaded) /\
  length (lengths self) = __len__ self.
Proof.
  intros Hsh H. unfold __init__ in H. inv_bind H.
  assert (a = self) by (destruct pt_run; [inv_bind H|]; congruence).
  subst a. clear H.
  apply filter_rows in Ha as (Hrows & Hlen).
  simpl in Hrows.
  assert (Hp : audiopaths_sid_text self
               ≡ₚ map (stored os_path_join (initial_loader loaded hparams))
                    (List.filter (keeps (initial_loader loaded hparams)) loaded)).
  { rewrite Hrows. apply fmap_Permutation.
    apply (keeps_filter_Permutation (initial_loader loaded hparams)).
    apply Hsh. }
  split; [exact Hp|]. split; [|exact Hlen].
  unfold __len__. rewrite Hp. apply length_map.
Qed.

(** With [pt_run] the constructor returns exactly when it returns
    without [pt_run] and every stored row goes through
    [get_audio_text_pair] (called with [pt_run=True]) without an
    error; the loader is the same. *)
Theorem loader_pt_run_checks_every_row (loaded : list Row)
    (hparams : HParams) (self : Loader) :
  __init__ zero os_path_join os_path_getsize cleaned_text_to_sequence int_
    get_audio random_shuffle loaded hparams true = Ok self <->
  __init__ zero os_path_join os_path_getsize cleaned_text_to_sequence int_
    get_audio random_shuffle loaded hparams false = Ok self /\
  Forall (fun row =>
            exists item,
              get_audio_text_pair zero cleaned_text_to_sequence int_ get_audio
                self row true = Ok item)
    (audiopaths_sid_text self).
Proof.
  unfold __init__.
  destruct (_filter os_path_join os_path_getsize _) as [s|e]; cbn [bind].
  - split.
    + intros H. inv_bind H. inversion H; subst s. split; [reflexivity|].
      apply mapM_Ok_Forall2 in Ha.
      apply Forall_forall. intros row Hin.
      apply list_elem_of_lookup in Hin as [i Hi].
      destruct (Forall2_lookup_l _ _ _ _ _ Ha Hi) as (item & _ & Hitem).
      eauto.
    + intros [H Hall]. inversion H; subst s.
      destruct (mapM_total (fun _ => True)
                  (fun row =>
                     get_audio_text_pair zero cleaned_text_to_sequence int_
                       get_audio self row true)
                  (audiopaths_sid_text self)) as (items & E & _).
      { eapply Forall_impl; [exact Hall|]. intros row [item Hi]. eauto. }
      rewrite E. reflexivity.
  - split; [discriminate|]. intros [H _]. discriminate H.
Qed.
End LoaderInit.

(** The padding of the signal before the pitch analysis: for a positive
    [hop_length] and [n] samples the two amounts are computed without
    error, the right one exceeds the left one by between 1 and
    [hop_length] samples, and the padded signal has
    [2 * (filter_length - hop_length)] samples more than the least
    multiple of [hop_length] above [n]. *)
Theorem ying_pad_next_multiple (filter_length hop_length n : Z) :
  0 < hop_length -> 0 <= n ->
  exists left right,
    TextAudioLoader.ying_pad filter_length hop_length n = Ok (left, right) /\
    left = filter_length - hop_length /\
    1 <= right - left <= hop_length /\
    left + n + right
    = 2 * (filter_length - hop_length) + hop_length * (n / hop_length + 1).
Proof.
  intros Hhop Hn. unfold TextAudioLoader.ying_pad, Py.modZ.
  destruct (Z.eqb_spec hop_length 0); [lia|]. cbn [bind].
  eexists _, _. split; [reflexivity|]. split; [reflexivity|].
  pose proof (Z.div_mod n hop_length ltac:(lia)) as Hdm.
  pose proof (Z.mod_pos_bound n hop_length Hhop) as Hb.
  destruct (Z.eqb_spec (n mod hop_length) 0) as [Hz|Hnz].
  - assert (Hneg : (- n) mod hop_length = 0).
    { apply Z.mod_opp_l_z; lia. }
    rewrite Hneg. lia.
  - assert (Hneg : (- n) mod hop_length = hop_length - n mod hop_length).
    { apply Z.mod_opp_l_nz; lia. }
    rewrite Hneg. lia.
Qed.


Lemma filter_lengths_from_sizes_witness :
  exists self',
    TextAudioLoader._filter LoaderFixture.os_path_join
      LoaderFixture.os_path_getsize LoaderFixture.loader = Ok self' /\
    TextAudioLoader.lengths self' = [2560; 2560] /\
    Forall2 (sized LoaderFixture.os_path_getsize LoaderFixture.loader)
      (TextAudioLoader.audiopaths_sid_text self')
      (TextAudioLoader.lengths self').
Proof.
  eexists. split; [vm_compute; reflexivity|]. split; [reflexivity|].
  exact (proj1 (filter_lengths_from_sizes LoaderFixture.os_path_join
                  LoaderFixture.os_path_getsize LoaderFixture.loader _ eq_refl)).
Defined.

Lemma filter_reads_only_kept_files_witness :
  getsize_without_a "data/a.wav" = Raise OSError /\
  TextAudioLoader._filter LoaderFixture.os_path_join
    LoaderFixture.os_path_getsize LoaderFixture.loader
  = TextAudioLoader._filter LoaderFixture.os_path_join
      getsize_without_a LoaderFixture.loader.
Proof.
  split; [reflexivity|].
  apply (filter_reads_only_kept_files LoaderFixture.os_path_join
           LoaderFixture.os_path_getsize getsize_without_a LoaderFixture.loader).
  intros row Hin Hk. simpl in Hin.
  rewrite !elem_of_cons, elem_of_nil in Hin.
  destruct Hin as [->|[->|[->|[]]]]; [discriminate Hk|reflexivity|reflexivity].
Defined.

Lemma loader_rows_independent_of_shuffle_witness :
  exists self,
    TextAudioLoader.__init__ 0 LoaderFixture.os_path_join
      LoaderFixture.os_path_getsize LoaderFixture.cleaned_text_to_sequence
      LoaderFixture.int_ LoaderFixture.get_audio (@rev TextAudioLoader.Row)
      (TextAudioLoader.audiopaths_sid_text LoaderFixture.loader)
      (TextAudioLoader.mkHParams 22050 16 4 16 (Some 1) (Some 3) "data") false = Ok self /\
    TextAudioLoader.audiopaths_sid_text self
    = [ ("data/c.wav"%string, "X Y"%string, "1 1"%string);
        ("data/b.wav"%string, "K"%string, "4"%string) ] /\
    TextAudioLoader.__len__ self = 2%nat.
Proof.
  eexists. split; [vm_compute; reflexivity|]. split; [reflexivity|].
  refine (proj1 (proj2 (loader_rows_independent_of_shuffle 0
           LoaderFixture.os_path_join LoaderFixture.os_path_getsize
           LoaderFixture.cleaned_text_to_sequence LoaderFixture.int_
           LoaderFixture.get_audio (@rev TextAudioLoader.Row)
           (TextAudioLoader.audiopaths_sid_text LoaderFixture.loader)
           (TextAudioLoader.mkHParams 22050 16 4 16 (Some 1) (Some 3) "data") false _ _ _))).
  - intros l. symmetry. apply Permutation_rev.
  - vm_compute. reflexivity.
Defined.

Lemma ying_pad_next_multiple_witness :
  exists left right,
    TextAudioLoader.ying_pad 1024 256 1000 = Ok (left, right) /\
    left = 1024 - 256 /\
    1 <= right - left <= 256 /\
    left + 1000 + right = 2 * (1024 - 256) + 256 * (1000 / 256 + 1).
Proof. apply (ying_pad_next_multiple 1024 256 1000); lia. Defined.

(** ** The collator: failures, broadcasting, and the way back *)

Section CollateErrors.
Import TextAudioLoader TextAudioCollate.
Context {A : Type}.
Variable zero : A.
Variable torch_sort_descending : list Z -> list Z * list nat.

Lemma index_nat_raise {B : Type} (l : list B) (i : nat) (e : PyError) :
  Py.index_nat l i = Raise e -> e = IndexError.
Proof.
  unfold Py.index_nat. destruct (l !! i); intros H; inversion H. reflexivity.
Qed.

Lemma set_item_raise {B : Type} (l : list B) (i : nat) (v : B) (e : PyError) :
  Torch.set_item l i v = Raise e -> e = IndexError.
Proof.
  unfold Torch.set_item. destruct (i <? length l)%nat; intros H; inversion H.
  reflexivity.
Qed.

Lemma assign_row1_raise (t : list (list Z)) (i : nat) (src : list Z)
    (e : PyError) :
  assign_row1 t i src = Raise e -> e = IndexError \/ e = RuntimeError.
Proof.
  unfold assign_row1. intros H.
  destruct (Py.index_nat t i) as [d|e'] eqn:E; cbn [bind] in H.
  - unfold Torch.assign_prefix1 in H.
    destruct (_ || _); cbn [bind] in H; inversion H. right. reflexivity.
  - inversion H; subst. left. eapply index_nat_raise. exact E.
Qed.

Lemma assign_row2_raise (t : list (Tensor2 A)) (i : nat) (src : Tensor2 A)
    (e : PyError) :
  assign_row2 t i src = Raise e -> e = IndexError \/ e = RuntimeError.
Proof.
  unfold assign_row2. intros H.
  destruct (Py.index_nat t i) as [d|e'] eqn:E; cbn [bind] in H.
  - unfold Torch.assign_prefix in H.
    destruct (_ && _); cbn [bind] in H; inversion H. right. reflexivity.
  - inversion H; subst. left. eapply index_nat_raise. exact E.
Qed.

Lemma copy_row_raise (batch : list (@Item A)) (ids : list nat)
    (t : BatchTensors) (i : nat) (e : PyError) :
  copy_row batch ids t i = Raise e -> e = IndexError \/ e = RuntimeError.
Proof.
  unfold copy_row. intros H.
  repeat match type of H with
         | bind ?x _ = Raise _ =>
             let E := fresh "E" in
             destruct x eqn:E; cbn [bind] in H;
             [|inversion H; subst;
               first [ left; eapply index_nat_raise; eassumption
                     | left; eapply set_item_raise; eassumption
                     | eapply assign_row1_raise; eassumption
                     | eapply assign_row2_raise; eassumption ]]
         end.
  discriminate H.
Qed.

Lemma copy_rows_raise_kind (batch : list (@Item A)) (ids : list nat)
    (is_ : list nat) (t : BatchTensors) (e : PyError) :
  copy_rows batch ids t is_ = Raise e -> e = IndexError \/ e = RuntimeError.
Proof.
  revert t. induction is_ as [|i rest IH]; intros t H; simpl in H.
  - discriminate H.
  - destruct (copy_row batch ids t i) as [t'|e'] eqn:E; cbn [bind] in H.
    + eapply IH. exact H.
    + inversion H; subst. eapply copy_row_raise. exact E.
Qed.

(** The collator raises [ValueError] on the empty batch, the [max] of
    line 164 having nothing to take the maximum of, and on no other
    batch, whatever order the sort returns. *)
Theorem collate_value_error_iff_empty (batch : list (@Item A)) :
  __call__ zero torch_sort_descending batch = Raise ValueError <->
  batch = [].
Proof.
  split.
  - intros H. destruct batch as [|b0 rest]; [reflexivity|]. exfalso.
    unfold __call__ in H.
    destruct (torch_sort_descending _) as [vals ids].
    destruct (max_map_spec (fun x => length (phonemes x)) (b0 :: rest))
      as (mp & Emp & _); [discriminate|].
    destruct (max_map_spec (fun x : Item => size1 (spec x)) (b0 :: rest))
      as (ms & Ems & _); [discriminate|].
    destruct (max_map_spec (fun x : Item => size1 (ying x)) (b0 :: rest))
      as (my & Emy & _); [discriminate|].
    destruct (max_map_spec (fun x : Item => size1 (wav x)) (b0 :: rest))
      as (mw & Emw & _); [discriminate|].
    destruct (max_map_spec (fun x => length (phn_dur x)) (b0 :: rest))
      as (md & Emd & _); [discriminate|].
    rewrite Emp, Ems, Emy, Emw, Emd in H. cbn [bind] in H.
    change (Py.index (b0 :: rest) 0) with (Ok b0) in H. cbn [bind] in H.
    apply copy_rows_raise_kind in H as [H|H]; discriminate H.
  - intros ->. unfold __call__.
    destruct (torch_sort_descending _) as [vals ids]. reflexivity.
Qed.
End CollateErrors.

Section CollateBroadcast.
Import TextAudioLoader TextAudioCollate.
Context {A : Type}.
Variable zero : A.
Variable torch_sort_descending : list Z -> list Z * list nat.

Lemma size0_broadcast_channels (r : nat) (t : Tensor2 A) :
  size0 (broadcast_channels r t) = r.
Proof.
  unfold broadcast_channels. destruct (Nat.eqb_spec (size0 t) r) as [E|_];
    [exact E|]. unfold size0. simpl. apply length_replicate.
Qed.

Lemma size1_broadcast_channels (r : nat) (t : Tensor2 A) :
  size1 (broadcast_channels r t) = size1 t.
Proof.
  unfold broadcast_channels. destruct (size0 t =? r)%nat; reflexivity.
Qed.

Lemma assign_prefix_zeros_broadcast (t : Tensor2 A) (r c : nat) :
  size0 t = r \/ size0 t = 1%nat -> (size1 t <= c)%nat ->
  Torch.assign_prefix (Torch.zeros_nat zero r c) t
  = Ok (pad_cols zero (broadcast_channels r t) c).
Proof.
  intros Hr Hc. unfold broadcast_channels.
  destruct (Nat.eqb_spec (size0 t) r) as [E|Hne].
  - subst r. apply assign_prefix_zeros. exact Hc.
  - destruct Hr as [?|H1]; [contradiction|].
    unfold Torch.assign_prefix, Torch.zeros_nat, size0 in *. simpl.
    rewrite length_replicate.
    destruct (Nat.eqb_spec (length (rows t)) r) as [?|_]; [contradiction|].
    rewrite H1. simpl.
    replace (Nat.min c (size1 t)) with (size1 t) by lia.
    rewrite Nat.eqb_refl. simpl. unfold pad_cols. simpl. do 2 f_equal.
    rewrite zip_with_replicate, fmap_replicate, drop_replicate.
    reflexivity.
Qed.

Lemma assign_prefix_mismatch (dst t : Tensor2 A) :
  size0 t <> size0 dst -> size0 t <> 1%nat ->
  Torch.assign_prefix dst t = Raise RuntimeError.
Proof.
  intros H1 H2. unfold Torch.assign_prefix.
  destruct (Nat.eqb_spec (size0 t) (size0 dst)); [contradiction|].
  destruct (Nat.eqb_spec (size0 t) 1); [contradiction|]. reflexivity.
Qed.

Lemma assign_row2_slot_broadcast (l1 : list (Tensor2 A)) (src : Tensor2 A)
    (k m r c : nat) :
  length l1 = k -> size0 src = r \/ size0 src = 1%nat -> (size1 src <= c)%nat ->
  assign_row2 (l1 ++ replicate (S m) (Torch.zeros_nat zero r c)) k src
  = Ok ((l1 ++ [pad_cols zero (broadcast_channels r src) c])
          ++ replicate m (Torch.zeros_nat zero r c)).
Proof.
  intros <- Hr Hc. unfold assign_row2, Py.index_nat.
  rewrite lookup_app_r by lia. rewrite Nat.sub_diag.
  cbn [replicate lookup list_lookup bind].
  rewrite assign_prefix_zeros_broadcast by assumption. cbn [bind].
  rewrite insert_app_r_alt by lia. rewrite Nat.sub_diag. simpl.
  rewrite <- app_assoc. reflexivity.
Qed.

Lemma assign_row2_slot_mismatch (l1 : list (Tensor2 A)) (src : Tensor2 A)
    (k m r c : nat) :
  length l1 = k -> size0 src <> r -> size0 src <> 1%nat ->
  assign_row2 (l1 ++ replicate (S m) (Torch.zeros_nat zero r c)) k src
  = Raise RuntimeError.
Proof.
  intros <- H1 H2. unfold assign_row2, Py.index_nat.
  rewrite lookup_app_r by lia. rewrite Nat.sub_diag.
  cbn [replicate lookup list_lookup bind].
  rewrite assign_prefix_mismatch; [reflexivity| |exact H2].
  unfold Torch.zeros_nat, size0 at 2. simpl. rewrite length_replicate.
  exact H1.
Qed.

Variables mp ms my mw md r_spec r_ying : nat.
Local Abbreviation part := (partial zero mp ms my mw md r_spec r_ying).
Local Abbreviation bc := (broadcast_item r_spec r_ying).
Local Abbreviation within :=
  (fun x : @Item A =>
     (length (phonemes x) <= mp)%nat /\ (size1 (spec x) <= ms)%nat /\
     (size1 (ying x) <= my)%nat /\ (size1 (wav x) <= mw)%nat /\
     (length (phn_dur x) <= md)%nat).

Lemma copy_row_step_broadcast (batch : list (@Item A)) (ids : list nat)
    (xs : list (@Item A)) (x : @Item A) (id m : nat) :
  ids !! length xs = Some id -> batch !! id = Some x -> within x ->
  channels_fit r_spec r_ying x = true ->
  copy_row batch ids (part (map bc xs) (S m)) (length xs)
  = Ok (part (map bc (xs ++ [x])) m).
Proof.
  intros Hid Hx (Hp & Hs & Hy & Hw & Hd) Hfit.
  unfold channels_fit in Hfit.
  apply andb_true_iff in Hfit as [Hfit Hrw].
  apply andb_true_iff in Hfit as [Hrs Hry].
  apply orb_true_iff in Hrs, Hry.
  rewrite !Nat.eqb_eq in Hrs, Hry. apply Nat.eqb_eq in Hrw.
  unfold copy_row, Py.index_nat. rewrite Hid. cbn [bind]. rewrite Hx.
  unfold partial.
  cbn [bind collated phonemes_padded phonemes_lengths spec_padded
         spec_lengths ying_padded ying_lengths wav_padded wav_lengths
         phndur_padded].
  rewrite assign_row1_slot by (rewrite ?length_map; auto). cbn [bind].
  rewrite set_item_slot by (rewrite ?length_map; auto). cbn [bind].
  rewrite assign_row2_slot_broadcast by (rewrite ?length_map; auto).
  cbn [bind].
  rewrite set_item_slot by (rewrite ?length_map; auto). cbn [bind].
  rewrite assign_row2_slot_broadcast by (rewrite ?length_map; auto).
  cbn [bind].
  rewrite set_item_slot by (rewrite ?length_map; auto). cbn [bind].
  rewrite assign_row2_slot by (rewrite ?length_map; auto). cbn [bind].
  rewrite set_item_slot by (rewrite ?length_map; auto). cbn [bind].
  rewrite assign_row1_slot by (rewrite ?length_map; auto). cbn [bind].
  rewrite !map_app.
  cbn [map broadcast_item phonemes spec ying wav phn_dur].
  rewrite !size1_broadcast_channels. reflexivity.
Qed.

Lemma copy_row_step_mismatch (batch : list (@Item A)) (ids : list nat)
    (xs : list (@Item A)) (x : @Item A) (id m : nat) :
  ids !! length xs = Some id -> batch !! id = Some x -> within x ->
  channels_fit r_spec r_ying x = false ->
  copy_row batch ids (part (map bc xs) (S m)) (length xs)
  = Raise RuntimeError.
Proof.
  intros Hid Hx (Hp & Hs & Hy & Hw & Hd) Hfit.
  unfold copy_row, Py.index_nat. rewrite Hid. cbn [bind]. rewrite Hx.
  unfold partial.
  cbn [bind collated phonemes_padded phonemes_lengths spec_padded
         spec_lengths ying_padded ying_lengths wav_padded wav_lengths
         phndur_padded].
  rewrite assign_row1_slot by (rewrite ?length_map; auto). cbn [bind].
  rewrite set_item_slot by (rewrite ?length_map; auto). cbn [bind].
  unfold channels_fit in Hfit.
  destruct (Nat.eqb_spec (size0 (spec x)) r_spec) as [Es|Es];
    destruct (Nat.eqb_spec (size0 (spec x)) 1) as [Es1|Es1];
    cbn [orb andb] in Hfit;
    try (rewrite assign_row2_slot_mismatch
           by (rewrite ?length_map; auto); reflexivity);
    (rewrite assign_row2_slot_broadcast by (rewrite ?length_map; auto);
     cbn [bind];
     rewrite set_item_slot by (rewrite ?length_map; auto); cbn [bind];
     destruct (Nat.eqb_spec (size0 (ying x)) r_ying) as [Ey|Ey];
     destruct (Nat.eqb_spec (size0 (ying x)) 1) as [Ey1|Ey1];
     cbn [orb andb] in Hfit;
     try (rewrite assign_row2_slot_mismatch
            by (rewrite ?length_map; auto); reflexivity);
     (rewrite assign_row2_slot_broadcast by (rewrite ?length_map; auto);
      cbn [bind];
      rewrite set_item_slot by (rewrite ?length_map; auto); cbn [bind];
      apply Nat.eqb_neq in Hfit;
      rewrite assign_row2_slot_mismatch
        by (rewrite ?length_map; auto); reflexivity)).
Qed.

Lemma copy_rows_broadcast (batch : list (@Item A)) (ids : list nat)
    (rest : list (@Item A)) :
  forall (xs : list (@Item A)),
    Forall2 (fun id x => batch !! id = Some x) ids (xs ++ rest) ->
    Forall within rest ->
    (Forall (fun x => channels_fit r_spec r_ying x = true) rest ->
     copy_rows batch ids (part (map bc xs) (length rest))
       (seq (length xs) (length rest))
     = Ok (part (map bc (xs ++ rest)) 0)) /\
    (~ Forall (fun x => channels_fit r_spec r_ying x = true) rest ->
     copy_rows batch ids (part (map bc xs) (length rest))
       (seq (length xs) (length rest))
     = Raise RuntimeError).
Proof.
  induction rest as [|x rest IH]; intros xs Hall Hin.
  - split.
    + intros _. simpl. rewrite app_nil_r. reflexivity.
    + intros H. exfalso. apply H. constructor.
  - inversion Hin as [|? ? Hx Hrest]; subst.
    assert (Hk : (xs ++ x :: rest) !! length xs = Some x).
    { rewrite lookup_app_r by lia. rewrite Nat.sub_diag. reflexivity. }
    destruct (Forall2_lookup_r _ _ _ _ _ Hall Hk) as (id & Hid & Hb).
    cbn [length seq copy_rows].
    destruct (channels_fit r_spec r_ying x) eqn:Hfit.
    + rewrite (copy_row_step_broadcast batch ids xs x id (length rest)
                 Hid Hb Hx Hfit).
      cbn [bind].
      replace (S (length xs)) with (length (xs ++ [x]))
        by (rewrite length_app; simpl; lia).
      destruct (IH (xs ++ [x])) as [IH1 IH2];
        [rewrite <- app_assoc; exact Hall|exact Hrest|].
      rewrite <- app_assoc in IH1. split.
      * intros H. inversion H; subst. apply IH1. assumption.
      * intros H. apply IH2. intros Hr. apply H. constructor; assumption.
    + rewrite (copy_row_step_mismatch batch ids xs x id (length rest)
                 Hid Hb Hx Hfit).
      split; [|reflexivity].
      intros H. inversion H; subst. congruence.
Qed.
End CollateBroadcast.

Section CollateChannels.
Import TextAudioLoader TextAudioCollate.
Context {A : Type}.
Variable zero : A.
Variable torch_sort_descending : list Z -> list Z * list nat.

(** The containers take their channel counts from the first example of
    the batch.  The collator returns exactly when every example has, for
    the acoustic and for the secondary features, that channel count or
    one channel, and a waveform of one channel; a feature of one channel
    is then copied into every channel of its container.  On any other
    non-empty batch it raises [RuntimeError]. *)
Theorem collate_channels (batch : list (@Item A)) (b0 : @Item A) :
  sort_ok torch_sort_descending -> head batch = Some b0 ->
  let r_spec := size0 (spec b0) in
  let r_ying := size0 (ying b0) in
  (Forall (fun x => channels_fit r_spec r_ying x = true) batch ->
   exists xs mp ms my mw md,
     __call__ zero torch_sort_descending batch
     = Ok (collated zero (map (broadcast_item r_spec r_ying) xs)
             mp ms my mw md) /\
     xs ≡ₚ batch) /\
  (~ Forall (fun x => channels_fit r_spec r_ying x = true) batch ->
   __call__ zero torch_sort_descending batch = Raise RuntimeError).
Proof.
  intros Hsort Hb0 r_spec r_ying.
  assert (Hne : batch <> []) by (destruct batch; discriminate).
  set (keys := map (fun x => Z.of_nat (size1 (spec x))) batch).
  destruct (Hsort keys) as (Hperm & _ & _).
  unfold __call__. fold keys.
  destruct (torch_sort_descending keys) as [vals ids]. simpl in Hperm.
  assert (Hn : length keys = length batch) by apply length_map.
  rewrite Hn in Hperm. clearbody keys.
  destruct (max_map_spec (fun x => length (phonemes x)) batch Hne)
    as (mp & Emp & Hmp & _).
  destruct (max_map_spec (fun x : Item => size1 (spec x)) batch Hne)
    as (ms & Ems & Hms & _).
  destruct (max_map_spec (fun x : Item => size1 (ying x)) batch Hne)
    as (my & Emy & Hmy & _).
  destruct (max_map_spec (fun x : Item => size1 (wav x)) batch Hne)
    as (mw & Emw & Hmw & _).
  destruct (max_map_spec (fun x => length (phn_dur x)) batch Hne)
    as (md & Emd & Hmd & _).
  destruct (lookup_all batch ids) as (xs & Hxs).
  { rewrite Hperm. apply Forall_seq. intros; lia. }
  assert (Hxsp : xs ≡ₚ batch).
  { rewrite (Forall2_lookup_omap _ _ _ Hxs), Hperm, omap_lookup_seq.
    reflexivity. }
  rewrite Emp, Ems, Emy, Emw, Emd. cbn [bind].
  replace (Py.index batch 0) with (Ok b0)
    by (destruct batch; [discriminate|inversion Hb0; reflexivity]).
  cbn [bind]. fold r_spec r_ying.
  assert (Hlen : length ids = length xs) by (eapply Forall2_length; eauto).
  assert (Hlb : length batch = length xs) by (rewrite Hxsp; reflexivity).
  rewrite Hlen, Hlb.
  destruct (copy_rows_broadcast zero mp ms my mw md r_spec r_ying
              batch ids xs [] Hxs) as [Hok Hbad].
  { rewrite Hxsp.
    repeat match goal with
           | H : Forall _ batch |- _ => rewrite Forall_forall in H
           end.
    apply Forall_forall. intros x Hx.
    pose proof (Hmp x Hx). pose proof (Hms x Hx). pose proof (Hmy x Hx).
    pose proof (Hmw x Hx). pose proof (Hmd x Hx). simpl in *. auto 10. }
  simpl in Hok, Hbad. rewrite partial_0 in Hok.
  split.
  - intros Hfit. exists xs, mp, ms, my, mw, md.
    split; [|exact Hxsp]. apply Hok. rewrite Hxsp. exact Hfit.
  - intros Hfit. apply Hbad. rewrite Hxsp. exact Hfit.
Qed.

Lemma slice_to_pad1 (l : list Z) (n : nat) :
  Py.slice_to (pad1 l n) (Z.of_nat (length l)) = l.
Proof.
  unfold Py.slice_to, pad1, Py.stop.
  destruct (Z.ltb_spec (Z.of_nat (length l)) 0); [lia|].
  rewrite Nat2Z.id, length_app.
  replace (Nat.min _ _) with (length l) by lia.
  apply take_app_length.
Qed.

Lemma slice_cols_pad_cols (t : Tensor2 A) (c : nat) :
  tensor_wf t -> (size1 t <= c)%nat ->
  Torch.slice_cols (pad_cols zero t c) (Z.of_nat (size1 t)) = t.
Proof.
  intros Hwf Hc. unfold Torch.slice_cols, pad_cols, Py.stop. simpl.
  destruct (Z.ltb_spec (Z.of_nat (size1 t)) 0); [lia|].
  rewrite Nat2Z.id. replace (Nat.min c (size1 t)) with (size1 t) by lia.
  destruct t as [rs s]. unfold tensor_wf in Hwf. simpl in *. f_equal.
  induction Hwf as [|r rs Hr _ IH]; simpl; [reflexivity|].
  rewrite IH. f_equal.
  rewrite <- Hr, firstn_all. apply take_app_length.
Qed.

(** The way back from the padded tensors.  For a batch of well-formed
    examples that agree on their channel counts, cutting row [j] of
    every returned tensor to the length recorded for it gives back an
    example of the batch, unchanged, and every example of the batch comes
    back from one row; the duration annotations come back through the
    length of the text units. *)
Theorem collate_round_trip (batch : list (@Item A)) :
  sort_ok torch_sort_descending -> batch <> [] -> same_channels batch ->
  Forall item_wf batch ->
  exists out xs,
    __call__ zero torch_sort_descending batch = Ok out /\
    xs ≡ₚ batch /\
    map (unpadded out) (seq 0 (length batch)) = map Some xs.
Proof.
  intros Hsort Hne Hch Hwf.
  destruct (collate_spec zero torch_sort_descending batch Hsort Hne Hch)
    as (xs & mp & ms & my & mw & md & Hcall & Hperm & _
        & Emp & Ems & Emy & Emw & Emd).
  destruct (max_map_spec (fun x => length (phonemes x)) batch Hne)
    as (mp' & Emp' & Hmp & _).
  destruct (max_map_spec (fun x : Item => size1 (spec x)) batch Hne)
    as (ms' & Ems' & Hms & _).
  destruct (max_map_spec (fun x : Item => size1 (ying x)) batch Hne)
    as (my' & Emy' & Hmy & _).
  destruct (max_map_spec (fun x : Item => size1 (wav x)) batch Hne)
    as (mw' & Emw' & Hmw & _).
  assert (mp' = mp) by congruence. assert (ms' = ms) by congruence.
  assert (my' = my) by congruence. assert (mw' = mw) by congruence.
  subst mp' ms' my' mw'.
  exists (collated zero xs mp ms my mw md), xs.
  split; [exact Hcall|]. split; [exact Hperm|].
  rewrite <- Hperm in Hwf, Hms, Hmy, Hmw |- *.
  clear -Hwf Hms Hmy Hmw.
  apply list_eq. intros j.
  rewrite !list_lookup_fmap.
  destruct (xs !! j) as [x|] eqn:Ex.
  - rewrite lookup_seq_lt by (eapply lookup_lt_Some; eauto).
    cbn [fmap option_fmap option_map Nat.add].
    unfold unpadded, collated.
    cbn [phonemes_padded phonemes_lengths spec_padded spec_lengths
           ying_padded ying_lengths wav_padded wav_lengths phndur_padded].
    rewrite !list_lookup_fmap, Ex.
    cbn [fmap option_fmap option_map].
    destruct (Forall_lookup_1 _ _ _ _ Hwf Ex) as (Ws & Wy & Ww & Wl).
    pose proof (Forall_lookup_1 _ _ _ _ Hms Ex) as Bs.
    pose proof (Forall_lookup_1 _ _ _ _ Hmy Ex) as By.
    pose proof (Forall_lookup_1 _ _ _ _ Hmw Ex) as Bw.
    simpl in Bs, By, Bw.
    rewrite !slice_cols_pad_cols by assumption.
    rewrite slice_to_pad1. rewrite Wl, slice_to_pad1.
    destruct x; reflexivity.
  - apply lookup_ge_None in Ex.
    rewrite lookup_seq_ge by lia. reflexivity.
Qed.
End CollateChannels.

Lemma collate_channels_witness :
  (exists xs mp ms my mw md,
     TextAudioCollate.__call__ 0 SortFixture.torch_sort_descending
       [CollateFixture.second; mono_example]
     = Ok (collated 0 (map (broadcast_item 2 1) xs) mp ms my mw md) /\
     xs ≡ₚ [CollateFixture.second; mono_example]) /\
  TextAudioCollate.__call__ 0 SortFixture.torch_sort_descending
    [CollateFixture.second; three_channel_example]
  = Raise RuntimeError.
Proof.
  split.
  - apply (proj1 (collate_channels 0 SortFixture.torch_sort_descending
                    [CollateFixture.second; mono_example] CollateFixture.second
                    sort_fixture_ok eq_refl)).
    repeat constructor.
  - vm_compute. reflexivity.
Defined.

Lemma collate_round_trip_witness :
  exists out xs,
    TextAudioCollate.__call__ 0 SortFixture.torch_sort_descending
      CollateFixture.batch = Ok out /\
    xs ≡ₚ CollateFixture.batch /\
    map (unpadded out) (seq 0 (length CollateFixture.batch)) = map Some xs.
Proof.
  apply (collate_round_trip 0 SortFixture.torch_sort_descending
           CollateFixture.batch sort_fixture_ok).
  - discriminate.
  - exact fixture_same_channels.
  - unfold item_wf, tensor_wf. repeat constructor.
Defined.

(** ** The feature caches *)

Section CacheNames.
Lemma string_length_append (a b : String.string) :
  String.length (String.append a b)
  = (String.length a + String.length b)%nat.
Proof. induction a as [|c a IH]; simpl; [reflexivity|]. rewrite IH. reflexivity. Qed.

Lemma prefix_length (a b : String.string) :
  String.prefix a b = true -> (String.length a <= String.length b)%nat.
Proof.
  revert b. induction a as [|c a IH]; intros b H; simpl; [lia|].
  destruct b as [|c' b]; simpl in H; [discriminate|].
  match type of H with
  | (if ?d then _ else _) = true => destruct d; [|discriminate]
  end.
  apply IH in H. simpl. lia.
Qed.

Lemma replace_aux_length (new : String.string) :
  String.length new = 8%nat ->
  forall s k,
    (String.length (Py.replace_aux ".wav" new k s)
     + Nat.min k (String.length s)
     = String.length s + 4 * Py.count_aux ".wav" k s)%nat.
Proof.
  intros Hn. induction s as [|c s IH]; intros k.
  - simpl. lia.
  - destruct k as [|k]; cbn [Py.replace_aux Py.count_aux].
    + destruct (String.prefix ".wav" (String.String c s)) eqn:E.
      * rewrite string_length_append, Hn. apply prefix_length in E.
        change (String.length ".wav" - 1)%nat with 3%nat.
        specialize (IH 3%nat). simpl String.length in *. lia.
      * specialize (IH 0%nat). simpl String.length in *. lia.
    + specialize (IH k). simpl String.length in *. lia.
Qed.

Lemma replace_aux_differ :
  forall s k,
    Py.replace_aux ".wav" ".spec.pt" k s = Py.replace_aux ".wav" ".ying.pt" k s ->
    Py.count_aux ".wav" k s = 0%nat.
Proof.
  induction s as [|c s IH]; intros k H; [reflexivity|].
  destruct k as [|k]; cbn [Py.replace_aux Py.count_aux] in H |- *.
  - destruct (String.prefix ".wav" (String.String c s)) eqn:E.
    + cbn [String.append] in H. discriminate H.
    + injection H as H. apply IH. exact H.
  - apply IH. exact H.
Qed.

Lemma replace_aux_none (old new : String.string) :
  forall s, Py.count_aux old 0 s = 0%nat -> Py.replace_aux old new 0 s = s.
Proof.
  induction s as [|c s IH]; intros H; [reflexivity|].
  cbn [Py.replace_aux Py.count_aux] in H |- *.
  destruct (String.prefix old (String.String c s)); [discriminate|].
  rewrite IH by exact H. reflexivity.
Qed.

Lemma count_wav_suffix (q : String.string) :
  (1 <= Py.count (String.append q ".wav") ".wav")%nat.
Proof.
  unfold Py.count. induction q as [|c q IH].
  - vm_compute. lia.
  - change (String.append (String.String c q) ".wav")
      with (String.String c (String.append q ".wav")).
    cbn [Py.count_aux].
    match goal with
    | |- context [if ?b then _ else _] => destruct b; [lia|exact IH]
    end.
Qed.

Lemma cache_names_cases (filename : String.string) :
  ((1 <= Py.count filename ".wav")%nat /\ own_caches filename) \/
  (Py.count filename ".wav" = 0%nat /\
   TextAudioLoader.spec_filename filename = filename /\
   TextAudioLoader.ying_filename filename = filename).
Proof.
  unfold own_caches, TextAudioLoader.spec_filename,
    TextAudioLoader.ying_filename, Py.replace, Py.count.
  destruct (Py.count_aux ".wav" 0 filename) as [|n] eqn:E.
  - right. split; [reflexivity|].
    split; apply replace_aux_none; exact E.
  - left. split; [lia|].
    pose proof (replace_aux_length ".spec.pt" eq_refl filename 0) as H1.
    pose proof (replace_aux_length ".ying.pt" eq_refl filename 0) as H2.
    rewrite E in H1, H2.
    split; [|split].
    + intros H. rewrite H in H1. lia.
    + intros H. rewrite H in H2. lia.
    + intros H. apply replace_aux_differ in H. congruence.
Qed.

(** The cache names of lines 101-102.  The two cache names of a file
    differ from its name and from each other exactly when the name
    contains [".wav"]; a name that does not contain it is its own
    spectrogram cache and its own pitch cache. *)
Theorem cache_names (filename : String.string) :
  (own_caches filename <-> (1 <= Py.count filename ".wav")%nat) /\
  (Py.count filename ".wav" = 0%nat ->
   TextAudioLoader.spec_filename filename = filename /\
   TextAudioLoader.ying_filename filename = filename).
Proof.
  destruct (cache_names_cases filename) as [[Hc Ho]|(Hc & Hs & Hy)].
  - split; [tauto|]. intros H. lia.
  - split; [|auto]. split; [|lia].
    intros (Hne & _). contradiction.
Qed.

Lemma own_caches_suffix (q : String.string) :
  own_caches (String.append q ".wav").
Proof.
  destruct (cache_names_cases (String.append q ".wav")) as [[_ H]|[H _]];
    [exact H|].
  pose proof (count_wav_suffix q). lia.
Qed.

(** Every row [_filter] stores names a wav file whose two caches are
    files of their own: saving a cache never writes over the audio or
    over the other cache. *)
Theorem stored_rows_have_own_caches
    (os_path_join : String.string -> String.string -> String.string)
    (os_path_getsize : String.string -> result Z)
    (self self' : TextAudioLoader.Loader) :
  TextAudioLoader._filter os_path_join os_path_getsize self = Ok self' ->
  Forall (fun row : TextAudioLoader.Row => own_caches row.1.1)
    (TextAudioLoader.audiopaths_sid_text self').
Proof.
  intros H. apply filter_rows in H as (-> & _).
  apply Forall_fmap, Forall_forall. intros row _. simpl.
  apply own_caches_suffix.
Qed.
End CacheNames.

Section AudioCache.
Import TextAudioLoader.
Variables T FS : Type.
Variable os_path_join : String.string -> String.string -> String.string.
Variable load_wav_to_torch : FS -> String.string -> result (T * Z).
Variable os_path_exists : FS -> String.string -> bool.
Variable torch_load : FS -> String.string -> result T.
Variable torch_save : FS -> String.string -> T -> result FS.
Variable spectrogram_torch : T -> Z -> Z -> Z -> Z -> result T.
Variable unsqueeze0 : T -> T.
Variable squeeze0 : T -> T.
Variable shape1 : T -> Z.
Variable pad : T -> Z -> Z -> result T.
Variable yingram : T -> result T.
Variables sampling_rate filter_length win_length : Z.

Hypothesis Hfs :
  fs_ok load_wav_to_torch os_path_exists torch_load torch_save.

(** After a call of [get_audio] that returned, with or without
    [pt_run], a call without [pt_run] on the same file returns the same
    three tensors, taken from the caches, and writes nothing. *)
Theorem get_audio_cache_hit (self : Loader) (fs fs' : FS)
    (filename : String.string) (pt_run : bool) (spec ying audio : T) :
  (1 <= Py.count filename ".wav")%nat ->
  get_audio T FS load_wav_to_torch os_path_exists torch_load torch_save
    spectrogram_torch unsqueeze0 squeeze0 shape1 pad yingram
    sampling_rate filter_length win_length self fs filename pt_run
  = Ok (spec, ying, audio, fs') ->
  get_audio T FS load_wav_to_torch os_path_exists torch_load torch_save
    spectrogram_torch unsqueeze0 squeeze0 shape1 pad yingram
    sampling_rate filter_length win_length self fs' filename false
  = Ok (spec, ying, audio, fs').
Proof.
  intros Hc H.
  destruct (cache_names_cases filename) as [(_ & Hsf & Hyf & Hsy)|(H0 & _)]; [|lia].
  assert (Hfy : filename <> ying_filename filename) by congruence.
  assert (Hfsp : filename <> spec_filename filename) by congruence.
  unfold get_audio in H |- *.
  destruct (load_wav_to_torch fs filename) as [[audio0 sr]|e] eqn:Ew;
    cbn [bind] in H; [|discriminate].
  destruct (negb (sr =? sampling_rate)) eqn:Esr; [discriminate|].
  destruct (os_path_exists fs (spec_filename filename) && negb pt_run) eqn:Es.
  - (* the spectrogram came from its cache *)
    apply andb_true_iff in Es as [Es Ept].
    destruct (torch_load fs (spec_filename filename)) as [sp|] eqn:El;
      cbn [bind] in H; [|discriminate].
    destruct (os_path_exists fs (ying_filename filename) && negb pt_run) eqn:Ey.
    + apply andb_true_iff in Ey as [Ey _].
      destruct (torch_load fs (ying_filename filename)) as [yi|] eqn:Ely;
        cbn [bind] in H; [|discriminate].
      inversion H; subst; clear H.
      rewrite Ew. cbn [bind]. rewrite Esr, Es. cbn [andb negb].
      rewrite El. cbn [bind]. rewrite Ey. cbn [andb negb].
      rewrite Ely. reflexivity.
    + destruct (ying_pad _ _ _) as [[pl pr]|]; cbn [bind] in H; [|discriminate].
      destruct (pad _ _ _) as [w|]; cbn [bind] in H; [|discriminate].
      destruct (yingram _) as [yi|]; cbn [bind] in H; [|discriminate].
      destruct (torch_save fs (ying_filename filename) yi) as [fs1|] eqn:Esave;
        cbn [bind] in H; [|discriminate].
      inversion H; subst; clear H.
      destruct (Hfs _ _ _ _ Esave) as (Hex & Hld & Hframe).
      destruct (Hframe filename Hfy) as (_ & _ & Fw).
      destruct (Hframe (spec_filename filename) Hsy) as (Fe & Fl & _).
      rewrite Fw, Ew. cbn [bind]. rewrite Esr, Fe, Es. cbn [andb negb].
      rewrite Fl, El. cbn [bind]. rewrite Hex. cbn [andb negb].
      rewrite Hld. reflexivity.
  - (* the spectrogram was computed and saved *)
    destruct (spectrogram_torch _ _ _ _ _) as [sp|]; cbn [bind] in H;
      [|discriminate].
    destruct (torch_save fs (spec_filename filename) (squeeze0 sp))
      as [fs1|] eqn:Esave1; cbn [bind] in H; [|discriminate].
    destruct (Hfs _ _ _ _ Esave1) as (Hex1 & Hld1 & Hframe1).
    destruct (Hframe1 filename Hfsp) as (_ & _ & Fw1).
    destruct (os_path_exists fs1 (ying_filename filename) && negb pt_run) eqn:Ey.
    + apply andb_true_iff in Ey as [Ey _].
      destruct (torch_load fs1 (ying_filename filename)) as [yi|] eqn:Ely;
        cbn [bind] in H; [|discriminate].
      inversion H; subst; clear H.
      rewrite Fw1, Ew. cbn [bind]. rewrite Esr, Hex1. cbn [andb negb].
      rewrite Hld1. cbn [bind]. rewrite Ey. cbn [andb negb].
      rewrite Ely. reflexivity.
    + destruct (ying_pad _ _ _) as [[pl pr]|]; cbn [bind] in H; [|discriminate].
      destruct (pad _ _ _) as [w|]; cbn [bind] in H; [|discriminate].
      destruct (yingram _) as [yi|]; cbn [bind] in H; [|discriminate].
      destruct (torch_save fs1 (ying_filename filename) yi) as [fs2|] eqn:Esave2;
        cbn [bind] in H; [|discriminate].
      inversion H; subst; clear H.
      destruct (Hfs _ _ _ _ Esave2) as (Hex2 & Hld2 & Hframe2).
      destruct (Hframe2 filename Hfy) as (_ & _ & Fw2).
      destruct (Hframe2 (spec_filename filename) Hsy) as (Fe2 & Fl2 & _).
      rewrite Fw2, Fw1, Ew. cbn [bind]. rewrite Esr, Fe2, Hex1. cbn [andb negb].
      rewrite Fl2, Hld1. cbn [bind]. rewrite Hex2. cbn [andb negb].
      rewrite Hld2. reflexivity.
Qed.

Lemma create_spec_loop_spec (hparams : HParams) (rows : list Row) :
  forall fs fs',
    create_spec_loop T FS os_path_join load_wav_to_torch os_path_exists
      torch_save spectrogram_torch unsqueeze0 squeeze0 hparams fs rows
    = Ok fs' ->
    Forall (fun row : Row =>
              os_path_exists fs'
                (spec_filename
                   (String.append (os_path_join (hp_data_path hparams) row.1.1)
                      ".wav")) = true) rows /\
    (forall name, os_path_exists fs name = true ->
       os_path_exists fs' name = true /\
       torch_load fs' name = torch_load fs name).
Proof.
  induction rows as [|[[ap ph] du] rest IH]; intros fs fs' H;
    cbn [create_spec_loop] in H.
  - inversion H; subst. split; [constructor|auto].
  - destruct (load_wav_to_torch fs _) as [[audio sr]|]; cbn [bind] in H;
      [|discriminate].
    destruct (negb (sr =? hp_sampling_rate hparams)); [discriminate|].
    fold (spec_filename
            (String.append (os_path_join (hp_data_path hparams) ap) ".wav"))
      in H.
    destruct (os_path_exists fs (spec_filename _)) eqn:Ee;
      cbn [negb bind] in H.
    + apply IH in H as [Hall Hmono]. split; [|exact Hmono].
      constructor; [|exact Hall]. apply Hmono. exact Ee.
    + destruct (spectrogram_torch _ _ _ _ _) as [sp|]; cbn [bind] in H;
        [|discriminate].
      destruct (torch_save fs _ (squeeze0 sp)) as [fs1|] eqn:Es;
        cbn [bind] in H; [|discriminate].
      apply IH in H as [Hall Hmono].
      destruct (Hfs _ _ _ _ Es) as (Hex & _ & Hframe).
      split.
      * constructor; [|exact Hall]. apply Hmono. exact Hex.
      * intros name Hn.
        assert (Hne : name <> spec_filename
                        (String.append
                           (os_path_join (hp_data_path hparams) ap) ".wav"))
          by (intros ->; congruence).
        destruct (Hframe name Hne) as (E1 & E2 & _).
        destruct (Hmono name) as [M1 M2]; [rewrite E1; exact Hn|].
        split; [exact M1|]. rewrite M2. exact E2.
Qed.

(** When [create_spec] returns, the spectrogram cache of every row of
    the manifest exists, and every file that existed before is still
    there and loads as before: an existing cache is never computed
    again or written over. *)
Theorem create_spec_fills_caches (fs fs' : FS) (loaded : list Row)
    (hparams : HParams) :
  create_spec T FS os_path_join load_wav_to_torch os_path_exists torch_save
    spectrogram_torch unsqueeze0 squeeze0 fs loaded hparams = Ok fs' ->
  Forall (fun row : Row =>
            os_path_exists fs'
              (spec_filename
                 (String.append (os_path_join (hp_data_path hparams) row.1.1)
                    ".wav")) = true) loaded /\
  (forall name, os_path_exists fs name = true ->
     os_path_exists fs' name = true /\
     torch_load fs' name = torch_load fs name).
Proof. unfold create_spec. apply create_spec_loop_spec. Qed.

(** After [create_spec], [get_audio] without [pt_run] on the file of a
    manifest row returns the spectrogram of the cache. *)
Theorem get_audio_after_create_spec (self : Loader) (fs fs1 fs2 : FS)
    (loaded : list Row) (hparams : HParams) (row : Row)
    (spec ying audio : T) :
  create_spec T FS os_path_join load_wav_to_torch os_path_exists torch_save
    spectrogram_torch unsqueeze0 squeeze0 fs loaded hparams = Ok fs1 ->
  row ∈ loaded ->
  let filename :=
    String.append (os_path_join (hp_data_path hparams) row.1.1) ".wav" in
  get_audio T FS load_wav_to_torch os_path_exists torch_load torch_save
    spectrogram_torch unsqueeze0 squeeze0 shape1 pad yingram
    sampling_rate filter_length win_length self fs1 filename false
  = Ok (spec, ying, audio, fs2) ->
  torch_load fs1 (spec_filename filename) = Ok spec.
Proof.
  intros Hcs Hin filename H.
  apply create_spec_loop_spec in Hcs as [Hall _].
  rewrite Forall_forall in Hall. specialize (Hall row Hin).
  fold filename in Hall.
  unfold get_audio in H.
  destruct (load_wav_to_torch fs1 filename) as [[audio0 sr]|];
    cbn [bind] in H; [|discriminate].
  destruct (negb (sr =? sampling_rate)); [discriminate|].
  rewrite Hall in H. cbn [andb negb] in H.
  destruct (torch_load fs1 (spec_filename filename)) as [sp|];
    cbn [bind] in H; [|discriminate].
  destruct (os_path_exists fs1 (ying_filename filename)); cbn [andb negb] in H.
  - destruct (torch_load fs1 (ying_filename filename)); cbn [bind] in H;
      [|discriminate].
    inversion H; subst. reflexivity.
  - destruct (ying_pad _ _ _) as [[pl pr]|]; cbn [bind] in H; [|discriminate].
    destruct (pad _ _ _) as [w|]; cbn [bind] in H; [|discriminate].
    destruct (yingram _) as [yi|]; cbn [bind] in H; [|discriminate].
    destruct (torch_save fs1 _ yi); cbn [bind] in H; [|discriminate].
    inversion H; subst. reflexivity.
Qed.
End AudioCache.

Lemma audio_fixture_ok :
  fs_ok AudioFixture.load_wav_to_torch AudioFixture.os_path_exists
    AudioFixture.torch_load AudioFixture.torch_save.
Proof.
  intros fs name t fs' H. inversion H; subst; clear H.
  unfold AudioFixture.os_path_exists, AudioFixture.torch_load. simpl.
  rewrite String.eqb_refl. split; [reflexivity|]. split; [reflexivity|].
  intros name' Hne.
  destruct (String.eqb_spec name name') as [->|_]; [contradiction|].
  auto.
Qed.

Lemma stored_rows_have_own_caches_witness :
  exists self',
    TextAudioLoader._filter LoaderFixture.os_path_join
      LoaderFixture.os_path_getsize LoaderFixture.loader = Ok self' /\
    Forall (fun row : TextAudioLoader.Row => own_caches row.1.1)
      (TextAudioLoader.audiopaths_sid_text self').
Proof.
  eexists. split; [vm_compute; reflexivity|].
  apply (stored_rows_have_own_caches LoaderFixture.os_path_join
           LoaderFixture.os_path_getsize LoaderFixture.loader).
  vm_compute. reflexivity.
Defined.

Lemma get_audio_cache_hit_witness :
  exists r,
    TextAudioLoader.get_audio AudioFixture.T AudioFixture.FS
      AudioFixture.load_wav_to_torch AudioFixture.os_path_exists
      AudioFixture.torch_load AudioFixture.torch_save
      AudioFixture.spectrogram_torch AudioFixture.unsqueeze0
      AudioFixture.squeeze0 AudioFixture.shape1 AudioFixture.pad
      AudioFixture.yingram 22050 16 16 LoaderFixture.loader
      [] "data/b.wav" true = Ok r /\
    TextAudioLoader.get_audio AudioFixture.T AudioFixture.FS
      AudioFixture.load_wav_to_torch AudioFixture.os_path_exists
      AudioFixture.torch_load AudioFixture.torch_save
      AudioFixture.spectrogram_torch AudioFixture.unsqueeze0
      AudioFixture.squeeze0 AudioFixture.shape1 AudioFixture.pad
      AudioFixture.yingram 22050 16 16 LoaderFixture.loader
      r.2 "data/b.wav" false = Ok r.
Proof.
  eexists (_, _, _, _). split; [vm_compute; reflexivity|].
  apply (get_audio_cache_hit AudioFixture.T AudioFixture.FS
           AudioFixture.load_wav_to_torch AudioFixture.os_path_exists
           AudioFixture.torch_load AudioFixture.torch_save
           AudioFixture.spectrogram_torch AudioFixture.unsqueeze0
           AudioFixture.squeeze0 AudioFixture.shape1 AudioFixture.pad
           AudioFixture.yingram 22050 16 16 audio_fixture_ok
           LoaderFixture.loader [] _ "data/b.wav" true).
  - vm_compute. lia.
  - vm_compute. reflexivity.
Defined.

Lemma create_spec_fills_caches_witness :
  exists fs',
    create_spec AudioFixture.T AudioFixture.FS LoaderFixture.os_path_join
      AudioFixture.load_wav_to_torch AudioFixture.os_path_exists
      AudioFixture.torch_save AudioFixture.spectrogram_torch
      AudioFixture.unsqueeze0 AudioFixture.squeeze0
      [("data/b.spec.pt"%string, [0])]
      (TextAudioLoader.audiopaths_sid_text LoaderFixture.loader)
      AudioFixture.hparams = Ok fs' /\
    AudioFixture.os_path_exists fs' "data/a.spec.pt" = true /\
    AudioFixture.torch_load fs' "data/b.spec.pt" = Ok [0].
Proof.
  eexists. split; [vm_compute; reflexivity|].
  destruct (create_spec_fills_caches AudioFixture.T AudioFixture.FS
              LoaderFixture.os_path_join AudioFixture.load_wav_to_torch
              AudioFixture.os_path_exists AudioFixture.torch_load
              AudioFixture.torch_save AudioFixture.spectrogram_torch
              AudioFixture.unsqueeze0 AudioFixture.squeeze0 audio_fixture_ok
              [("data/b.spec.pt"%string, [0])] _
              (TextAudioLoader.audiopaths_sid_text LoaderFixture.loader)
              AudioFixture.hparams eq_refl) as [Hall Hold].
  split.
  - exact (Forall_inv Hall).
  - exact (proj2 (Hold "data/b.spec.pt"%string eq_refl)).
Defined.

Lemma get_audio_after_create_spec_witness :
  exists fs1 r,
    create_spec AudioFixture.T AudioFixture.FS LoaderFixture.os_path_join
      AudioFixture.load_wav_to_torch AudioFixture.os_path_exists
      AudioFixture.torch_save AudioFixture.spectrogram_torch
      AudioFixture.unsqueeze0 AudioFixture.squeeze0 []
      (TextAudioLoader.audiopaths_sid_text LoaderFixture.loader)
      AudioFixture.hparams = Ok fs1 /\
    TextAudioLoader.get_audio AudioFixture.T AudioFixture.FS
      AudioFixture.load_wav_to_torch AudioFixture.os_path_exists
      AudioFixture.torch_load AudioFixture.torch_save
      AudioFixture.spectrogram_torch AudioFixture.unsqueeze0
      AudioFixture.squeeze0 AudioFixture.shape1 AudioFixture.pad
      AudioFixture.yingram 22050 16 16 LoaderFixture.loader
      fs1 "data/c.wav" false = Ok r /\
    AudioFixture.torch_load fs1 "data/c.spec.pt" = Ok r.1.1.1.
Proof.
  eexists. eexists (_, _, _, _).
  split; [vm_compute; reflexivity|]. split; [vm_compute; reflexivity|].
  eapply (get_audio_after_create_spec AudioFixture.T AudioFixture.FS
            LoaderFixture.os_path_join AudioFixture.load_wav_to_torch
            AudioFixture.os_path_exists AudioFixture.torch_load
            AudioFixture.torch_save AudioFixture.spectrogram_torch
            AudioFixture.unsqueeze0 AudioFixture.squeeze0 AudioFixture.shape1
            AudioFixture.pad AudioFixture.yingram 22050 16 16 audio_fixture_ok
            LoaderFixture.loader [] _ _
            (TextAudioLoader.audiopaths_sid_text LoaderFixture.loader)
            AudioFixture.hparams ("c"%string, "X Y"%string, "1 1"%string)).
  - vm_compute. reflexivity.
  - simpl. rewrite !elem_of_cons. auto.
  - vm_compute. reflexivity.
Defined.
